(** * StreamFlow stream checker: a shallow embedding and its properties

    The development follows [backend/stream_checker_service.py] and
    [backend/stream_check_utils.py].  Python dictionaries whose iteration
    order is observable are association lists with unique keys, kept in
    insertion order; dictionaries used as plain records and Python sets
    are stdpp's [gmap] and [gset].  Integers are [Z], Python floats are
    idealised as exact rationals [Q], wall-clock instants are [Z]
    microseconds since [datetime.min]. *)

From Stdlib Require Import ZArith QArith Qminmax Qround Lia Lqa List Ascii String Permutation Sorted.
From stdpp Require Import gmap strings list pretty.

Local Open Scope Z_scope.

(** ** Python dictionaries with observable order *)

Module PyDict.
Section Dict.
Context {K V : Type} `{EqDecision K}.

Definition t := list (K * V).

(** [d.get(k)] *)
Fixpoint get (k : K) (d : list (K * V)) : option V :=
  match d with
  | [] => None
  | (k', v) :: rest => if decide (k = k') then Some v else get k rest
  end.

(** [d[k] = v]: an existing key keeps its position, a new key goes last. *)
Fixpoint set (k : K) (v : V) (d : list (K * V)) : list (K * V) :=
  match d with
  | [] => [(k, v)]
  | (k', v') :: rest =>
      if decide (k = k') then (k', v) :: rest else (k', v') :: set k v rest
  end.

Definition keys (d : list (K * V)) : list K := map fst d.

(** [d.update(other)] *)
Definition update (d other : list (K * V)) : list (K * V) :=
  fold_left (fun acc kv => set (fst kv) (snd kv) acc) other d.
End Dict.
End PyDict.

(** ** Dynamically typed values held in the service's dictionaries *)

Inductive pyval : Type :=
| PNone
| PBool (b : bool)
| PInt (z : Z)
| PFloat (q : Q)
| PStr (s : string)
| PIds (l : list Z).

(** Python truthiness of a value. *)
Definition truthy (v : pyval) : bool :=
  match v with
  | PNone => false
  | PBool b => b
  | PInt z => negb (z =? 0)
  | PFloat q => negb (Qeq_bool q 0)
  | PStr s => negb (String.eqb s "")
  | PIds l => match l with [] => false | _ => true end
  end.

(** ** ChannelUpdateTracker

    Every method body runs under [self.lock], so a concurrent execution is
    a serialized sequence of whole method calls; a method is a function
    from the in-memory [self.updates] to its new value.  Channel keys are
    [str(channel_id)] and are kept as the integers they print.  The write
    of the JSON file that ends each mutation is not part of the model. *)

Module Tracker.

(** One channel's record: a Python dict with string keys. *)
Abbreviation entry := (gmap string pyval).

(** [self.updates]: the ['channels'] dict (possibly absent in a loaded
    file) and the ['last_global_check'] stamp. *)
Record updates := mkUpdates {
  channels : option (list (Z * entry));
  last_global_check : option string
}.

Definition channels_or_empty (u : updates) : list (Z * entry) :=
  match channels u with Some d => d | None => [] end.

(** [info.get('needs_check', False)] taken as a condition. *)
Definition needs_check (info : entry) : bool :=
  match info !! "needs_check"%string with
  | Some v => truthy v
  | None => false
  end.

(** [channel_info.get('checked_stream_ids', [])] *)
Definition checked_ids_of (info : entry) : pyval :=
  match info !! "checked_stream_ids"%string with
  | Some v => v
  | None => PIds []
  end.

(** The dict literal both branches of [mark_channel_updated] build. *)
Definition fresh_entry (timestamp : string) (stream_count checked : pyval) : entry :=
  <["last_update"%string := PStr timestamp]>
    (<["needs_check"%string := PBool true]>
       (<["stream_count"%string := stream_count]>
          (<["checked_stream_ids"%string := checked]> ∅))).

Definition mark_in (d : list (Z * entry)) (channel_id : Z)
    (timestamp : string) (stream_count : pyval) : list (Z * entry) :=
  match PyDict.get channel_id d with
  | Some channel_info =>
      PyDict.set channel_id
        (fresh_entry timestamp stream_count (checked_ids_of channel_info)) d
  | None =>
      PyDict.set channel_id (fresh_entry timestamp stream_count (PIds [])) d
  end.

(** [mark_channel_updated(channel_id, timestamp, stream_count)] *)
Definition mark_channel_updated (channel_id : Z) (timestamp : string)
    (stream_count : pyval) (u : updates) : updates :=
  mkUpdates (Some (mark_in (channels_or_empty u) channel_id timestamp stream_count))
            (last_global_check u).

(** [stream_counts.get(channel_id)] *)
Definition count_for (stream_counts : list (Z * Z)) (channel_id : Z) : pyval :=
  match PyDict.get channel_id stream_counts with
  | Some n => PInt n
  | None => PNone
  end.

(** [mark_channels_updated(channel_ids, timestamp, stream_counts)] *)
Definition mark_channels_updated (channel_ids : list Z) (timestamp : string)
    (stream_counts : list (Z * Z)) (u : updates) : updates :=
  mkUpdates
    (Some (fold_left
             (fun d channel_id =>
                mark_in d channel_id timestamp (count_for stream_counts channel_id))
             channel_ids (channels_or_empty u)))
    (last_global_check u).

(** The keys of the entries whose flag is set, in dictionary order. *)
Definition flagged_ids (d : list (Z * entry)) : list Z :=
  map fst (filter (fun kv => needs_check (snd kv) = true) d).

(** [get_channels_needing_check()] *)
Definition get_channels_needing_check (u : updates) : list Z :=
  flagged_ids (channels_or_empty u).

(** [max_channels and len(channels) >= max_channels] *)
Definition limit_reached (max_channels : option Z) (n : nat) : bool :=
  match max_channels with
  | None => false
  | Some m => negb (m =? 0) && (m <=? Z.of_nat n)
  end.

Definition claim_entry (timestamp : string) (info : entry) : entry :=
  <["queued_at"%string := PStr timestamp]> (<["needs_check"%string := PBool false]> info).

(** The loop of [get_and_clear_channels_needing_check]: [acc] is the list
    [channels] built so far; the result is the dict after the in-place
    updates of [info] and the final [channels]. *)
Fixpoint claim_loop (max_channels : option Z) (timestamp : string)
    (items : list (Z * entry)) (acc : list Z) : list (Z * entry) * list Z :=
  match items with
  | [] => ([], acc)
  | (channel_id, info) :: rest =>
      if needs_check info then
        let acc' := acc ++ [channel_id] in
        let info' := claim_entry timestamp info in
        if limit_reached max_channels (length acc') then
          ((channel_id, info') :: rest, acc')
        else
          let '(rest', out) := claim_loop max_channels timestamp rest acc' in
          ((channel_id, info') :: rest', out)
      else
        let '(rest', out) := claim_loop max_channels timestamp rest acc in
        ((channel_id, info) :: rest', out)
  end.

(** [get_and_clear_channels_needing_check(max_channels)], run under the
    tracker lock; [timestamp] is [datetime.now().isoformat()]. *)
Definition get_and_clear_channels_needing_check (max_channels : option Z)
    (timestamp : string) (u : updates) : updates * list Z :=
  match channels u with
  | None => (u, [])
  | Some d =>
      let '(d', out) := claim_loop max_channels timestamp d [] in
      (mkUpdates (Some d') (last_global_check u), out)
  end.

(** [mark_channel_for_force_check(channel_id)] *)
Definition mark_channel_for_force_check (channel_id : Z) (u : updates) : updates :=
  let d := channels_or_empty u in
  let info := match PyDict.get channel_id d with Some i => i | None => ∅ end in
  mkUpdates (Some (PyDict.set channel_id (<["force_check"%string := PBool true]> info) d))
            (last_global_check u).

(** [should_force_check(channel_id)] *)
Definition should_force_check (channel_id : Z) (u : updates) : bool :=
  match PyDict.get channel_id (channels_or_empty u) with
  | Some info =>
      match info !! "force_check"%string with
      | Some v => truthy v
      | None => false
      end
  | None => false
  end.

(** Events of a serialized run of the tracker. *)
Inductive op : Type :=
| MarkUpdated (channel_id : Z) (timestamp : string) (stream_count : pyval)
| MarksUpdated (channel_ids : list Z) (timestamp : string) (stream_counts : list (Z * Z))
| GetAndClear (max_channels : option Z) (timestamp : string).

(** One event: the new state and, for a claim, the ids it returned. *)
Definition step (u : updates) (o : op) : updates * option (list Z) :=
  match o with
  | MarkUpdated c ts sc => (mark_channel_updated c ts sc u, None)
  | MarksUpdated cs ts scs => (mark_channels_updated cs ts scs u, None)
  | GetAndClear m ts =>
      let '(u', ids) := get_and_clear_channels_needing_check m ts u in
      (u', Some ids)
  end.

(** A serialized run, with the results of its claims in call order. *)
Fixpoint run (u : updates) (ops : list op) : updates * list (list Z) :=
  match ops with
  | [] => (u, [])
  | o :: rest =>
      let '(u', r) := step u o in
      let '(u'', rs) := run u' rest in
      (u'', match r with Some ids => ids :: rs | None => rs end)
  end.

Definition dict_flag (c : Z) (d : list (Z * entry)) : bool :=
  match PyDict.get c d with
  | Some info => needs_check info
  | None => false
  end.

(** Whether channel [c] is currently flagged dirty. *)
Definition flagged (c : Z) (u : updates) : bool := dict_flag c (channels_or_empty u).

(** Whether event [o] marks channel [c] as updated. *)
Definition marks (c : Z) (o : op) : bool :=
  match o with
  | MarkUpdated c' _ _ => bool_decide (c = c')
  | MarksUpdated cs _ _ => bool_decide (c ∈ cs)
  | GetAndClear _ _ => false
  end.

(** Number of times [c] goes from clean to dirty along a run. *)
Fixpoint dirty_episodes (c : Z) (u : updates) (ops : list op) : nat :=
  match ops with
  | [] => 0
  | o :: rest =>
      ((if marks c o && negb (flagged c u) then 1 else 0)
       + dirty_episodes c (fst (step u o)) rest)%nat
  end.

(** The tracker dict has each channel key once. *)
Definition wf (u : updates) : Prop := NoDup (PyDict.keys (channels_or_empty u)).

(** How many further ids the loop takes from [n] flagged ones once [a] are
    collected. *)
Definition quota (m : option Z) (a n : nat) : nat :=
  match m with
  | None => n
  | Some m => if m =? 0 then n else Z.to_nat (Z.max 1 (m - Z.of_nat a))
  end.

(** The ids a call with bound [max_channels] hands out, given the flagged
    ids in dictionary order: all of them without a bound (a missing or
    zero [max_channels] is falsy), the first [max_channels] otherwise, and
    the first one when the bound is negative. *)
Definition first_upto (max_channels : option Z) (ids : list Z) : list Z :=
  match max_channels with
  | None => ids
  | Some m => if m =? 0 then ids else take (Z.to_nat (Z.max 1 m)) ids
  end.

(** A tracker with a dirty channel 7 and a clean channel 9 that has a
    pending force check. *)
Definition two_channels : updates :=
  mkUpdates
    (Some [(7, fresh_entry "2025-01-01T00:00:00" (PInt 3) (PIds []));
           (9, <["force_check"%string := PBool true]>
                 (<["needs_check"%string := PBool false]> ∅))])
    None.

End Tracker.

(** ** StreamCheckQueue

    The methods run under [self.lock]; [get_next_channel] is modelled at
    the moment its blocking [get] returns or times out. *)

Module WorkQueue.

Record stats := mkStats {
  total_queued : Z;
  total_completed : Z;
  total_failed : Z;
  current_channel : option Z;
  queue_size : Z
}.

(** The queue object: [queue] is the [queue.Queue] of
    [(priority, channel_id)] tuples, oldest first; [max_size] its
    [maxsize]; [failed] maps a channel to its error text and timestamp. *)
Record t := mkQueue {
  max_size : Z;
  queue : list (Z * Z);
  queued : gset Z;
  in_progress : gset Z;
  completed : gset Z;
  failed : gmap Z (string * string);
  st : stats
}.

(** [StreamCheckQueue(max_size)] *)
Definition init (max_size : Z) : t :=
  mkQueue max_size [] ∅ ∅ ∅ ∅ (mkStats 0 0 0 None 0).

(** [queue.Queue.qsize()] *)
Definition qsize (q : t) : Z := Z.of_nat (length (queue q)).

(** [queue.Queue.full()]: a [maxsize] of zero or less means no bound. *)
Definition full (q : t) : bool := (0 <? max_size q) && (max_size q <=? qsize q).

(** [add_channel(channel_id, priority)]: the new state and the returned flag. *)
Definition add_channel (channel_id priority : Z) (q : t) : t * bool :=
  if bool_decide (channel_id ∉ queued q)
     && bool_decide (channel_id ∉ in_progress q)
     && bool_decide (channel_id ∉ completed q)
  then
    if full q then (q, false)
    else
      let items := queue q ++ [(priority, channel_id)] in
      (mkQueue (max_size q) items ({[channel_id]} ∪ queued q) (in_progress q)
         (completed q) (failed q)
         (mkStats (total_queued (st q) + 1) (total_completed (st q))
            (total_failed (st q)) (current_channel (st q))
            (Z.of_nat (length items))),
       true)
  else (q, false).

(** [add_channels(channel_ids, priority)]: the new state and the count added. *)
Fixpoint add_channels (channel_ids : list Z) (priority : Z) (q : t) : t * Z :=
  match channel_ids with
  | [] => (q, 0)
  | channel_id :: rest =>
      let '(q1, ok) := add_channel channel_id priority q in
      let '(q2, added) := add_channels rest priority q1 in
      (q2, (if ok then 1 else 0) + added)
  end.

(** [remove_from_completed(channel_id)] *)
Definition remove_from_completed (channel_id : Z) (q : t) : t * bool :=
  if bool_decide (channel_id ∈ completed q)
  then (mkQueue (max_size q) (queue q) (queued q) (in_progress q)
          (completed q ∖ {[channel_id]}) (failed q) (st q), true)
  else (q, false).

(** [get_next_channel(timeout)]: an empty queue times out and gives [None]. *)
Definition get_next_channel (q : t) : t * option Z :=
  match queue q with
  | [] => (q, None)
  | (priority, channel_id) :: rest =>
      (mkQueue (max_size q) rest (queued q ∖ {[channel_id]})
         ({[channel_id]} ∪ in_progress q) (completed q) (failed q)
         (mkStats (total_queued (st q)) (total_completed (st q))
            (total_failed (st q)) (Some channel_id) (Z.of_nat (length rest))),
       Some channel_id)
  end.

Definition release (channel_id : Z) (cur : option Z) : option Z :=
  if bool_decide (cur = Some channel_id) then None else cur.

(** [mark_completed(channel_id)] *)
Definition mark_completed (channel_id : Z) (q : t) : t :=
  mkQueue (max_size q) (queue q) (queued q) (in_progress q ∖ {[channel_id]})
    ({[channel_id]} ∪ completed q) (failed q)
    (mkStats (total_queued (st q)) (total_completed (st q) + 1)
       (total_failed (st q)) (release channel_id (current_channel (st q)))
       (queue_size (st q))).

(** [mark_failed(channel_id, error)], stamped [timestamp]. *)
Definition mark_failed (channel_id : Z) (error timestamp : string) (q : t) : t :=
  mkQueue (max_size q) (queue q) (queued q) (in_progress q ∖ {[channel_id]})
    (completed q) (<[channel_id := (error, timestamp)]> (failed q))
    (mkStats (total_queued (st q)) (total_completed (st q))
       (total_failed (st q) + 1) (release channel_id (current_channel (st q)))
       (queue_size (st q))).

(** [clear()] *)
Definition clear (q : t) : t := init (max_size q).

(** A queue whose only channel, 4, is being checked. *)
Definition busy : t := fst (get_next_channel (fst (add_channel 4 10 (init 1000)))).

End WorkQueue.

(** ** The cron gate of the scheduler loop *)

Module Cron.

(** Microseconds in [n] minutes. *)
Definition minutes (n : Z) : Z := n * 60 * 1000000.

(** The part of the configuration that [_check_global_schedule] reads. *)
Record config := mkConfig {
  schedule_enabled : bool;
  pipeline_mode : string;
  cron_expression : option string;
  frequency : string;
  hour : Z;
  minute : Z;
  day_of_month : Z
}.

(** [_convert_legacy_schedule_to_cron()] *)
Definition convert_legacy_schedule_to_cron (cfg : config) : string :=
  if String.eqb (frequency cfg) "monthly"
  then pretty (minute cfg) +:+ " " +:+ pretty (hour cfg) +:+ " "
       +:+ pretty (day_of_month cfg) +:+ " * *"
  else pretty (minute cfg) +:+ " " +:+ pretty (hour cfg) +:+ " * * *".

(** Pipeline modes that have a scheduled global action. *)
Definition scheduled_modes : list string :=
  ["pipeline_1_5"; "pipeline_2_5"; "pipeline_3"; "pipeline_4"]%string.

(** The expression handed to croniter: the configured one, or the legacy
    conversion when it is missing or empty. *)
Definition effective_expression (cfg : config) : string :=
  match cron_expression cfg with
  | Some e => if String.eqb e "" then convert_legacy_schedule_to_cron cfg else e
  | None => convert_legacy_schedule_to_cron cfg
  end.

(** [abs((now - prev).total_seconds() / 60) <= 10] *)
Definition within_window (now prev : Z) : bool := Z.abs (now - prev) <=? minutes 10.

Section Schedule.

(** croniter is a third-party package: whether it can be imported, which
    expressions it accepts, and the scheduled instant before a base time. *)
Variable croniter_installed : bool.
Variable croniter_is_valid : string → bool.
Variable croniter_get_prev : string → Z → Z.

(** [_check_global_schedule()] evaluated at [now]: whether the global
    action was launched, and [last_global_check] afterwards.  A launch ends
    with [mark_global_check()], which stamps the later instant [done_at]. *)
Definition check_global_schedule (cfg : config) (now done_at : Z)
    (last_global : option Z) : bool * option Z :=
  if negb (schedule_enabled cfg) then (false, last_global)
  else if negb (bool_decide (pipeline_mode cfg ∈ scheduled_modes)) then (false, last_global)
  else
    let expr := effective_expression cfg in
    if negb croniter_installed then (false, last_global)
    else if negb (croniter_is_valid expr) then (false, last_global)
    else
      let prev_scheduled_time := croniter_get_prev expr now in
      match last_global with
      | None =>
          if within_window now prev_scheduled_time
          then (true, Some done_at)
          else (false, None)
      | Some last_check_time =>
          if last_check_time <? prev_scheduled_time
          then (true, Some done_at)
          else (false, last_global)
      end.

End Schedule.

(** The instant [h]:[m]:[s] of day [d]. *)
Definition instant (d h m s : Z) : Z := (((d * 24 + h) * 60 + m) * 60 + s) * 1000000.

(** What croniter's [get_prev] gives for the daily expression
    ["M H * * *"]: the latest instant [H]:[M] strictly before [now]. *)
Definition daily_prev (h m : Z) (now : Z) : Z :=
  let day := instant 1 0 0 0 in
  let offset := instant 0 h m 0 in
  (now - offset - 1) / day * day + offset.

(** The default configuration's schedule section, in mode [mode]. *)
Definition default_config (mode : string) : config :=
  mkConfig true mode (Some "0 3 * * *"%string) "daily" 3 0 1.

(** croniter on the default expression ["0 3 * * *"]. *)
Definition daily_at_three (expr : string) (now : Z) : Z := daily_prev 3 0 now.

End Cron.

(** ** String operations of the Python runtime, on ASCII text *)

Module Str.

Definition code (c : ascii) : nat := nat_of_ascii c.

(** [str.isspace] on ASCII: tab to carriage return, the four separators
    and the space. *)
Definition is_space (c : ascii) : bool :=
  ((9 <=? code c) && (code c <=? 13) || (28 <=? code c) && (code c <=? 32))%nat.

Definition is_digit (c : ascii) : bool := ((48 <=? code c) && (code c <=? 57))%nat.

Definition digit_val (c : ascii) : Z := Z.of_nat (code c - 48).

Definition is_empty (s : string) : bool :=
  match s with EmptyString => true | _ => false end.

(** [s.startswith(pre)] *)
Fixpoint starts_with (pre s : string) : bool :=
  match pre, s with
  | EmptyString, _ => true
  | String a p, String b r => Ascii.eqb a b && starts_with p r
  | String _ _, EmptyString => false
  end.

(** [sub in s] *)
Fixpoint contains (sub s : string) : bool :=
  starts_with sub s
  || match s with
     | EmptyString => false
     | String _ r => contains sub r
     end.

Fixpoint drop (n : nat) (s : string) : string :=
  match n, s with
  | O, _ => s
  | S n', String _ r => drop n' r
  | S _, EmptyString => EmptyString
  end.

(** [s.split(sep)[0]]: the text before the first [sep], or all of [s]. *)
Fixpoint before_first (sep s : string) : string :=
  if starts_with sep s then EmptyString
  else match s with
       | EmptyString => EmptyString
       | String c r => String c (before_first sep r)
       end.

Fixpoint lstrip (s : string) : string :=
  match s with
  | String c r => if is_space c then lstrip r else s
  | EmptyString => EmptyString
  end.

Fixpoint rstrip (s : string) : string :=
  match s with
  | EmptyString => EmptyString
  | String c r =>
      let r' := rstrip r in
      if is_space c && is_empty r' then EmptyString else String c r'
  end.

(** [s.strip()] *)
Definition strip (s : string) : string := rstrip (lstrip s).

Definition snoc (s : string) (c : ascii) : string := s +:+ String c EmptyString.

Fixpoint split_ws_from (s cur : string) : list string :=
  match s with
  | EmptyString => if is_empty cur then [] else [cur]
  | String c r =>
      if is_space c
      then if is_empty cur then split_ws_from r EmptyString
           else cur :: split_ws_from r EmptyString
      else split_ws_from r (snoc cur c)
  end.

(** [s.split()] *)
Definition split_ws (s : string) : list string := split_ws_from s EmptyString.

Fixpoint split_char_from (sep : ascii) (s cur : string) : list string :=
  match s with
  | EmptyString => [cur]
  | String c r =>
      if Ascii.eqb c sep then cur :: split_char_from sep r EmptyString
      else split_char_from sep r (snoc cur c)
  end.

(** [s.split(sep)] for a one-character [sep] *)
Definition split_char (sep : ascii) (s : string) : list string :=
  split_char_from sep s EmptyString.

Definition lower_char (c : ascii) : ascii :=
  if ((65 <=? code c) && (code c <=? 90))%nat then ascii_of_nat (code c + 32) else c.

(** [s.lower()] *)
Fixpoint lower (s : string) : string :=
  match s with
  | EmptyString => EmptyString
  | String c r => String (lower_char c) (lower r)
  end.

(** Decimal digits with single underscores between digits, as [int]
    accepts them; [after_digit] tells whether the last character read was
    a digit. *)
Fixpoint digits_value (s : string) (acc : Z) (after_digit : bool) : option Z :=
  match s with
  | EmptyString => if after_digit then Some acc else None
  | String c r =>
      if is_digit c then digits_value r (10 * acc + digit_val c) true
      else if Ascii.eqb c "_" && after_digit then digits_value r acc false
      else None
  end.

(** The blanks that [int] skips around an ASCII numeral: tab to carriage
    return and the space.  The four separators that [str.strip] removes
    are not among them. *)
Definition is_blank (c : ascii) : bool :=
  ((9 <=? code c) && (code c <=? 13) || (code c =? 32))%nat.

Fixpoint skip_blanks (s : string) : string :=
  match s with
  | String c r => if is_blank c then skip_blanks r else s
  | EmptyString => EmptyString
  end.

Fixpoint drop_trailing_blanks (s : string) : string :=
  match s with
  | EmptyString => EmptyString
  | String c r =>
      let r' := drop_trailing_blanks r in
      if is_blank c && is_empty r' then EmptyString else String c r'
  end.

Fixpoint count_digits (s : string) : nat :=
  match s with
  | EmptyString => 0
  | String c r => ((if is_digit c then 1 else 0) + count_digits r)%nat
  end.

(** [sys.get_int_max_str_digits()], at its default. *)
Definition int_max_str_digits : nat := 4300.

(** [int(s)]: [None] stands for [ValueError], which is raised for a text
    that is not a numeral and for a numeral of more digits than the
    interpreter's limit. *)
Definition py_int (s : string) : option Z :=
  let t := drop_trailing_blanks (skip_blanks s) in
  if (int_max_str_digits <? count_digits t)%nat then None
  else
    match t with
    | String "+" r => digits_value r 0 false
    | String "-" r => Z.opp <$> digits_value r 0 false
    | _ => digits_value t 0 false
    end.

(** Line boundaries of [str.splitlines] among ASCII characters, the
    carriage return apart. *)
Definition is_break (c : ascii) : bool :=
  ((code c =? 10) || (code c =? 11) || (code c =? 12)
   || (28 <=? code c) && (code c <=? 30))%nat.

Fixpoint splitlines_from (s cur : string) : list string :=
  match s with
  | EmptyString => if is_empty cur then [] else [cur]
  | String c r =>
      if (code c =? 13)%nat then
        match r with
        | String c' r' =>
            if (code c' =? 10)%nat then cur :: splitlines_from r' EmptyString
            else cur :: splitlines_from r EmptyString
        | EmptyString => cur :: splitlines_from r EmptyString
        end
      else if is_break c then cur :: splitlines_from r EmptyString
      else splitlines_from r (snoc cur c)
  end.

(** [s.splitlines()] *)
Definition splitlines (s : string) : list string := splitlines_from s EmptyString.

(** The longest run of digits at the head of [s], and the rest. *)
Fixpoint take_digits (s : string) : string * string :=
  match s with
  | String c r =>
      if is_digit c then let '(d, rest) := take_digits r in (String c d, rest)
      else (EmptyString, s)
  | EmptyString => (EmptyString, EmptyString)
  end.

(** Value of a string of decimal digits. *)
Fixpoint decimal (s : string) (acc : Z) : Z :=
  match s with
  | EmptyString => acc
  | String c r => decimal r (10 * acc + digit_val c)
  end.

End Str.

(** ** Bitrate detection from ffmpeg's debug output *)

Module Bitrate.

Inductive status : Type := OK | Timeout | Error.

(** How [subprocess.run] ended: with the captured standard error, by
    [TimeoutExpired], or by another exception. *)
Inductive run_result : Type :=
| Completed (stderr : string)
| TimedOut
| Failed.

(** What one method finds on one line. *)
Inductive found : Type :=
| Raised
| Nothing
| Value (kbps : Q).

(** [(total_bytes * 8) / 1000 / duration], taken when both are positive. *)
Definition rate_of (total_bytes duration : Z) : found :=
  if (0 <? total_bytes) && (0 <? duration)
  then Value (inject_Z (total_bytes * 8) / inject_Z 1000 / inject_Z duration)%Q
  else Nothing.

(** Method 1 on a line: the token before the first ["bytes read"] of a
    ["Statistics:"] line.  An empty token list is the uncaught
    [IndexError]; a token [int] rejects is the caught [ValueError]. *)
Definition method1 (duration : Z) (line : string) : found :=
  if Str.contains "Statistics:" line && Str.contains "bytes read" line then
    match last (Str.split_ws (Str.strip (Str.before_first "bytes read" line))) with
    | None => Raised
    | Some size_str =>
        match Str.py_int size_str with
        | Some total_bytes => rate_of total_bytes duration
        | None => Nothing
        end
    end
  else Nothing.

(** The progress pattern tried at the head of [s]: ["bitrate="], optional
    spaces, group 1 (digits, an optional dot, optional digits), optional
    spaces, ["kbits/s"].  The result is the text of group 1; the greedy
    reading is the only one that can match. *)
Definition progress_at (s : string) : option string :=
  if Str.starts_with "bitrate=" s then
    let '(whole, r1) := Str.take_digits (Str.lstrip (Str.drop 8 s)) in
    if Str.is_empty whole then None
    else
      let '(dot, r2) :=
        match r1 with
        | String "." r => ("."%string, r)
        | _ => (EmptyString, r1)
        end in
      let '(frac, r3) := Str.take_digits r2 in
      if Str.starts_with "kbits/s" (Str.lstrip r3)
      then Some (whole +:+ dot +:+ frac)
      else None
  else None.

(** [re.search] of the progress pattern: the leftmost match. *)
Fixpoint progress_search (s : string) : option string :=
  match progress_at s with
  | Some g => Some g
  | None =>
      match s with
      | EmptyString => None
      | String _ r => progress_search r
      end
  end.

(** [float(g)] for [g] made of digits, an optional dot and digits. *)
Definition float_of (g : string) : Q :=
  let '(whole, r) := Str.take_digits g in
  let frac := match r with String "." f => f | _ => EmptyString end in
  (inject_Z (Str.decimal (whole +:+ frac) 0)
   / inject_Z (10 ^ Z.of_nat (String.length frac)))%Q.

(** Method 2 on a line: the progress bitrate it shows, if any. *)
Definition method2 (line : string) : option Q :=
  if Str.contains "bitrate=" line && Str.contains "kbits/s" line then
    float_of <$> progress_search line
  else None.

(** [(\d+)\s+bytes read] tried at the head of [s]: the text of group 1. *)
Definition bytes_at (s : string) : option string :=
  let '(d, r) := Str.take_digits s in
  if Str.is_empty d then None
  else
    match r with
    | String c _ =>
        if Str.is_space c && Str.starts_with "bytes read" (Str.lstrip r)
        then Some d else None
    | EmptyString => None
    end.

Fixpoint bytes_search (s : string) : option string :=
  match bytes_at s with
  | Some g => Some g
  | None =>
      match s with
      | EmptyString => None
      | String _ r => bytes_search r
      end
  end.

(** Method 3 on a line, for when no bitrate is known yet: an untagged
    ["<N> bytes read"]. *)
Definition method3 (duration : Z) (line : string) : option Q :=
  if Str.contains "bytes read" line && negb (Str.contains "Statistics:" line) then
    match bytes_search line with
    | Some g =>
        match rate_of (Str.decimal g 0) duration with
        | Value v => Some v
        | _ => None
        end
    | None => None
    end
  else None.

(** The loop variables [bitrate] and [progress_bitrate]. *)
Record scan := mkScan {
  bitrate : option Q;
  progress_bitrate : option Q
}.

(** The loop body for one line; [None] when the line raises. *)
Definition scan_line (duration : Z) (line : string) (st : scan) : option scan :=
  match method1 duration line with
  | Raised => None
  | m1 =>
      let b1 := match m1 with Value v => Some v | _ => bitrate st end in
      let p := match method2 line with Some v => Some v | None => progress_bitrate st end in
      let b3 :=
        match b1 with
        | None => method3 duration line
        | Some _ => b1
        end in
      Some (mkScan b3 p)
  end.

(** The [for line in output.splitlines()] loop: the final variables, or
    the value of [bitrate] when a line raised. *)
Fixpoint scan_lines (duration : Z) (lines : list string) (st : scan) : scan + option Q :=
  match lines with
  | [] => inl st
  | line :: rest =>
      match scan_line duration line st with
      | Some st' => scan_lines duration rest st'
      | None => inr (bitrate st)
      end
  end.

(** [get_stream_bitrate(url, duration, ...)] given how ffmpeg ended: the
    returned bitrate and status. *)
Definition get_stream_bitrate (r : run_result) (duration : Z) : option Q * status :=
  match r with
  | Completed output =>
      match scan_lines duration (Str.splitlines output) (mkScan None None) with
      | inl st =>
          (match bitrate st with
           | Some v => Some v
           | None => progress_bitrate st
           end, OK)
      | inr b => (b, Error)
      end
  | TimedOut => (None, Timeout)
  | Failed => (None, Error)
  end.

(** The last value a method gives over the lines, and the first. *)
Definition last_value (vs : list (option Q)) : option Q :=
  fold_right (fun v acc => match acc with Some _ => acc | None => v end) None vs.

Definition first_value (vs : list (option Q)) : option Q :=
  fold_right (fun v acc => match v with Some _ => v | None => acc end) None vs.

Definition value_of (f : found) : option Q :=
  match f with Value v => Some v | _ => None end.

(** What the loop leaves in [bitrate] and in [progress_bitrate]. *)
Definition final_bitrate (duration : Z) (lines : list string) (b0 : option Q) : option Q :=
  match last_value (map (fun l => value_of (method1 duration l)) lines) with
  | Some v => Some v
  | None =>
      match b0 with
      | Some b => Some b
      | None => first_value (map (method3 duration) lines)
      end
  end.

Definition final_progress (lines : list string) (p0 : option Q) : option Q :=
  match last_value (map method2 lines) with
  | Some v => Some v
  | None => p0
  end.

Definition newline : string := String (ascii_of_nat 10) EmptyString.

(** ffmpeg output with a progress line and a Statistics line. *)
Definition progress_and_statistics : string :=
  ("frame=  750 fps= 25 q=-1.0 size=   15000kB time=00:00:30.00 bitrate=4000.0kbits/s speed=1.0x"
   +:+ newline +:+ "Statistics: 18000000 bytes read; 0 seeks"
   +:+ newline +:+ "[debug] Input stream #0:0: 750 frames decoded; 0 decode errors"
   +:+ newline)%string.

(** ffmpeg output with a progress line and an untagged byte count. *)
Definition progress_and_untagged : string :=
  ("frame=  750 fps= 25 q=-1.0 size=   15000kB time=00:00:30.00 bitrate=4000.0kbits/s speed=1.0x"
   +:+ newline +:+ "[debug] 18000000 bytes read from input"
   +:+ newline)%string.

End Bitrate.

(** ** Liveness classification and the scoring function *)

Module Score.

(** The analyzed-stream dictionary, by the keys the scorer reads.  [None]
    is a missing key; the three error flags are taken by truthiness. *)
Record analyzed := mkAnalyzed {
  resolution : option string;
  bitrate_kbps : option pyval;
  fps : option pyval;
  video_codec : option string;
  status : option string;
  err_decode : bool;
  err_discontinuity : bool;
  err_timeout : bool;
  interlaced_status : option string;
  frames_dropped : option pyval;
  frames_decoded : option pyval
}.

(** [scoring.weights], [None] for a missing weight. *)
Record weights := mkWeights {
  w_bitrate : option Q;
  w_resolution : option Q;
  w_fps : option Q;
  w_codec : option Q;
  w_errors : option Q
}.

Record config := mkScoring {
  scoring_weights : weights;
  prefer_h265 : bool;
  penalize_interlaced : bool;
  penalize_dropped_frames : bool
}.

(** [width, height = int(parts[0]), int(parts[1])] for a two-part split
    at ['x']; [None] when the split or a conversion fails. *)
Definition dimensions (resolution_str : string) : option (Z * Z) :=
  match Str.split_char "x" resolution_str with
  | [a; b] =>
      match Str.py_int a, Str.py_int b with
      | Some width, Some height => Some (width, height)
      | _, _ => None
      end
  | _ => None
  end.

(** The resolution half of [_is_stream_dead]. *)
Definition dead_resolution (resolution : string) : bool :=
  if negb (Str.is_empty resolution) && negb (String.eqb resolution "N/A") then
    if String.eqb resolution "0x0" then true
    else if Str.contains "x" resolution then
      match dimensions resolution with
      | Some (width, height) => (width =? 0) || (height =? 0)
      | None => false
      end
    else false
  else false.

(** [bitrate in [0, None, 'N/A'] or (isinstance(bitrate, (int, float))
    and bitrate == 0)] *)
Definition dead_bitrate (bitrate : pyval) : bool :=
  match bitrate with
  | PNone => true
  | PBool b => negb b
  | PInt z => z =? 0
  | PFloat q => Qeq_bool q 0
  | PStr s => String.eqb s "N/A"
  | PIds _ => false
  end.

(** [_is_stream_dead(stream_data)] *)
Definition is_stream_dead (d : analyzed) : bool :=
  if dead_resolution (default EmptyString (resolution d)) then true
  else dead_bitrate (default (PInt 0) (bitrate_kbps d)).

(** The value of an [int] or [float] (and so of a [bool]), if it is one. *)
Definition number (v : pyval) : option Q :=
  match v with
  | PInt z => Some (inject_Z z)
  | PFloat q => Some q
  | PBool b => Some (if b then 1 else 0)%Q
  | _ => None
  end.

Definition positive_number (v : option pyval) : option Q :=
  match number (default (PInt 0) v) with
  | Some q => if Qlt_le_dec 0 q then Some q else None
  | None => None
  end.

Definition resolution_score (resolution : string) : Q :=
  if Str.contains "x" resolution then
    match dimensions resolution with
    | Some (_, height) =>
        if 1080 <=? height then 1
        else if 720 <=? height then 7 # 10
        else if 576 <=? height then 5 # 10
        else 3 # 10
    | None => 0
    end
  else 0.

Definition codec_score (prefer : bool) (codec : string) : Q :=
  if Str.is_empty codec then 0
  else if Str.contains "h265" codec || Str.contains "hevc" codec
  then if prefer then 1 else 8 # 10
  else if Str.contains "h264" codec || Str.contains "avc" codec
  then if prefer then 8 # 10 else 1
  else if negb (String.eqb codec "n/a") then 5 # 10
  else 0.

Definition dropped_penalty (d : analyzed) : Q :=
  match number (default (PInt 0) (frames_dropped d)),
        number (default (PInt 0) (frames_decoded d)) with
  | Some dropped, Some decoded =>
      if Qlt_le_dec 0 decoded then
        let drop_rate := (dropped / decoded)%Q in
        if Qlt_le_dec (1 # 100) drop_rate then Qmin (drop_rate * 5) (3 # 10) else 0
      else 0
  | _, _ => 0
  end.

Definition error_score (cfg : config) (d : analyzed) : Q :=
  let e1 := if bool_decide (status d = Some "OK"%string) then 1%Q else (1 - (5 # 10))%Q in
  let e2 := if err_decode d then (e1 - (2 # 10))%Q else e1 in
  let e3 := if err_discontinuity d then (e2 - (2 # 10))%Q else e2 in
  let e4 := if err_timeout d then (e3 - (3 # 10))%Q else e3 in
  let e5 :=
    if penalize_interlaced cfg
       && Str.contains "interlaced"
            (Str.lower (default "N/A"%string (interlaced_status d)))
    then (e4 - (1 # 10))%Q else e4 in
  let e6 := if penalize_dropped_frames cfg then (e5 - dropped_penalty d)%Q else e5 in
  Qmax e6 0%Q.

(** Nearest integer, ties to even. *)
Definition round_half_even (x : Q) : Z :=
  let f := Qfloor x in
  match ((x - inject_Z f) ?= (1 # 2))%Q with
  | Lt => f
  | Gt => f + 1
  | Eq => if Z.even f then f else f + 1
  end.

(** [round(x, 2)] *)
Definition round2 (x : Q) : Q := (inject_Z (round_half_even (x * 100)) / 100)%Q.

(** [_calculate_stream_score(stream_data)] *)
Definition calculate_stream_score (cfg : config) (d : analyzed) : Q :=
  if is_stream_dead d then 0%Q
  else
    let w := scoring_weights cfg in
    let s1 :=
      match positive_number (bitrate_kbps d) with
      | Some bitrate => (Qmin (bitrate / 8000) 1 * default (30 # 100) (w_bitrate w))%Q
      | None => 0%Q
      end in
    let s2 :=
      (s1 + resolution_score (default "N/A"%string (resolution d))
            * default (25 # 100) (w_resolution w))%Q in
    let s3 :=
      match positive_number (fps d) with
      | Some f => (s2 + Qmin (f / 60) 1 * default (15 # 100) (w_fps w))%Q
      | None => s2
      end in
    let s4 :=
      (s3 + codec_score (prefer_h265 cfg)
              (Str.lower (default EmptyString (video_codec d)))
            * default (10 # 100) (w_codec w))%Q in
    let s5 := (s4 + error_score cfg d * default (20 # 100) (w_errors w))%Q in
    round2 s5.

(** The liveness rule in the words of its description: the resolution is
    exactly ["0x0"], or a parsed dimension is zero, or the bitrate is zero
    or unknown (missing, [None] or ["N/A"]). *)
Definition classified_dead (d : analyzed) : Prop :=
  resolution d = Some "0x0"%string
  ∨ (∃ r width height,
        resolution d = Some r ∧ dimensions r = Some (width, height)
        ∧ (width = 0 ∨ height = 0))
  ∨ bitrate_kbps d = None
  ∨ bitrate_kbps d = Some PNone
  ∨ bitrate_kbps d = Some (PStr "N/A")
  ∨ (∃ q, number (default PNone (bitrate_kbps d)) = Some q ∧ (q == 0)%Q).

(** The default scoring configuration. *)
Definition default_scoring : config :=
  mkScoring (mkWeights None None None None None) true true true.

(** A stream probed as 1920x0 at 4800 kbps, otherwise in good shape. *)
Definition zero_height : analyzed :=
  mkAnalyzed (Some "1920x0"%string) (Some (PFloat 4800)) (Some (PInt 25))
    (Some "hevc"%string) (Some "OK"%string) false false false None None None.

End Score.

(** ** Event-time ordering of a channel's streams *)

Module EventOrder.

(** An element of [streams_data]. *)
Record stream := mkStream {
  id : Z;
  name : string;
  event_time : option Z;
  item_num : Z;
  original_index : nat
}.

(** [datetime.min] *)
Definition datetime_min : Z := 0.

(** Microseconds in [n] hours. *)
Definition hours (n : Z) : Z := n * 3600 * 1000000.

(** [list.sort] is stable, so it is insertion from the right: an element
    goes before the first one it does not exceed.  With [reverse=True]
    equal elements keep their order too, which is the same insertion for
    the converse comparison. *)
Fixpoint insert_by {A} (le : A → A → bool) (x : A) (l : list A) : list A :=
  match l with
  | [] => [x]
  | y :: rest => if le x y then x :: y :: rest else y :: insert_by le x rest
  end.

Definition sort_by {A} (le : A → A → bool) (l : list A) : list A :=
  fold_right (insert_by le) [] l.

(** Order of the key tuples [(time, number)]. *)
Definition pair_le (a b : Z * Z) : bool :=
  (fst a <? fst b) || ((fst a =? fst b) && (snd a <=? snd b)).

(** [x['event_time'] or datetime.min] *)
Definition time_or_min (s : stream) : Z := default datetime_min (event_time s).

(** [(x['event_time'], x['item_num'])] *)
Definition key (s : stream) : Z * Z := (time_or_min s, item_num s).

Definition key_le (a b : stream) : bool := pair_le (key a) (key b).
Definition key_ge (a b : stream) : bool := pair_le (key b) (key a).
Definition item_le (a b : stream) : bool := item_num a <=? item_num b.
Definition item_ge (a b : stream) : bool := item_num b <=? item_num a.

Definition has_time (s : stream) : bool :=
  match event_time s with Some _ => true | None => false end.

(** [(now - s['event_time']).total_seconds() / 3600 < buffer_hours] for a
    stream with an event time. *)
Definition is_upcoming (now : Z) (s : stream) : bool :=
  match event_time s with
  | Some t => now - t <? hours 2
  | None => false
  end.

(** The streams with an event time that is not upcoming. *)
Definition is_past_event (now : Z) (s : stream) : bool :=
  has_time s && negb (is_upcoming now s).

(** The list [ordered] of [apply_event_time_ordering_for_channels]. *)
Definition ordered (now : Z) (streams_data : list stream) : list stream :=
  if existsb has_time streams_data then
    let upcoming := filter (fun s => is_upcoming now s = true) streams_data in
    let past := filter (fun s => is_upcoming now s = false) streams_data in
    sort_by key_le upcoming ++ sort_by key_ge past
  else sort_by item_le streams_data.

(** [reorder_streams_by_event_time], after the stream details are fetched:
    the tie-break is the original index and the buffer is closed. *)
Definition index_le (a b : stream) : bool :=
  pair_le (time_or_min a, Z.of_nat (original_index a))
          (time_or_min b, Z.of_nat (original_index b)).

Definition is_live (now : Z) (s : stream) : bool :=
  match event_time s with
  | Some t => now - hours 2 <=? t
  | None => false
  end.

Definition reorder_streams_by_event_time (now : Z) (streams : list stream) : list Z :=
  let with_time := sort_by index_le (filter (fun s => has_time s = true) streams) in
  let without_time := filter (fun s => has_time s = false) streams in
  let live_upcoming := filter (fun s => is_live now s = true) with_time in
  let past := filter (fun s => is_live now s = false) with_time in
  map id (live_upcoming ++ past ++ without_time).

(** The channel API as this module sees it: each channel's stream
    sequence, and the update calls issued so far. *)
Record api := mkApi {
  channel_streams : gmap Z (list Z);
  update_calls : list (Z * list Z)
}.

(** Modelled from the spec: [update_channel_streams] of [api_utils], which
    is not part of these sources.  The call replaces the channel's stream
    id sequence by the given list when the server accepts it ([accepted]),
    and is recorded either way. *)
Definition update_channel_streams (channel_id : Z) (ids : list Z)
    (accepted : bool) (w : api) : api :=
  mkApi (if accepted then <[channel_id := ids]> (channel_streams w)
         else channel_streams w)
        (update_calls w ++ [(channel_id, ids)]).

(** How the reordering step of one channel ends. *)
Inductive verdict : Type :=
| Unchanged
| Refused
| Written (success : bool).

(** The block under [if reordered_ids != stream_ids]. *)
Definition write_reordered (channel_id : Z) (stream_ids reordered_ids : list Z)
    (accepted : bool) (w : api) : api * verdict :=
  if bool_decide (reordered_ids ≠ stream_ids) then
    if bool_decide (reordered_ids = []) then (w, Refused)
    else if bool_decide ((list_to_set reordered_ids : gset Z) ≠ list_to_set stream_ids)
    then (w, Refused)
    else (update_channel_streams channel_id reordered_ids accepted w, Written accepted)
  else (w, Unchanged).

(** An element of the fetched stream list: its ['id'] if it is a dict
    that has one, and its ['name']. *)
Record fetched := mkFetched {
  fid : option Z;
  fname : string
}.

Section Channel.

(** The name parser in force for the channel (the custom pattern or the
    multi-format parser with the number fallback): the event time and the
    item number of a name. *)
Variable parse_name : string → option Z * Z.

(** The overflow handling that follows the reordering of a channel. *)
Variable handle_overflow : Z → list stream → api → api.

Fixpoint streams_data_from (idx : nat) (streams : list fetched) : list stream :=
  match streams with
  | [] => []
  | s :: rest =>
      match fid s with
      | Some stream_id =>
          mkStream stream_id (fname s) (fst (parse_name (fname s)))
            (snd (parse_name (fname s))) idx
          :: streams_data_from (S idx) rest
      | None => streams_data_from (S idx) rest
      end
  end.


End Channel.

(** The order as the specification words it: upcoming streams upwards,
    past events downwards, then the streams without a time as they came. *)
Definition claimed_order (now : Z) (streams_data : list stream) : list stream :=
  sort_by key_le (filter (fun s => is_upcoming now s = true) streams_data)
  ++ sort_by key_ge (filter (fun s => is_past_event now s = true) streams_data)
  ++ filter (fun s => has_time s = false) streams_data.

(** Two streams without a time, a live one and a past one, seen at hour
    1000. *)
Definition sample_streams : list stream :=
  [ mkStream 1 "EVENT 1" None 1 0;
    mkStream 2 "EVENT 2" None 2 1;
    mkStream 3 "EVENT 3" (Some (hours 1000)) 3 2;
    mkStream 4 "EVENT 4" (Some (hours 900)) 4 3 ]%string.


End EventOrder.

(** ** Configuration loading and updating *)

Module Config.

(** JSON values; an object keeps its keys in file order. *)
#[local] Unset Elimination Schemes.
Inductive json : Type :=
| JNull
| JBool (b : bool)
| JNum (q : Q)
| JStr (s : string)
| JArr (items : list json)
| JObj (fields : list (string * json)).
#[local] Set Elimination Schemes.

Definition num (z : Z) : json := JNum (inject_Z z).

(** [StreamCheckConfig.DEFAULT_CONFIG] *)
Definition DEFAULT_CONFIG : list (string * json) :=
  [ ("enabled", JBool true);
    ("check_interval", num 300);
    ("pipeline_mode", JStr "pipeline_1_5");
    ("global_check_schedule",
      JObj [ ("enabled", JBool true);
             ("cron_expression", JStr "0 3 * * *");
             ("frequency", JStr "daily");
             ("hour", num 3);
             ("minute", num 0);
             ("day_of_month", num 1) ]);
    ("stream_analysis",
      JObj [ ("ffmpeg_duration", num 30);
             ("idet_frames", num 500);
             ("timeout", num 30);
             ("retries", num 1);
             ("retry_delay", num 10);
             ("user_agent", JStr "VLC/3.0.14") ]);
    ("scoring",
      JObj [ ("weights",
               JObj [ ("bitrate", JNum (30 # 100));
                      ("resolution", JNum (25 # 100));
                      ("fps", JNum (15 # 100));
                      ("codec", JNum (10 # 100));
                      ("errors", JNum (20 # 100)) ]);
             ("min_score", JNum 0);
             ("prefer_h265", JBool true);
             ("penalize_interlaced", JBool true);
             ("penalize_dropped_frames", JBool true) ]);
    ("queue",
      JObj [ ("max_size", num 1000);
             ("check_on_update", JBool true);
             ("max_channels_per_run", num 50) ])
  ]%string.

(** [_load_config()] when the file holds the JSON object [loaded];
    [None] is a missing or unreadable file, which gives the defaults. *)
Definition load_config (file : option (list (string * json))) : list (string * json) :=
  match file with
  | Some loaded => PyDict.update DEFAULT_CONFIG loaded
  | None => DEFAULT_CONFIG
  end.

(** What [deep_update] leaves under a key whose new value is [value] and
    whose old value, if any, is [old]. *)
Fixpoint merged (value : json) (old : option json) : json :=
  match value, old with
  | JObj updates, Some (JObj base) =>
      JObj ((fix deep_update (updates base : list (string * json)) :=
               match updates with
               | [] => base
               | (k, v) :: rest =>
                   deep_update rest (PyDict.set k (merged v (PyDict.get k base)) base)
               end) updates base)
  | _, _ => value
  end.

(** [deep_update(base, updates)] of [StreamCheckConfig.update] *)
Fixpoint deep_update (base updates : list (string * json)) : list (string * json) :=
  match updates with
  | [] => base
  | (k, v) :: rest => deep_update (PyDict.set k (merged v (PyDict.get k base)) base) rest
  end.

(** [update(updates)] on the configuration [config] *)
Definition update (config updates : list (string * json)) : list (string * json) :=
  deep_update config updates.

(** [get(key)] for a dotted key given as its parts. *)
Fixpoint get_path (keys : list string) (value : json) : option json :=
  match keys with
  | [] => Some value
  | k :: rest =>
      match value with
      | JObj fields =>
          match PyDict.get k fields with
          | Some v => get_path rest v
          | None => None
          end
      | _ => None
      end
  end.

(** A config file that sets only [scoring.min_score]. *)
Definition scoring_only : list (string * json) :=
  [("scoring", JObj [("min_score", JNum (5 # 10))])]%string.

(** A key of a dictionary filled from JSON values.  Python compares keys
    by [==], under which [True], [1] and [1.0] are one key: a number is
    kept in lowest terms and a boolean as 0 or 1. *)
Inductive pykey : Type :=
| KStr (s : string)
| KNum (q : Q)
| KNone.

#[export] Instance Q_eq_dec : EqDecision Q.
Proof. solve_decision. Defined.

#[export] Instance pykey_eq_dec : EqDecision pykey.
Proof. solve_decision. Defined.

(** The key that a JSON value is as a dictionary key; [None] for a list
    or a dict, which are not hashable. *)
Definition key_of (value : json) : option pykey :=
  match value with
  | JStr s => Some (KStr s)
  | JNum q => Some (KNum (Qred q))
  | JBool b => Some (KNum (if b then 1 else 0))
  | JNull => Some KNone
  | JArr _ | JObj _ => None
  end.

(** What iterating over a JSON value yields: the items of a list, the
    characters of a string, the keys of a dict; [None] for a value that
    is not iterable. *)
Definition elements (value : json) : option (list json) :=
  match value with
  | JArr items => Some items
  | JStr s => Some (map (fun c => JStr (String c EmptyString)) (list_ascii_of_string s))
  | JObj fields => Some (map (fun kv => JStr (fst kv)) fields)
  | JNull | JBool _ | JNum _ => None
  end.

(** An element of the sequence given to [dict.update]: it must yield
    exactly two values, the first of them hashable. *)
Definition pair_of (item : json) : option (pykey * json) :=
  match elements item with
  | Some [k; v] =>
      match key_of k with
      | Some k' => Some (k', v)
      | None => None
      end
  | _ => None
  end.

(** [config.update(seq)] for a sequence of pairs; [None] when it raises. *)
Fixpoint update_from_pairs (config : list (pykey * json)) (items : list json)
    : option (list (pykey * json)) :=
  match items with
  | [] => Some config
  | item :: rest =>
      match pair_of item with
      | Some (k, v) => update_from_pairs (PyDict.set k v config) rest
      | None => None
      end
  end.

(** A dictionary with string keys among the dictionaries with any key. *)
Definition keyed (d : list (string * json)) : list (pykey * json) :=
  map (fun kv => (KStr (fst kv), snd kv)) d.

(** What [_load_config] finds at the path of the config file. *)
Inductive config_file : Type :=
| NoFile
| NotJson
| Parsed (loaded : json).

(** [_load_config()] for every content of the file.  [None] is an
    exception that leaves the constructor: [config.update(loaded)] raises
    [TypeError] or [ValueError] for a value that is neither a dict nor a
    sequence of pairs, and only [JSONDecodeError] and [FileNotFoundError]
    are caught. *)
Definition load_config_file (file : config_file) : option (list (pykey * json)) :=
  match file with
  | NoFile | NotJson => Some (keyed DEFAULT_CONFIG)
  | Parsed (JObj loaded) => Some (PyDict.update (keyed DEFAULT_CONFIG) (keyed loaded))
  | Parsed loaded =>
      match elements loaded with
      | Some items => update_from_pairs (keyed DEFAULT_CONFIG) items
      | None => None
      end
  end.

(** The JSON list of [key, value] pairs with the content of a dict. *)
Definition as_pairs (fields : list (string * json)) : list json :=
  map (fun kv => JArr [JStr (fst kv); snd kv]) fields.

End Config.

(** ** ChannelUpdateTracker: the remaining methods *)

Module TrackerOps.
Import Tracker.

(** [mark_channel_checked(channel_id, timestamp, stream_count,
    checked_stream_ids)]: an existing entry is updated key by key, a
    missing one is created. *)
Definition mark_channel_checked (channel_id : Z) (timestamp : string)
    (stream_count : option Z) (checked_stream_ids : option (list Z))
    (u : updates) : updates :=
  let d := channels_or_empty u in
  let info' :=
    match PyDict.get channel_id d with
    | Some info =>
        let i1 :=
          <["last_check"%string := PStr timestamp]>
            (<["needs_check"%string := PBool false]> info) in
        let i2 :=
          match stream_count with
          | Some n => <["stream_count"%string := PInt n]> i1
          | None => i1
          end in
        match checked_stream_ids with
        | Some ids => <["checked_stream_ids"%string := PIds ids]> i2
        | None => i2
        end
    | None =>
        <["needs_check"%string := PBool false]>
          (<["last_check"%string := PStr timestamp]>
             (<["stream_count"%string :=
                  match stream_count with Some n => PInt n | None => PNone end]>
                (<["checked_stream_ids"%string :=
                     PIds (default [] checked_stream_ids)]> ∅)))
    end in
  mkUpdates (Some (PyDict.set channel_id info' d)) (last_global_check u).

(** [get_checked_stream_ids(channel_id)] *)
Definition get_checked_stream_ids (channel_id : Z) (u : updates) : pyval :=
  match PyDict.get channel_id (channels_or_empty u) with
  | Some info => checked_ids_of info
  | None => PIds []
  end.

(** [clear_force_check(channel_id)] *)
Definition clear_force_check (channel_id : Z) (u : updates) : updates :=
  match PyDict.get channel_id (channels_or_empty u) with
  | Some info =>
      mkUpdates
        (Some (PyDict.set channel_id (<["force_check"%string := PBool false]> info)
                 (channels_or_empty u)))
        (last_global_check u)
  | None => u
  end.

(** [mark_global_check(timestamp)] *)
Definition mark_global_check (timestamp : string) (u : updates) : updates :=
  mkUpdates (channels u) (Some timestamp).

(** [get_last_global_check()] *)
Definition get_last_global_check (u : updates) : option string := last_global_check u.

(** The mutating methods of the tracker, as events. *)
Inductive call : Type :=
| Updated (o : op)
| Checked (channel_id : Z) (timestamp : string) (stream_count : option Z)
    (checked_stream_ids : option (list Z))
| ForceCheck (channel_id : Z)
| ClearForceCheck (channel_id : Z)
| GlobalCheck (timestamp : string).

Definition apply (u : updates) (c : call) : updates :=
  match c with
  | Updated o => fst (step u o)
  | Checked channel_id ts sc ids => mark_channel_checked channel_id ts sc ids u
  | ForceCheck channel_id => mark_channel_for_force_check channel_id u
  | ClearForceCheck channel_id => clear_force_check channel_id u
  | GlobalCheck ts => mark_global_check ts u
  end.

End TrackerOps.

(** ** StreamCheckQueue: runs of calls *)

Module WorkQueueOps.
Import WorkQueue.

(** The methods of the queue, as events. *)
Inductive call : Type :=
| Add (channel_id priority : Z)
| AddMany (channel_ids : list Z) (priority : Z)
| Next
| Completed (channel_id : Z)
| Failed (channel_id : Z) (error timestamp : string)
| RemoveCompleted (channel_id : Z)
| Clear.

Definition apply (q : t) (c : call) : t :=
  match c with
  | Add channel_id priority => fst (add_channel channel_id priority q)
  | AddMany channel_ids priority => fst (add_channels channel_ids priority q)
  | Next => fst (get_next_channel q)
  | Completed channel_id => mark_completed channel_id q
  | Failed channel_id error timestamp => mark_failed channel_id error timestamp q
  | RemoveCompleted channel_id => fst (remove_from_completed channel_id q)
  | Clear => clear q
  end.

(** What the queued set, the queue and the counters have to do with one
    another. *)
Record consistent (q : t) : Prop := mkConsistent {
  ids_once : NoDup (map snd (queue q));
  queued_is_queue : queued q = list_to_set (map snd (queue q));
  queued_not_in_progress : queued q ## in_progress q;
  within_bound : 0 < max_size q → qsize q ≤ max_size q;
  size_recorded : queue_size (st q) = qsize q
}.

(** [n] calls of [get_next_channel], stopping at the first [None]: the
    final queue and the channels served, in order. *)
Fixpoint drain (n : nat) (q : t) : t * list Z :=
  match n with
  | O => (q, [])
  | S n' =>
      match get_next_channel q with
      | (q', Some channel_id) =>
          let '(q'', served) := drain n' q' in (q'', channel_id :: served)
      | (q', None) => (q', [])
      end
  end.

End WorkQueueOps.

(** ** Queueing from the scheduler *)

Module Scheduler.
Import Tracker WorkQueue.

(** Pipeline modes in which an update does not trigger a check. *)
Definition no_check_on_update : list string :=
  ["disabled"; "pipeline_2"; "pipeline_2_5"; "pipeline_3"; "pipeline_4"]%string.

(** [for channel_id in ids: self.check_queue.remove_from_completed(channel_id)] *)
Definition remove_all_from_completed (ids : list Z) (q : t) : t :=
  fold_left (fun q channel_id => fst (remove_from_completed channel_id q)) ids q.

(** [_queue_updated_channels()], with [pipeline_mode] and
    [queue.max_channels_per_run] as read from the configuration. *)
Definition queue_updated_channels (pipeline_mode : string) (max_channels : Z)
    (timestamp : string) (u : updates) (q : t) : updates * t :=
  if bool_decide (pipeline_mode ∈ no_check_on_update) then (u, q)
  else
    let '(u', channels_to_queue) :=
      get_and_clear_channels_needing_check (Some max_channels) timestamp u in
    match channels_to_queue with
    | [] => (u', q)
    | _ =>
        (u', fst (add_channels channels_to_queue 10
                    (remove_all_from_completed channels_to_queue q)))
    end.

(** [range(0, stop, step)] for [stop >= 0]; [None] is the [ValueError] of a
    zero step. *)
Definition range_from_zero (stop : nat) (step : Z) : option (list nat) :=
  if step =? 0 then None
  else if step <? 0 then Some []
  else
    let s := Z.to_nat step in
    Some (map (fun j => (j * s)%nat) (seq 0 ((stop + s - 1) / s))).

(** [_queue_all_channels(force_check)] once the channel list is fetched,
    with [queue.max_channels_per_run] as read from the configuration.  A
    zero step makes [range] raise inside the [try], which ends the method
    after the marking and the removals. *)
Definition queue_all_channels (channel_ids : list Z) (force_check : bool)
    (max_channels : Z) (u : updates) (q : t) : updates * t :=
  let u1 :=
    if force_check
    then fold_left (fun u channel_id => mark_channel_for_force_check channel_id u)
           channel_ids u
    else u in
  let q1 := remove_all_from_completed channel_ids q in
  match range_from_zero (length channel_ids) max_channels with
  | None => (u1, q1)
  | Some starts =>
      (u1,
       fold_left
         (fun q i =>
            fst (add_channels (take (Z.to_nat max_channels) (drop i channel_ids)) 5 q))
         starts q1)
  end.

End Scheduler.

(** ** Bitrate detection: lines that raise *)

Module BitrateOps.
Import Bitrate.

(** Whether the loop body raises on [line]: the [IndexError] of method 1,
    which no handler inside the loop catches. *)
Definition raises (duration : Z) (line : string) : bool :=
  match method1 duration line with
  | Raised => true
  | _ => false
  end.

(** ffmpeg output whose second line has nothing before ["bytes read"]. *)
Definition truncated_statistics : string :=
  ("[debug] 18000000 bytes read from input"
   +:+ newline +:+ "bytes read Statistics: 0 seeks"
   +:+ newline +:+ "frame=  750 fps= 25 q=-1.0 size=   15000kB time=00:00:30.00 bitrate=4000.0kbits/s speed=1.0x"
   +:+ newline)%string.

(** What holds of the loop variables throughout. *)
Definition signs (st : scan) : Prop :=
  (∀ v, bitrate st = Some v → (0 < v)%Q) ∧ (∀ v, progress_bitrate st = Some v → (0 <= v)%Q).

End BitrateOps.

(** ** Configuration: dotted lookups and the user-agent filter *)

Module ConfigOps.
Import Config.

(** [get(key, default)]: the dotted key is split at its dots; a missing
    key, a value that is not a dictionary on the way, and a final [None]
    all give [default]. *)
Definition get (key : string) (default : json) (config : list (string * json)) : json :=
  match get_path (Str.split_char "." key) (JObj config) with
  | Some JNull | None => default
  | Some value => value
  end.

(** The update that sets one dotted key: [{k: {k1: {... : value}}}]. *)
Fixpoint nested (k : string) (rest : list string) (value : json) : list (string * json) :=
  match rest with
  | [] => [(k, value)]
  | k' :: rest' => [(k, JObj (nested k' rest' value))]
  end.

(** The characters that the pattern of [update_config] leaves in a user
    agent: letters, digits, space, dot, slash, underscore, dash and the
    two parentheses. *)
Definition allowed (c : ascii) : bool :=
  let n := Str.code c in
  ((97 <=? n) && (n <=? 122) || (65 <=? n) && (n <=? 90) || (48 <=? n) && (n <=? 57)
   || (n =? 32) || (n =? 46) || (n =? 47) || (n =? 95) || (n =? 45)
   || (n =? 40) || (n =? 41))%nat.

(** [re.sub] of every run of other characters by the empty string. *)
Fixpoint keep_allowed (s : string) : string :=
  match s with
  | EmptyString => EmptyString
  | String c r => if allowed c then String c (keep_allowed r) else keep_allowed r
  end.

(** [s[:n]] *)
Fixpoint take (n : nat) (s : string) : string :=
  match n, s with
  | S n', String c r => String c (take n' r)
  | _, _ => EmptyString
  end.

Definition fallback_user_agent : string := "VLC/3.0.14".

(** The sanitising of [update_config], on the text of the user agent. *)
Definition sanitize_user_agent (user_agent : string) : string :=
  let sanitized := Str.strip (take 200 (keep_allowed user_agent)) in
  if Str.is_empty sanitized then fallback_user_agent else sanitized.

Fixpoint all_allowed (s : string) : bool :=
  match s with
  | EmptyString => true
  | String c r => allowed c && all_allowed r
  end.

Section Sanitizing.

(** [str(v)] for a JSON value [v] that is not a string. *)
Variable py_str : json → string.

Definition text (v : json) : string :=
  match v with
  | JStr s => s
  | _ => py_str v
  end.

Definition is_user_agent (v : json) : bool :=
  match v with
  | JStr s => String.eqb s "user_agent"
  | _ => false
  end.

(** The first block of [update_config]: what [updates] holds when it
    ends, or [None] when a membership test or a subscript raises
    [TypeError] because [updates['stream_analysis']] is not a dictionary. *)
Definition sanitize_updates (updates : list (string * json)) : option (list (string * json)) :=
  match PyDict.get "stream_analysis"%string updates with
  | None => Some updates
  | Some (JObj analysis) =>
      match PyDict.get "user_agent"%string analysis with
      | Some user_agent =>
          Some (PyDict.set "stream_analysis"%string
                  (JObj (PyDict.set "user_agent"%string
                           (JStr (sanitize_user_agent (text user_agent))) analysis))
                  updates)
      | None => Some updates
      end
  | Some (JStr s) => if Str.contains "user_agent" s then None else Some updates
  | Some (JArr items) => if existsb is_user_agent items then None else Some updates
  | Some _ => None
  end.

End Sanitizing.

(** An update that carries a user agent with a line break and a quote in
    it, next to a timeout. *)
Definition hostile_update : list (string * json) :=
  [("stream_analysis",
     JObj [ ("timeout", num 45);
            ("user_agent", JStr ("  Mozilla/5.0 (X11; Linux)" +:+ Bitrate.newline
                                 +:+ "X-Injected: 'yes'  ")) ])]%string.

(** A string that is empty or starts with something else than a space. *)
Definition no_lead (s : string) : Prop :=
  match s with
  | String c _ => Str.is_space c = false
  | EmptyString => True
  end.

End ConfigOps.

(** ** Overflow channels for events that collide *)

Module Overflow.
Import EventOrder.

(** An element of [all_streams_data]: the stream's data, and
    ['current_channel'] when the stream was read from an overflow
    channel. *)
Record placed := mkPlaced {
  data : stream;
  current_channel : option Z
}.

(** An element of [events_with_ranges]. *)
Record event := mkEvent {
  ev_item_num : Z;
  ev_streams : list placed;
  start_time : Z;
  end_time : Z
}.

Definition event_ids (e : event) : list Z := map (fun s => id (data s)) (ev_streams e).

(** [d[k].append(x)], with [d[k] = []] first when [k] is new. *)
Definition append_to {A} (k : Z) (x : A) (d : list (Z * list A)) : list (Z * list A) :=
  PyDict.set k (default [] (PyDict.get k d) ++ [x]) d.

(** [if k not in d: d[k] = []] *)
Definition ensure {A} (k : Z) (d : list (Z * list A)) : list (Z * list A) :=
  match PyDict.get k d with
  | Some _ => d
  | None => PyDict.set k [] d
  end.

(** The dictionary [events]: the streams of each item number, in the
    order in which the numbers first occur. *)
Definition group (streams_data : list placed) : list (Z * list placed) :=
  fold_left (fun events s => append_to (item_num (data s)) s events) streams_data [].

(** The range of one group: it starts at the event time of the group's
    first stream and lasts [return_after_hours]; a group whose first
    stream has no time gives none.  No group is empty. *)
Definition range_of (return_after_hours : Z) (g : Z * list placed) : option event :=
  match snd g with
  | first :: _ =>
      match event_time (data first) with
      | Some t => Some (mkEvent (fst g) (snd g) t (t + hours return_after_hours))
      | None => None
      end
  | [] => None
  end.

Definition range_le (a b : event) : bool :=
  pair_le (start_time a, ev_item_num a) (start_time b, ev_item_num b).

(** [events_with_ranges] after its sort. *)
Definition events_with_ranges (return_after_hours : Z) (streams_data : list placed)
    : list event :=
  sort_by range_le (omap (range_of return_after_hours) (group streams_data)).

Definition overlaps (a b : event) : bool :=
  (start_time a <? end_time b) && (start_time b <? end_time a).

(** The variables of the conflict loop. *)
Record plan := mkPlan {
  kept_events : list event;
  moves_by_channel : list (Z * list Z);
  streams_to_remove_by_channel : list (Z * list Z);
  move_idx : nat;
  conflicts_found : list (event * event)
}.

Section Plan.

Variable channel_id : Z.
Variable overflow_channel_ids : list Z.

(** [int(overflow_channel_ids[move_idx % len(overflow_channel_ids)])] *)
Definition overflow_target (idx : nat) : Z :=
  nth (idx mod length overflow_channel_ids) overflow_channel_ids 0.

(** The body of [for event in events_with_ranges[1:]]. *)
Definition place (p : plan) (e : event) : plan :=
  match find (fun kept => overlaps e kept) (kept_events p) with
  | Some kept =>
      let overflow_id := overflow_target (move_idx p) in
      mkPlan (kept_events p)
        (fold_left (fun moves s => append_to overflow_id (id (data s)) moves)
           (ev_streams e) (ensure overflow_id (moves_by_channel p)))
        (fold_left (fun removes s =>
                      append_to (default channel_id (current_channel s)) (id (data s)) removes)
           (ev_streams e) (streams_to_remove_by_channel p))
        (S (move_idx p))
        (conflicts_found p ++ [(e, kept)])
  | None =>
      mkPlan (kept_events p ++ [e]) (moves_by_channel p) (streams_to_remove_by_channel p)
        (move_idx p) (conflicts_found p)
  end.

(** The conflict search of [handle_overflow_conflicts] over the sorted
    events. *)
Definition conflict_plan (events : list event) : plan :=
  match events with
  | [] => mkPlan [] [] [] 0 []
  | first :: rest => fold_left place rest (mkPlan [first] [] [] 0 [])
  end.

(** What [handle_overflow_conflicts] plans to move: nothing is planned
    when no overflow channel is configured. *)
Definition plan_overflow (return_after_hours : Z) (streams_data : list placed)
    : option plan :=
  match overflow_channel_ids with
  | [] => None
  | _ => Some (conflict_plan (events_with_ranges return_after_hours streams_data))
  end.

End Plan.

(** What the conflict loop keeps true of its variables once it has seen
    [seen], for events that last [d] hours. *)
Record sound (d : Z) (p : plan) (seen : list event) : Prop := {
  sound_all : kept_events p ++ map fst (conflicts_found p) ≡ₚ seen;
  sound_apart : ∀ i j a b, i ≠ j →
    kept_events p !! i = Some a → kept_events p !! j = Some b →
    hours d ≤ Z.abs (start_time a - start_time b);
  sound_conflicts : ∀ e k, (e, k) ∈ conflicts_found p →
    k ∈ kept_events p ∧ Z.abs (start_time e - start_time k) < hours d
}.

(** The stream ids that the conflicts, numbered from zero, send to
    channel [c]. *)
Definition sent_to (overflow_channel_ids : list Z) (c : Z) (conflicts : list (event * event)) : list Z :=
  concat (imap (fun i ek =>
                  if decide (overflow_target overflow_channel_ids i = c)
                  then event_ids (fst ek) else [])
            conflicts).

(** The stream ids of the conflicts that are in channel [c] now. *)
Definition removed_from (channel_id : Z) (c : Z) (conflicts : list (event * event)) : list Z :=
  concat (map (fun ek => map (fun s => id (data s))
                           (filter (fun s => default channel_id (current_channel s) = c)
                              (ev_streams (fst ek))))
            conflicts).

(** What the conflict loop keeps true of its two dictionaries. *)
Record routed (channel_id : Z) (overflow_channel_ids : list Z) (p : plan) : Prop := {
  routed_idx : move_idx p = length (conflicts_found p);
  routed_moves : ∀ c, default [] (PyDict.get c (moves_by_channel p))
                      = sent_to overflow_channel_ids c (conflicts_found p);
  routed_removes : ∀ c, default [] (PyDict.get c (streams_to_remove_by_channel p))
                        = removed_from channel_id c (conflicts_found p)
}.

(** Three events on channel 7, each with a primary and a backup stream:
    the second starts an hour after the first, the third seven hours
    after it. *)
Definition three_events : list placed :=
  [ mkPlaced (mkStream 11 "EVENT 1" (Some (hours 1000)) 1 0) None;
    mkPlaced (mkStream 21 "EVENT 2" (Some (hours 1001)) 2 1) None;
    mkPlaced (mkStream 12 "EVENT 1 backup" (Some (hours 1000)) 1 2) None;
    mkPlaced (mkStream 31 "EVENT 3" (Some (hours 1007)) 3 3) None;
    mkPlaced (mkStream 22 "EVENT 2 backup" (Some (hours 1001)) 2 4) None ]%string.

End Overflow.

(** ** Moving streams to an overflow channel and back *)

Module Moves.
Import EventOrder Overflow.

(** An entry of ['moved_streams'] in the tracking file; the two instants
    are kept as instants, not as their ISO text. *)
Record moved := mkMoved {
  stream_ids : list Z;
  from_channel : Z;
  to_channel : Z;
  moved_at : Z;
  return_at : Z
}.

(** [[x for x in new_ids if not (x in seen or seen.add(x))]] *)
Fixpoint keep_first (seen : gset Z) (new_ids : list Z) : list Z :=
  match new_ids with
  | [] => []
  | x :: rest =>
      if decide (x ∈ seen) then keep_first seen rest
      else x :: keep_first ({[x]} ∪ seen) rest
  end.

(** The list that [move_streams_to_channel] sends to the server. *)
Definition merged_ids (current_ids stream_ids : list Z) : list Z :=
  let new_ids := current_ids ++ stream_ids in
  if bool_decide (length new_ids ≠ size (list_to_set new_ids : gset Z))
  then keep_first ∅ new_ids else new_ids.

Section Server.

(** Whether the server accepts the update of a channel to a list of
    stream ids. *)
Variable accepts : Z → list Z → bool.

(** The ids of the streams the server lists for a channel; [None] when
    the request fails. *)
Definition fetch_stream_ids (channel_id : Z) (w : api) : option (list Z) :=
  channel_streams w !! channel_id.

(** [move_streams_to_channel(stream_ids, target_channel_id)] *)
Definition move_streams_to_channel (stream_ids : list Z) (target_channel_id : Z) (w : api)
    : api * bool :=
  let current_ids := default [] (fetch_stream_ids target_channel_id w) in
  let new_ids := current_ids ++ stream_ids in
  let new_ids :=
    if bool_decide (length new_ids ≠ size (list_to_set new_ids : gset Z))
    then keep_first ∅ new_ids else new_ids in
  let success := accepts target_channel_id new_ids in
  (update_channel_streams target_channel_id new_ids success w, success).

(** [remove_streams_from_channel(stream_ids, channel_id)] *)
Definition remove_streams_from_channel (stream_ids : list Z) (channel_id : Z) (w : api)
    : api * bool :=
  match fetch_stream_ids channel_id w with
  | None | Some [] => (w, true)
  | Some current_ids =>
      let new_ids := filter (fun sid => sid ∉ stream_ids) current_ids in
      let success := accepts channel_id new_ids in
      (update_channel_streams channel_id new_ids success w, success)
  end.

(** The loop over [streams_to_remove_by_channel] for one overflow
    channel. *)
Definition remove_moved (stream_ids : list Z) (removes : list (Z * list Z)) (w : api) : api :=
  fold_left
    (fun w r =>
       match filter (fun sid => sid ∈ stream_ids) (snd r) with
       | [] => w
       | streams_for_this_overflow =>
           fst (remove_streams_from_channel streams_for_this_overflow (fst r) w)
       end)
    removes w.

(** The loop over [moves_by_channel] at the end of
    [handle_overflow_conflicts], run at [now] on the tracking list and the
    server. *)
Definition move_overflow (channel_id now return_after_hours : Z) (p : plan)
    (st : list moved * api) : list moved * api :=
  fold_left
    (fun st m =>
       let '(w, success) := move_streams_to_channel (snd m) (fst m) (snd st) in
       if success then
         (fst st ++ [mkMoved (snd m) channel_id (fst m) now (now + hours return_after_hours)],
          remove_moved (snd m) (streams_to_remove_by_channel p) w)
       else (fst st, w))
    (moves_by_channel p) st.

(** [handle_overflow_conflicts(streams_data, channel_id,
    overflow_channel_ids, return_after_hours)] run at [now]. *)
Definition handle_overflow_conflicts (streams_data : list placed) (channel_id : Z)
    (overflow_channel_ids : list Z) (return_after_hours now : Z)
    (st : list moved * api) : list moved * api :=
  match plan_overflow channel_id overflow_channel_ids return_after_hours streams_data with
  | None => st
  | Some p =>
      match moves_by_channel p with
      | [] => st
      | _ => move_overflow channel_id now return_after_hours p st
      end
  end.

(** [return_moved_streams()] run at [now]. *)
Definition return_moved_streams (now : Z) (st : list moved * api) : list moved * api :=
  fold_left
    (fun st entry =>
       if return_at entry <=? now then
         let '(w, success) :=
           move_streams_to_channel (stream_ids entry) (from_channel entry) (snd st) in
         if success
         then (fst st, fst (remove_streams_from_channel (stream_ids entry) (to_channel entry) w))
         else (fst st ++ [entry], w)
       else (fst st ++ [entry], snd st))
    (fst st) ([], snd st).

End Server.

(** Channel 7 with the five streams of [three_events], and the overflow
    channel 50 with one stream of its own. *)
Definition two_channels_api : api :=
  mkApi (<[7 := [11; 21; 12; 31; 22]]> (<[50 := [90]]> ∅)) [].

End Moves.

(** ** Stream analysis with retries *)

Module Analysis.
Import Bitrate.

(** A stream entry of ffprobe's JSON output, by the keys that are read;
    [None] is a missing key.  The dimensions are integers and the other
    two values strings, as ffprobe prints them. *)
Record probed := mkProbed {
  codec_name : option string;
  width : option Z;
  height : option Z;
  avg_frame_rate : option string
}.

Definition has {A} (o : option A) : bool :=
  match o with Some _ => true | None => false end.

(** [get_stream_info(url, ...)] given the parsed [streams] of ffprobe's
    output; [None] stands for an empty output, a timeout, output that is
    not JSON, or another exception. *)
Definition get_stream_info (ffprobe : option (list probed)) : option probed * option probed :=
  match ffprobe with
  | Some streams =>
      (find (fun s => has (width s)) streams,
       find (fun s => has (codec_name s) && negb (has (width s))) streams)
  | None => (None, None)
  end.

(** The result dictionary of [analyze_stream]. *)
Record result := mkResult {
  stream_id : Z;
  stream_name : string;
  stream_url : string;
  timestamp : string;
  video_codec : string;
  audio_codec : string;
  resolution : string;
  fps : Q;
  bitrate_kbps : option Q;
  status : Bitrate.status
}.

(** The frame rate read from [avg_frame_rate]: [round(num / den, 2)], and
    0 for a zero denominator, for a text that does not split at ['/'] into
    two parts or for a part that [int] rejects. *)
Definition parse_fps (fps_str : string) : Q :=
  match Str.split_char "/" fps_str with
  | [a; b] =>
      match Str.py_int a, Str.py_int b with
      | Some num, Some den =>
          if den =? 0 then 0%Q else Score.round2 (inject_Z num / inject_Z den)
      | _, _ => 0%Q
      end
  | _ => 0%Q
  end.

(** What one attempt observes: the clock, ffprobe and ffmpeg. *)
Record observed := mkObserved {
  clock : string;
  ffprobe : option (list probed);
  ffmpeg : run_result
}.

Section Analyze.

Variable the_stream_url : string.
Variable the_stream_id : Z.
Variable the_stream_name : string.
Variable ffmpeg_duration : Z.

(** The body of the retry loop, from the initial dictionary to the
    status. *)
Definition attempt_result (o : observed) : result :=
  let '(video_info, audio_info) := get_stream_info (ffprobe o) in
  let '(bitrate, bitrate_status) := get_stream_bitrate (ffmpeg o) ffmpeg_duration in
  mkResult the_stream_id the_stream_name the_stream_url (clock o)
    (match video_info with
     | Some v => default "N/A"%string (codec_name v)
     | None => "N/A"%string
     end)
    (match audio_info with
     | Some a => default "N/A"%string (codec_name a)
     | None => "N/A"%string
     end)
    (match video_info with
     | Some v => (pretty (default 0 (width v)) +:+ "x" +:+ pretty (default 0 (height v)))%string
     | None => "0x0"%string
     end)
    (match video_info with
     | Some v => parse_fps (default "0/1"%string (avg_frame_rate v))
     | None => 0%Q
     end)
    bitrate bitrate_status.

(** The loop from attempt number [attempt] on, with [more] attempts
    allowed after it: the result, and the number of attempts made. *)
Fixpoint attempts (env : nat → observed) (attempt more : nat) : result * nat :=
  let r := attempt_result (env attempt) in
  match status r, more with
  | OK, _ => (r, S attempt)
  | _, O => (r, S attempt)
  | _, S more' => attempts env (S attempt) more'
  end.

(** [analyze_stream(..., retries=retries)], where [env] tells what the
    attempts observe.  [None] is the [UnboundLocalError] of
    [return result] when the loop has no iteration.  The frame rate and
    the bitrate are exact rationals. *)
Definition analyze_stream (retries : Z) (env : nat → observed) : option (result * nat) :=
  if retries + 1 <=? 0 then None
  else Some (attempts env 0 (Z.to_nat retries)).

End Analyze.

(** ffprobe's answer for a 1080p stream with an AAC track. *)
Definition hd_stream : list probed :=
  [ mkProbed (Some "h264") (Some 1920) (Some 1080) (Some "30000/1001");
    mkProbed (Some "aac") None None (Some "0/0") ]%string.

(** A first attempt in which ffmpeg times out, then one in which it runs
    to the end. *)
Definition timeout_then_ok (attempt : nat) : observed :=
  match attempt with
  | O => mkObserved "2025-11-21T14:55:00" (Some hd_stream) TimedOut
  | _ => mkObserved "2025-11-21T14:56:10" (Some hd_stream) (Completed progress_and_statistics)
  end.

End Analysis.

(** ** Stream statistics: what is stored and what is read back *)

Module Stats.
Import Score.

(** The [stream_stats] of a stream on the server, by the keys this
    service writes and reads; [None] is a missing key.  The resolution and
    the codecs are strings when present. *)
Record stream_stats := mkStats {
  s_resolution : option string;
  s_source_fps : option pyval;
  s_video_codec : option string;
  s_audio_codec : option string;
  s_ffmpeg_output_bitrate : option pyval
}.

(** [int(q)] for a float: towards zero. *)
Definition truncate (q : Q) : Z :=
  if Qle_bool 0 q then Qfloor q else Qceiling q.

(** [int(v)]; [None] when it raises. *)
Definition py_int_of (v : pyval) : option Z :=
  match v with
  | PInt z => Some z
  | PFloat q => Some (truncate q)
  | PBool b => Some (if b then 1 else 0)
  | PStr s => Str.py_int s
  | PNone | PIds _ => None
  end.

(** [v not in [None, "N/A"]] *)
Definition kept (v : pyval) : bool :=
  match v with
  | PNone => false
  | PStr s => negb (String.eqb s "N/A")
  | _ => true
  end.

Definition kept_text (s : option string) : option string :=
  match s with
  | Some t => if String.eqb t "N/A" then None else Some t
  | None => None
  end.

(** The ["ffmpeg_output_bitrate"] of the payload: [int(bitrate)] when the
    bitrate is neither ["N/A"] nor [None] and is truthy, else nothing.
    The outer [None] is the exception of [int]. *)
Definition bitrate_entry (bitrate : option pyval) : option (option pyval) :=
  match bitrate with
  | Some v =>
      if kept v && truthy v then
        match py_int_of v with
        | Some z => Some (Some (PInt z))
        | None => None
        end
      else Some None
  | None => Some None
  end.

(** [stream_stats_payload] of [_update_stream_stats] after its clean-up,
    for the analysed data [d] and its audio codec. *)
Definition stream_stats_payload (d : analyzed) (audio_codec : option string)
    : option stream_stats :=
  match bitrate_entry (bitrate_kbps d) with
  | Some bitrate =>
      Some (mkStats (kept_text (resolution d))
              (match fps d with
               | Some v => if kept v then Some v else None
               | None => None
               end)
              (kept_text (video_codec d))
              (kept_text audio_codec)
              bitrate)
  | None => None
  end.

Definition is_empty (p : stream_stats) : bool :=
  match s_resolution p, s_source_fps p, s_video_codec p, s_audio_codec p,
        s_ffmpeg_output_bitrate p with
  | None, None, None, None, None => true
  | _, _, _, _, _ => false
  end.

Definition or_else {A} (new old : option A) : option A :=
  match new with Some _ => new | None => old end.

(** [{**existing_stats, **stream_stats_payload}] *)
Definition merge (existing payload : stream_stats) : stream_stats :=
  mkStats (or_else (s_resolution payload) (s_resolution existing))
    (or_else (s_source_fps payload) (s_source_fps existing))
    (or_else (s_video_codec payload) (s_video_codec existing))
    (or_else (s_audio_codec payload) (s_audio_codec existing))
    (or_else (s_ffmpeg_output_bitrate payload) (s_ffmpeg_output_bitrate existing)).

(** What [_update_stream_stats] sends for a stream that has an id and
    whose stored statistics were fetched as [existing]: the merged
    statistics, nothing when the payload is empty, and [None] when building
    the payload raises. *)
Definition updated_stats (d : analyzed) (audio_codec : option string)
    (existing : stream_stats) : option (option stream_stats) :=
  match stream_stats_payload d audio_codec with
  | Some payload =>
      if is_empty payload then Some None else Some (Some (merge existing payload))
  | None => None
  end.

(** The dictionary that [_check_channel] rebuilds from the stored
    statistics of a stream it does not analyse again. *)
Definition cached_analyzed (stats : stream_stats) : analyzed :=
  mkAnalyzed (Some (default "0x0"%string (s_resolution stats)))
    (Some (default (PInt 0) (s_ffmpeg_output_bitrate stats)))
    (Some (default (PInt 0) (s_source_fps stats)))
    (Some (default "N/A"%string (s_video_codec stats)))
    (Some "OK"%string) false false false None None None.

(** A stream probed as 1280x720 whose ffmpeg run gave 0.4 kbps. *)
Definition trickle : analyzed :=
  mkAnalyzed (Some "1280x720"%string) (Some (PFloat (4 # 10))) (Some (PInt 25))
    (Some "h264"%string) (Some "OK"%string) false false false None None None.

End Stats.

(** ** Ordering every channel by event time *)

Module Reorder.
Import EventOrder.

Section Fetch.

(** [parse_event_time]: the start time found in a stream name. *)
Variable parse_event_time : string → option Z.

(** The name in the data fetched for a stream id, [''] when the data have
    none; [None] when the fetch gives nothing. *)
Variable fetch_stream_name : Z → option string.

(** The event time that [reorder_streams_by_event_time] finds for a
    stream id. *)
Definition time_of (stream_id : Z) : option Z :=
  parse_event_time (default EmptyString (fetch_stream_name stream_id)).

(** The list [streams_with_times], from index [idx] on.  The entries have
    no item number; the field is not read here. *)
Fixpoint streams_with_times (idx : nat) (stream_ids : list Z) : list stream :=
  match stream_ids with
  | [] => []
  | stream_id :: rest =>
      let stream_name := default EmptyString (fetch_stream_name stream_id) in
      mkStream stream_id stream_name (parse_event_time stream_name) 0 idx
      :: streams_with_times (S idx) rest
  end.

(** [reorder_streams_by_event_time(channel_id, stream_ids)] run at [now]. *)
Definition reorder_stream_ids (now : Z) (stream_ids : list Z) : list Z :=
  match stream_ids with
  | [] => stream_ids
  | _ => reorder_streams_by_event_time now (streams_with_times 0 stream_ids)
  end.

(** One iteration of the loop of [apply_event_time_ordering], for a
    channel whose stream list was fetched as [streams]. *)
Definition order_channel_by_time (now : Z) (channel_id : Z) (streams : list fetched)
    (accepted : bool) (w : api) : api :=
  let stream_ids := omap fid streams in
  if (length stream_ids <? 2)%nat then w
  else if existsb (fun s => match parse_event_time (fname s) with
                            | Some _ => true
                            | None => false
                            end) streams
  then
    let reordered_ids := reorder_stream_ids now stream_ids in
    if bool_decide (reordered_ids ≠ stream_ids)
    then update_channel_streams channel_id reordered_ids accepted w
    else w
  else w.

End Fetch.

(** The start time of the names ["live"] and ["past"] as seen at hour
    1000, and the names of five streams. *)
Definition sample_time (stream_name : string) : option Z :=
  if String.eqb stream_name "live" then Some (hours 999)
  else if String.eqb stream_name "past" then Some (hours 900)
  else None.

Definition sample_name (stream_id : Z) : option string :=
  if stream_id =? 1 then Some "plain"%string
  else if stream_id =? 2 then Some "past"%string
  else if stream_id =? 3 then None
  else if stream_id =? 4 then Some "live"%string
  else Some "other"%string.

End Reorder.

(** * Properties *)

(** ** Facts about ordered dictionaries *)

Module PyDictFacts.
Section DictFacts.
Context {K V : Type} `{EqDecision K}.
Implicit Types (d : list (K * V)) (k : K) (v : V).

Lemma get_set_eq k v d : PyDict.get k (PyDict.set k v d) = Some v.
Proof.
  induction d as [|[k' v'] d IH]; simpl.
  - by rewrite decide_True.
  - destruct (decide (k = k')) as [->|Hne]; simpl.
    + by rewrite decide_True.
    + by rewrite decide_False.
Qed.

Lemma get_set_ne k k' v d : k ≠ k' → PyDict.get k' (PyDict.set k v d) = PyDict.get k' d.
Proof.
  intros Hne. induction d as [|[k0 v0] d IH]; simpl.
  - by rewrite decide_False.
  - destruct (decide (k = k0)) as [->|Hne0]; simpl.
    + by rewrite !decide_False.
    + by rewrite IH.
Qed.

Lemma get_None_keys k d : PyDict.get k d = None ↔ k ∉ PyDict.keys d.
Proof.
  unfold PyDict.keys. induction d as [|[k0 v0] d IH]; simpl.
  - split; [intros _; apply not_elem_of_nil | done].
  - rewrite not_elem_of_cons. destruct (decide (k = k0)) as [->|Hne].
    + split; [done | by intros [? _]].
    + rewrite IH. split; [by intros ? | by intros [_ ?]].
Qed.

Lemma keys_set k v d :
  PyDict.keys (PyDict.set k v d)
  = if bool_decide (k ∈ PyDict.keys d) then PyDict.keys d else PyDict.keys d ++ [k].
Proof.
  unfold PyDict.keys. induction d as [|[k0 v0] d IH].
  - case_bool_decide as Hin; [by apply elem_of_nil in Hin | done].
  - cbn [PyDict.set]. destruct (decide (k = k0)) as [->|Hne].
    + clear IH. case_bool_decide as Hin; [reflexivity|]. exfalso. apply Hin. apply list_elem_of_here.
    + cbn [map fst]. rewrite IH. clear IH.
      case_bool_decide as H1; case_bool_decide as H2; try reflexivity.
      * exfalso. apply H2. by apply list_elem_of_further.
      * apply elem_of_cons in H2 as [?|?]; done.
Qed.

Lemma NoDup_keys_set k v d : NoDup (PyDict.keys d) → NoDup (PyDict.keys (PyDict.set k v d)).
Proof.
  intros Hnd. rewrite keys_set. case_bool_decide as Hin; [done|].
  apply NoDup_app. split_and!; [done| |apply NoDup_singleton].
  intros x Hx Hx'. apply list_elem_of_singleton in Hx'. by subst.
Qed.
End DictFacts.
End PyDictFacts.

Module TrackerFacts.
Import Tracker PyDictFacts.

Lemma needs_check_claim_entry ts (info : gmap string pyval) :
  needs_check (claim_entry ts info) = false.
Proof.
  unfold needs_check, claim_entry.
  rewrite lookup_insert_ne by done. by rewrite lookup_insert_eq.
Qed.

Lemma needs_check_fresh_entry ts sc ck : needs_check (fresh_entry ts sc ck) = true.
Proof.
  unfold needs_check, fresh_entry.
  rewrite lookup_insert_ne by done. by rewrite lookup_insert_eq.
Qed.



Lemma claim_loop_out m ts items acc :
  snd (claim_loop m ts items acc)
  = acc ++ take (quota m (length acc) (length (flagged_ids items))) (flagged_ids items).
Proof.
  revert acc. induction items as [|[c info] rest IH]; intros acc; simpl.
  - unfold flagged_ids. simpl. by rewrite take_nil, app_nil_r.
  - unfold flagged_ids. rewrite filter_cons. simpl.
    destruct (needs_check info) eqn:Hn.
    + rewrite decide_True by done. simpl.
      fold (flagged_ids rest).
      destruct (limit_reached m (length (acc ++ [c]))) eqn:Hl.
      * simpl. f_equal. unfold limit_reached in Hl. destruct m as [m|]; [|done].
        rewrite length_app in Hl. simpl in Hl.
        apply andb_true_iff in Hl as [H0 Hle].
        apply negb_true_iff in H0. unfold quota. rewrite H0.
        apply Z.leb_le in Hle.
        replace (Z.to_nat (Z.max 1 (m - Z.of_nat (length acc)))) with 1%nat by lia.
        simpl. by rewrite take_0.
      * specialize (IH (acc ++ [c])).
        destruct (claim_loop m ts rest (acc ++ [c])) as [rest' out]. simpl in *.
        rewrite IH. rewrite <- app_assoc. f_equal. simpl.
        unfold limit_reached in Hl. unfold quota. destruct m as [m|].
        -- rewrite length_app in *. simpl in *.
           destruct (m =? 0) eqn:H0; [done|]. simpl in Hl.
           apply Z.leb_gt in Hl.
           replace (Z.to_nat (Z.max 1 (m - Z.of_nat (length acc))))
             with (S (Z.to_nat (Z.max 1 (m - Z.of_nat (length acc + 1))))) by lia.
           done.
        -- done.
    + rewrite decide_False by done.
      fold (flagged_ids rest). specialize (IH acc).
      destruct (claim_loop m ts rest acc) as [rest' out]. simpl in *. done.
Qed.



Lemma flagged_ids_keys d c : c ∈ flagged_ids d → c ∈ PyDict.keys d.
Proof.
  unfold flagged_ids, PyDict.keys. rewrite !list_elem_of_fmap.
  intros [kv [-> Hin]]. apply list_elem_of_filter in Hin as [_ Hin]. eauto.
Qed.

Lemma flagged_ids_get d c :
  NoDup (PyDict.keys d) →
  c ∈ flagged_ids d ↔ ∃ info, PyDict.get c d = Some info ∧ needs_check info = true.
Proof.
  unfold flagged_ids, PyDict.keys.
  induction d as [|[c0 info0] d IH]; simpl; intros Hnd.
  - split; [intros Hin; by apply elem_of_nil in Hin | by intros (? & ? & ?)].
  - apply NoDup_cons in Hnd as [Hnotin Hnd]. rewrite filter_cons. simpl.
    destruct (decide (c = c0)) as [->|Hne].
    + split.
      * intros Hin. exists info0. split; [done|].
        destruct (needs_check info0) eqn:Hn; [done|].
        rewrite decide_False in Hin by done.
        exfalso. apply Hnotin. by apply (flagged_ids_keys d c0).
      * intros (info & [= <-] & Hn). rewrite decide_True by done.
        simpl. apply list_elem_of_here.
    + rewrite <- IH by done. case_decide; simpl; [|done].
      rewrite elem_of_cons. split; [by intros [?|?] | by right].
Qed.

Lemma NoDup_flagged_ids d : NoDup (PyDict.keys d) → NoDup (flagged_ids d).
Proof.
  unfold flagged_ids, PyDict.keys. induction d as [|[c0 info0] d IH]; simpl; intros Hnd.
  - constructor.
  - apply NoDup_cons in Hnd as [Hnotin Hnd]. rewrite filter_cons.
    case_decide; simpl; [|by apply IH].
    apply NoDup_cons. split; [|by apply IH].
    intros Hin. apply Hnotin. by apply (flagged_ids_keys d c0).
Qed.

Lemma claim_loop_state m ts items acc :
  NoDup (PyDict.keys items) →
  ∃ picked,
    snd (claim_loop m ts items acc) = acc ++ picked
    ∧ (∀ c, c ∈ picked → c ∈ PyDict.keys items)
    ∧ PyDict.keys (fst (claim_loop m ts items acc)) = PyDict.keys items
    ∧ ∀ c, PyDict.get c (fst (claim_loop m ts items acc))
           = if bool_decide (c ∈ picked)
             then claim_entry ts <$> PyDict.get c items
             else PyDict.get c items.
Proof.
  unfold PyDict.keys.
  revert acc. induction items as [|[c0 info] rest IH]; intros acc Hnd; simpl.
  - exists []. rewrite app_nil_r. split_and!; try done.
  - apply NoDup_cons in Hnd as [Hnotin Hnd].
    destruct (needs_check info) eqn:Hn.
    + destruct (limit_reached m (length (acc ++ [c0]))).
      * exists [c0]. simpl. split_and!; try done.
        -- intros c ->%list_elem_of_singleton. apply list_elem_of_here.
        -- intros c. destruct (decide (c = c0)) as [->|Hne].
           ++ by rewrite bool_decide_eq_true_2 by apply list_elem_of_here.
           ++ rewrite bool_decide_eq_false_2; [done|].
              by intros ?%list_elem_of_singleton.
      * destruct (IH (acc ++ [c0]) Hnd) as (picked & Hout & Hsub & Hkeys & Hget).
        destruct (claim_loop m ts rest (acc ++ [c0])) as [rest' out]. simpl in *.
        exists (c0 :: picked). split_and!.
        -- by rewrite Hout, <- app_assoc.
        -- intros c [->|Hc]%elem_of_cons; [apply list_elem_of_here|].
           apply list_elem_of_further. by apply Hsub.
        -- by rewrite Hkeys.
        -- intros c. destruct (decide (c = c0)) as [->|Hne].
           ++ by rewrite bool_decide_eq_true_2 by apply list_elem_of_here.
           ++ rewrite Hget. rewrite (bool_decide_ext (c ∈ c0 :: picked) (c ∈ picked)); [done|].
              rewrite elem_of_cons. split; [by intros [?|?] | by right].
    + destruct (IH acc Hnd) as (picked & Hout & Hsub & Hkeys & Hget).
      destruct (claim_loop m ts rest acc) as [rest' out]. simpl in *.
      exists picked. split_and!; try done.
      * intros c Hc. apply list_elem_of_further. by apply Hsub.
      * by rewrite Hkeys.
      * intros c. destruct (decide (c = c0)) as [->|Hne]; [|apply Hget].
        rewrite bool_decide_eq_false_2; [done|].
        intros Hc. apply Hnotin. by apply Hsub.
Qed.


Lemma get_mark_in d c ts sc c' :
  PyDict.get c' (mark_in d c ts sc)
  = if decide (c = c')
    then Some (fresh_entry ts sc
                 (match PyDict.get c d with Some i => checked_ids_of i | None => PIds [] end))
    else PyDict.get c' d.
Proof.
  unfold mark_in. destruct (PyDict.get c d) as [i|]; case_decide as Hc.
  - subst. apply get_set_eq.
  - by apply get_set_ne.
  - subst. apply get_set_eq.
  - by apply get_set_ne.
Qed.

Lemma NoDup_mark_in d c ts sc : NoDup (PyDict.keys d) → NoDup (PyDict.keys (mark_in d c ts sc)).
Proof. intros Hnd. unfold mark_in. destruct (PyDict.get c d); by apply NoDup_keys_set. Qed.


Lemma dict_flag_mark_in d c ts sc c' :
  dict_flag c' (mark_in d c ts sc) = if decide (c = c') then true else dict_flag c' d.
Proof.
  unfold dict_flag. rewrite get_mark_in. case_decide; [|done].
  apply needs_check_fresh_entry.
Qed.

Lemma marks_fold cs ts scs d :
  NoDup (PyDict.keys d) →
  let d' := fold_left (fun d c => mark_in d c ts (count_for scs c)) cs d in
  NoDup (PyDict.keys d')
  ∧ ∀ c, dict_flag c d' = if bool_decide (c ∈ cs) then true else dict_flag c d.
Proof.
  revert d. induction cs as [|c0 cs IH]; intros d Hnd; cbn [fold_left].
  - split; [done|]. intros c. case_bool_decide as Hc; [by apply elem_of_nil in Hc|done].
  - destruct (IH (mark_in d c0 ts (count_for scs c0))) as [Hnd' Hflag];
      [by apply NoDup_mark_in|].
    split; [done|]. intros c. rewrite Hflag, dict_flag_mark_in.
    case_bool_decide as H1; case_bool_decide as H2; try done.
    + exfalso. apply H2. by apply list_elem_of_further.
    + apply elem_of_cons in H2 as [->|?]; [|done]. by rewrite decide_True.
    + rewrite decide_False; [done|]. intros ->. apply H2, list_elem_of_here.
Qed.

Lemma flagged_mark c0 ts sc u c :
  flagged c (mark_channel_updated c0 ts sc u) = if decide (c0 = c) then true else flagged c u.
Proof. apply dict_flag_mark_in. Qed.

Lemma flagged_marks cs ts scs u c :
  wf u →
  flagged c (mark_channels_updated cs ts scs u)
  = if bool_decide (c ∈ cs) then true else flagged c u.
Proof. intros Hwf. apply (marks_fold cs ts scs _ Hwf). Qed.

Lemma wf_mark c0 ts sc u : wf u → wf (mark_channel_updated c0 ts sc u).
Proof. apply NoDup_mark_in. Qed.

Lemma wf_marks cs ts scs u : wf u → wf (mark_channels_updated cs ts scs u).
Proof. intros Hwf. apply (marks_fold cs ts scs _ Hwf). Qed.

(** A claim hands out a duplicate-free list, clears exactly the channels it
    hands out, and leaves the others as they were. *)
Lemma claim_balance m ts u c :
  wf u →
  let '(u', ids) := get_and_clear_channels_needing_check m ts u in
  wf u' ∧ NoDup ids
  ∧ (count_occ Z.eq_dec ids c + Nat.b2n (flagged c u') = Nat.b2n (flagged c u))%nat.
Proof.
  intros Hwf. unfold get_and_clear_channels_needing_check.
  unfold wf, flagged, dict_flag, channels_or_empty in *.
  destruct (channels u) as [d|] eqn:Hd; cbn [channels].
  2:{ rewrite Hd. split_and!; [done|constructor|done]. }
  pose proof (claim_loop_state m ts d [] Hwf) as (picked & Hout & Hsub & Hkeys & Hget).
  pose proof (claim_loop_out m ts d []) as Hout'.
  destruct (claim_loop m ts d []) as [d' out]. cbn [fst snd channels] in *.
  rewrite app_nil_l in Hout, Hout'. subst out.
  assert (Hnd : NoDup picked).
  { rewrite Hout'. eapply sublist_NoDup; [|apply sublist_take]. by apply NoDup_flagged_ids. }
  split_and!; [by rewrite Hkeys|done|].
  rewrite Hget. case_bool_decide as Hin.
  - assert (Hfl : c ∈ flagged_ids d).
    { rewrite Hout' in Hin. by apply elem_of_take in Hin as (? & ?%list_elem_of_lookup_2 & _). }
    apply flagged_ids_get in Hfl as (info & -> & Hn); [|done]. cbn [fmap option_fmap option_map].
    rewrite needs_check_claim_entry, Hn. cbn [Nat.b2n].
    apply list_elem_of_In in Hin.
    pose proof (proj1 (NoDup_count_occ Z.eq_dec picked) (proj1 (NoDup_ListNoDup _) Hnd) c).
    apply (count_occ_In Z.eq_dec) in Hin. lia.
  - assert (count_occ Z.eq_dec picked c = 0%nat) as ->; [|done].
    apply count_occ_not_In. by rewrite <- list_elem_of_In.
Qed.

(** One event keeps the dictionary well formed and balances the books for
    every channel: what a claim hands out is exactly what stops being
    pending. *)
Lemma step_balance u o c :
  wf u →
  let '(u', r) := step u o in
  wf u'
  ∧ (count_occ Z.eq_dec (default [] r) c + Nat.b2n (flagged c u')
     = Nat.b2n (flagged c u) + (if marks c o && negb (flagged c u) then 1 else 0))%nat
  ∧ NoDup (default [] r).
Proof.
  intros Hwf. destruct o as [c0 ts sc|cs ts scs|m ts]; cbn [step marks default count_occ].
  - split_and!; [by apply wf_mark| |constructor].
    rewrite flagged_mark. case_decide as Hc.
    + subst. rewrite bool_decide_eq_true_2 by done. by destruct (flagged c u).
    + rewrite bool_decide_eq_false_2 by done. cbn. lia.
  - split_and!; [by apply wf_marks| |constructor].
    rewrite flagged_marks by done.
    case_bool_decide; cbn; [|lia]. by destruct (flagged c u).
  - pose proof (claim_balance m ts u c Hwf) as Hb.
    destruct (get_and_clear_channels_needing_check m ts u) as [u' ids].
    destruct Hb as (? & ? & ?). cbn beta iota zeta. cbn [default andb].
    split_and!; [done| |done]. unfold id. lia.
Qed.


Lemma run_balance ops : ∀ u c,
  wf u →
  let '(u', results) := run u ops in
  wf u'
  ∧ (count_occ Z.eq_dec (concat results) c + Nat.b2n (flagged c u')
     = Nat.b2n (flagged c u) + dirty_episodes c u ops)%nat
  ∧ Forall NoDup results.
Proof.
  induction ops as [|o ops IH]; intros u c Hwf; cbn [run dirty_episodes].
  - split_and!; [done|cbn; lia|constructor].
  - pose proof (step_balance u o c Hwf) as Hs.
    destruct (step u o) as [u1 r]. destruct Hs as (Hwf1 & Hbal1 & Hnd1).
    specialize (IH u1 c Hwf1). cbn [fst].
    destruct (run u1 ops) as [u2 rs]. destruct IH as (Hwf2 & Hbal2 & Hnd2).
    split_and!; [done| |].
    + destruct r as [ids|]; cbn [default concat] in *; unfold id in *.
      * rewrite count_occ_app. lia.
      * cbn [count_occ] in Hbal1. lia.
    + destruct r as [ids|]; [constructor|]; done.
Qed.

Lemma get_and_clear_result m ts u :
  wf u →
  let '(u', ids) := get_and_clear_channels_needing_check m ts u in
  ids = first_upto m (get_channels_needing_check u)
  ∧ ∀ c, PyDict.get c (channels_or_empty u')
         = if bool_decide (c ∈ ids)
           then claim_entry ts <$> PyDict.get c (channels_or_empty u)
           else PyDict.get c (channels_or_empty u).
Proof.
  intros Hwf. unfold get_and_clear_channels_needing_check, get_channels_needing_check.
  unfold wf, channels_or_empty in *.
  destruct (channels u) as [d|] eqn:Hd; cbn [channels].
  2:{ rewrite Hd. split.
      - unfold first_upto. destruct m as [m|]; [|done].
        destruct (m =? 0); [done|]. symmetry. apply take_nil.
      - intros c. case_bool_decide as Hc; [by apply elem_of_nil in Hc|done]. }
  pose proof (claim_loop_state m ts d [] Hwf) as (picked & Hout & Hsub & Hkeys & Hget).
  pose proof (claim_loop_out m ts d []) as Hout'.
  destruct (claim_loop m ts d []) as [d' out]. cbn [fst snd channels] in *.
  rewrite app_nil_l in Hout, Hout'. subst out. split; [|done].
  rewrite Hout'. fold (flagged_ids d).
  unfold quota, first_upto. destruct m as [m|]; [|apply firstn_all].
  destruct (m =? 0); [apply firstn_all|]. cbn [length].
  by rewrite Z.sub_0_r.
Qed.

Lemma checked_ids_of_fresh_entry ts sc ck : checked_ids_of (fresh_entry ts sc ck) = ck.
Proof.
  unfold checked_ids_of, fresh_entry.
  rewrite !lookup_insert_ne by done. by rewrite lookup_insert_eq.
Qed.



Lemma wf_two_channels : wf two_channels.
Proof.
  unfold wf, two_channels, channels_or_empty, PyDict.keys. cbn [channels map fst].
  apply NoDup_cons_2; [|apply NoDup_singleton].
  by intros ?%list_elem_of_singleton.
Defined.

(** C1, amended.  On a tracker whose dictionary has each channel once, a
    call of [get_and_clear_channels_needing_check] returns the flagged
    channel ids in dictionary order: all of them when [max_channels] is
    missing or zero, the first [max_channels] of them when it is positive
    (and the first one when it is negative).  In the same step every
    returned channel gets [needs_check = False] and [queued_at] stamped,
    and no other entry changes.  Along any serialized run of claims and
    mark-updated events, for every channel the number of times it is
    handed out plus one if it is still flagged at the end equals one if
    it was flagged at the start plus the number of times it went from
    clean to dirty: each dirty episode is handed out exactly once or is
    still pending, and no result lists a channel twice. *)
Theorem get_and_clear_exactly_once (u : updates) :
  wf u →
  (∀ max_channels timestamp,
     let '(u', ids) := get_and_clear_channels_needing_check max_channels timestamp u in
     ids = first_upto max_channels (get_channels_needing_check u)
     ∧ (∀ c, c ∈ ids →
          ∃ info, PyDict.get c (channels_or_empty u) = Some info
                  ∧ needs_check info = true
                  ∧ PyDict.get c (channels_or_empty u') = Some (claim_entry timestamp info)
                  ∧ claim_entry timestamp info !! "needs_check"%string = Some (PBool false)
                  ∧ claim_entry timestamp info !! "queued_at"%string = Some (PStr timestamp))
     ∧ (∀ c, c ∉ ids →
          PyDict.get c (channels_or_empty u') = PyDict.get c (channels_or_empty u)))
  ∧ (∀ ops c,
       let '(u', results) := run u ops in
       (count_occ Z.eq_dec (concat results) c + Nat.b2n (flagged c u')
        = Nat.b2n (flagged c u) + dirty_episodes c u ops)%nat
       ∧ Forall NoDup results).
Proof.
  intros Hwf. split.
  - intros m ts. pose proof (get_and_clear_result m ts u Hwf) as Hres.
    destruct (get_and_clear_channels_needing_check m ts u) as [u' ids].
    destruct Hres as [Hids Hget]. split_and!; [done| |].
    + intros c Hc. specialize (Hget c). rewrite bool_decide_eq_true_2 in Hget by done.
      assert (Hfl : c ∈ flagged_ids (channels_or_empty u)).
      { rewrite Hids in Hc. unfold first_upto, get_channels_needing_check in Hc.
        destruct m as [m|]; [|done]. destruct (m =? 0); [done|].
        by apply subseteq_take in Hc. }
      apply flagged_ids_get in Hfl as (info & Hinfo & Hn); [|done].
      exists info. rewrite Hget, Hinfo. split_and!; try done.
      * unfold claim_entry. rewrite lookup_insert_ne by done. by rewrite lookup_insert_eq.
      * unfold claim_entry. by rewrite lookup_insert_eq.
    + intros c Hc. specialize (Hget c). by rewrite bool_decide_eq_false_2 in Hget.
  - intros ops c. pose proof (run_balance ops u c Hwf) as Hrun.
    destruct (run u ops) as [u' results]. by destruct Hrun as (_ & ? & ?).
Qed.

(** The hypothesis of C1 holds of [two_channels]. *)
Lemma get_and_clear_exactly_once_witness :
  wf two_channels
  ∧ ∀ ops c,
      let '(u', results) := run two_channels ops in
      (count_occ Z.eq_dec (concat results) c + Nat.b2n (flagged c u')
       = Nat.b2n (flagged c two_channels) + dirty_episodes c two_channels ops)%nat
      ∧ Forall NoDup results.
Proof.
  split; [exact wf_two_channels|].
  exact (proj2 (get_and_clear_exactly_once two_channels wf_two_channels)).
Defined.

(** C1 as first stated fails for the bound 0: the call returns the one
    flagged channel, which is more than zero of them. *)
Lemma get_and_clear_zero_bound_takes_all :
  let ids := snd (get_and_clear_channels_needing_check (Some 0) "2025-01-01T00:01:00" two_channels) in
  ids = [7] ∧ ¬ (Z.of_nat (length ids) ≤ 0).
Proof.
  assert (Hn : needs_check (fresh_entry "2025-01-01T00:00:00" (PInt 3) (PIds [])) = true)
    by apply needs_check_fresh_entry.
  assert (Hn' : needs_check (<["force_check"%string := PBool true]>
                 (<["needs_check"%string := PBool false]> ∅)) = false).
  { unfold needs_check. rewrite lookup_insert_ne by done. by rewrite lookup_insert_eq. }
  cbn [get_and_clear_channels_needing_check two_channels channels claim_loop].
  unfold get_and_clear_channels_needing_check, two_channels. cbn [channels claim_loop].
  rewrite Hn, Hn'. cbn. split; [done|lia].
Qed.



End TrackerFacts.

(** ** The work queue *)

Module WorkQueueFacts.
Import WorkQueue.

(** The entry served is the oldest one, whatever its priority. *)
Lemma get_next_channel_oldest (q : t) (priority channel_id : Z) (rest : list (Z * Z)) :
  queue q = (priority, channel_id) :: rest →
  snd (get_next_channel q) = Some channel_id
  ∧ queue (fst (get_next_channel q)) = rest.
Proof. intros Hq. unfold get_next_channel. by rewrite Hq. Qed.

Lemma add_channel_member (q : t) (channel_id priority : Z) :
  channel_id ∈ queued q ∪ in_progress q ∪ completed q →
  add_channel channel_id priority q = (q, false).
Proof.
  intros Hin. unfold add_channel.
  destruct (decide (channel_id ∈ queued q)) as [H1|H1].
  { by rewrite (bool_decide_eq_false_2 (channel_id ∉ queued q)) by (by intros ?). }
  destruct (decide (channel_id ∈ in_progress q)) as [H2|H2].
  { rewrite (bool_decide_eq_false_2 (channel_id ∉ in_progress q)) by (by intros ?).
    by rewrite andb_false_r. }
  assert (H3 : channel_id ∈ completed q).
  { apply elem_of_union in Hin as [[?|?]%elem_of_union|?]; done. }
  rewrite (bool_decide_eq_false_2 (channel_id ∉ completed q)) by (by intros ?).
  by rewrite andb_false_r.
Qed.

(** C3.  If the channel id is in the queued, in-progress or completed
    set, [add_channel] returns [False] and leaves the whole queue object
    as it was; so does every further call, with any priority, and
    [add_channels] on any number of copies of the id adds nothing. *)
Theorem add_channel_duplicate_noop (q : t) (channel_id priority : Z) :
  channel_id ∈ queued q ∪ in_progress q ∪ completed q →
  add_channel channel_id priority q = (q, false)
  ∧ (∀ priority', add_channel channel_id priority' (fst (add_channel channel_id priority q))
                  = (q, false))
  ∧ ∀ n, add_channels (replicate n channel_id) priority q = (q, 0).
Proof.
  intros Hin. pose proof (add_channel_member q channel_id) as Hadd.
  split_and!.
  - by apply Hadd.
  - intros p'. rewrite Hadd by done. by apply Hadd.
  - induction n as [|n IH]; cbn [replicate add_channels]; [done|].
    rewrite Hadd by done. by rewrite IH.
Qed.

(** Channel 4 is in progress in [busy]; adding it again is refused. *)
Lemma add_channel_duplicate_noop_witness :
  4 ∈ queued busy ∪ in_progress busy ∪ completed busy
  ∧ add_channel 4 5 busy = (busy, false).
Proof.
  assert (H : 4 ∈ queued busy ∪ in_progress busy ∪ completed busy).
  { apply elem_of_union_l, elem_of_union_r. vm_compute. set_solver. }
  split; [exact H|].
  exact (proj1 (add_channel_duplicate_noop busy 4 5 H)).
Defined.

(** C2, the code at the failing input.  Channel 1 is queued with
    priority 10 (an update), then channel 2 with priority 5 (a global
    check); both are present, and the next channel served is 1, then 2. *)
Theorem get_next_channel_ignores_priority :
  let q1 := fst (add_channel 1 10 (init 1000)) in
  let q2 := fst (add_channel 2 5 q1) in
  queue q2 = [(10, 1); (5, 2)]
  ∧ snd (get_next_channel q2) = Some 1
  ∧ snd (get_next_channel (fst (get_next_channel q2))) = Some 2.
Proof. vm_compute. done. Qed.

End WorkQueueFacts.

(** ** The cron gate *)

Module CronFacts.
Import Cron.

Section Gate.
Variable croniter_installed : bool.
Variable croniter_is_valid : string → bool.
Variable croniter_get_prev : string → Z → Z.

(** C4, amended.  The cron check launches the global action exactly when
    the schedule is enabled, the pipeline mode has scheduled global
    actions, croniter is present and accepts the expression, and either no
    last global check is recorded and [now] is within ten minutes of the
    previous scheduled instant, or one is recorded and the previous
    scheduled instant is strictly after it.  A launch records [done_at];
    after it no evaluation launches again until the previous scheduled
    instant has moved past the recorded one: at most one run per
    scheduled instant. *)
Theorem cron_gate (cfg : config) (now done_at : Z) (last_global : option Z) :
  let check :=
    check_global_schedule croniter_installed croniter_is_valid croniter_get_prev cfg in
  let prev := croniter_get_prev (effective_expression cfg) now in
  let ready :=
    schedule_enabled cfg = true
    ∧ pipeline_mode cfg ∈ scheduled_modes
    ∧ croniter_installed = true
    ∧ croniter_is_valid (effective_expression cfg) = true in
  (fst (check now done_at last_global) = true
   ↔ ready ∧ ((last_global = None ∧ Z.abs (now - prev) ≤ minutes 10)
              ∨ (∃ last_check_time, last_global = Some last_check_time
                                    ∧ last_check_time < prev)))
  ∧ snd (check now done_at last_global)
    = (if fst (check now done_at last_global) then Some done_at else last_global)
  ∧ (fst (check now done_at last_global) = true →
     ∀ now' done_at',
       croniter_get_prev (effective_expression cfg) now' ≤ done_at →
       fst (check now' done_at' (snd (check now done_at last_global))) = false).
Proof.
  intros check prev ready. subst check prev ready.
  unfold check_global_schedule, within_window.
  destruct (schedule_enabled cfg); cbn [negb].
  2:{ split_and!; [|done|done]. split; [done|]. by intros [[? _] _]. }
  destruct (decide (pipeline_mode cfg ∈ scheduled_modes)) as [Hm|Hm].
  2:{ rewrite bool_decide_eq_false_2 by done. cbn [negb].
      split_and!; [|done|done]. split; [done|]. by intros [(_ & ? & _) _]. }
  rewrite bool_decide_eq_true_2 by done. cbn [negb].
  destruct croniter_installed; cbn [negb].
  2:{ split_and!; [|done|done]. split; [done|]. by intros [(_ & _ & ? & _) _]. }
  destruct (croniter_is_valid (effective_expression cfg)); cbn [negb].
  2:{ split_and!; [|done|done]. split; [done|]. by intros [(_ & _ & _ & ?) _]. }
  destruct last_global as [l|].
  - destruct (l <? croniter_get_prev (effective_expression cfg) now) eqn:Hlt; cbn [fst snd].
    + apply Z.ltb_lt in Hlt. split_and!; [|done|].
      * split; [|done]. intros _. split; [done|]. right. by exists l.
      * intros _ now' done'. intros Hle.
        by rewrite (proj2 (Z.ltb_ge _ _) Hle).
    + apply Z.ltb_ge in Hlt. split_and!; [|done|done].
      split; [done|]. intros [_ [[? _]|(l' & [= <-] & ?)]]; [done|lia].
  - destruct (Z.abs (now - croniter_get_prev (effective_expression cfg) now) <=? minutes 10)
      eqn:Hw; cbn [fst snd].
    + apply Z.leb_le in Hw. split_and!; [|done|].
      * split; [|done]. intros _. split; [done|]. by left.
      * intros _ now' done' Hle. by rewrite (proj2 (Z.ltb_ge _ _) Hle).
    + apply Z.leb_gt in Hw. split_and!; [|done|done].
      split; [done|]. intros [_ [[_ ?]|(l' & ? & _)]]; [lia|done].
Qed.

End Gate.

(** With the default configuration and no recorded check, 03:05 launches
    and 03:15 does not. *)
Lemma cron_fresh_start_window :
  let check now := fst (check_global_schedule true (fun _ => true) daily_at_three
                          (default_config "pipeline_1_5") now (now + minutes 1) None) in
  check (instant 20 3 5 0) = true ∧ check (instant 20 3 15 0) = false.
Proof. vm_compute. done. Qed.

(** C4 as first stated fails in mode [pipeline_1]: a fresh start five
    minutes after the scheduled instant does not launch. *)
Lemma cron_gate_closed_in_pipeline_1 :
  let now := instant 20 3 5 0 in
  let prev := daily_at_three "0 3 * * *" now in
  Z.abs (now - prev) ≤ minutes 10
  ∧ fst (check_global_schedule true (fun _ => true) daily_at_three
           (default_config "pipeline_1") now (now + minutes 1) None) = false.
Proof. vm_compute. split; [discriminate|done]. Qed.

(** The gate opens at 03:05 on a fresh start. *)
Lemma cron_gate_witness :
  fst (check_global_schedule true (fun _ => true) daily_at_three
         (default_config "pipeline_1_5") (instant 20 3 5 0) (instant 20 3 6 0) None) = true.
Proof.
  apply (proj1 (cron_gate true (fun _ => true) daily_at_three
                  (default_config "pipeline_1_5") (instant 20 3 5 0) (instant 20 3 6 0) None)).
  split.
  - split_and!; [reflexivity| |reflexivity|reflexivity].
    apply (bool_decide_unpack _). vm_compute. reflexivity.
  - left. split; [reflexivity|]. vm_compute. discriminate.
Defined.

End CronFacts.

(** ** Bitrate detection *)

Module BitrateFacts.
Import Bitrate.

Lemma scan_lines_ok (duration : Z) (lines : list string) : ∀ st,
  Forall (fun line => method1 duration line ≠ Raised) lines →
  scan_lines duration lines st
  = inl (mkScan (final_bitrate duration lines (bitrate st))
                (final_progress lines (progress_bitrate st))).
Proof.
  induction lines as [|line rest IH]; intros [b0 p0] Hok.
  - by destruct b0.
  - apply Forall_cons in Hok as [Hline Hrest].
    cbn [scan_lines]. unfold scan_line.
    unfold final_bitrate, final_progress. cbn [map last_value first_value fold_right].
    fold (last_value (map (fun l => value_of (method1 duration l)) rest)).
    fold (last_value (map method2 rest)).
    fold (first_value (map (method3 duration) rest)).
    destruct (method1 duration line) as [| |v] eqn:Hm1; [done| |]; cbn [bitrate progress_bitrate value_of].
    + rewrite IH by done. cbn [bitrate progress_bitrate]. unfold final_bitrate, final_progress.
      f_equal. f_equal.
      * destruct (last_value (map (fun l => value_of (method1 duration l)) rest)); [done|].
        destruct b0 as [b|]; [done|]. by destruct (method3 duration line).
      * destruct (last_value (map method2 rest)); [done|]. by destruct (method2 line).
    + rewrite IH by done. cbn [bitrate progress_bitrate]. unfold final_bitrate, final_progress.
      f_equal. f_equal.
      * by destruct (last_value (map (fun l => value_of (method1 duration l)) rest)).
      * destruct (last_value (map method2 rest)); [done|]. by destruct (method2 line).
Qed.

(** C6, amended.  When ffmpeg completes and no line raises, the bitrate
    returned is: (a) the value derived from the last Statistics line that
    gives one, [bytes * 8 / 1000 / duration]; failing that, (c) the value
    derived the same way from the first untagged bytes-read line that
    gives one; failing that, (b) the value of the last progress line.
    A Statistics value wins over the other two wherever its line
    stands. *)
Theorem bitrate_fallback_order (output : string) (duration : Z) :
  let lines := Str.splitlines output in
  Forall (fun line => method1 duration line ≠ Raised) lines →
  get_stream_bitrate (Completed output) duration
  = (match last_value (map (fun l => value_of (method1 duration l)) lines) with
     | Some v => Some v
     | None =>
         match first_value (map (method3 duration) lines) with
         | Some v => Some v
         | None => last_value (map method2 lines)
         end
     end, OK).
Proof.
  intros lines Hok. unfold get_stream_bitrate. fold lines.
  rewrite scan_lines_ok by done. cbn [bitrate progress_bitrate].
  unfold final_bitrate, final_progress.
  destruct (last_value (map (fun l => value_of (method1 duration l)) lines)); [done|].
  destruct (first_value (map (method3 duration) lines)); [done|].
  by destruct (last_value (map method2 lines)).
Qed.

(** On the sample with a progress line and a Statistics line no line
    raises, and the Statistics value is returned. *)
Lemma bitrate_fallback_order_witness :
  Forall (fun line => method1 30 line ≠ Raised) (Str.splitlines progress_and_statistics)
  ∧ get_stream_bitrate (Completed progress_and_statistics) 30
    = (Some (144000000 # 30000)%Q, OK).
Proof.
  assert (H : Forall (fun line => method1 30 line ≠ Raised)
                (Str.splitlines progress_and_statistics)).
  { vm_compute. repeat constructor; discriminate. }
  split; [exact H|].
  rewrite (bitrate_fallback_order progress_and_statistics 30 H). vm_compute. reflexivity.
Defined.

(** 18000000 bytes read over 30 seconds give 4800 kbps although the
    progress line says 4000. *)
Lemma statistics_wins_over_progress :
  ∃ v, fst (get_stream_bitrate (Completed progress_and_statistics) 30) = Some v
       ∧ (v == 4800)%Q
       ∧ last_value (map method2 (Str.splitlines progress_and_statistics)) = Some 4000.0%Q.
Proof. eexists. split_and!; [vm_compute; reflexivity|reflexivity|vm_compute; reflexivity]. Qed.

(** C6 as first stated fails when (a) is absent and both (b) and (c) are
    present: the untagged byte count is returned, not the progress
    value. *)
Lemma untagged_bytes_win_over_progress :
  let lines := Str.splitlines progress_and_untagged in
  map (method1 30) lines = [Nothing; Nothing]
  ∧ last_value (map method2 lines) = Some 4000.0%Q
  ∧ ∃ v, get_stream_bitrate (Completed progress_and_untagged) 30 = (Some v, OK)
         ∧ (v == 4800)%Q ∧ ¬ (v == 4000)%Q.
Proof.
  split_and!; [vm_compute; reflexivity|vm_compute; reflexivity|].
  eexists. split_and!; [vm_compute; reflexivity|reflexivity|discriminate].
Qed.

End BitrateFacts.

(** ** Liveness and scoring *)

Module ScoreFacts.
Import Score.

Lemma snoc_not_empty (s : string) (c : ascii) : Str.is_empty (Str.snoc s c) = false.
Proof. by destruct s. Qed.

(** A string without the separator splits into one part. *)
Lemma split_char_from_absent (sep : ascii) (s : string) : ∀ cur,
  Str.contains (String sep EmptyString) s = false →
  ∃ part, Str.split_char_from sep s cur = [part].
Proof.
  induction s as [|c s IH]; intros cur Hno; cbn [Str.split_char_from].
  - by eexists.
  - cbn [Str.contains Str.starts_with] in Hno.
    apply orb_false_iff in Hno as [Hc Hs].
    rewrite andb_true_r in Hc. rewrite Ascii.eqb_sym in Hc. rewrite Hc.
    by apply IH.
Qed.

Lemma dimensions_contains_x (r : string) (wh : Z * Z) :
  dimensions r = Some wh → Str.contains "x" r = true.
Proof.
  unfold dimensions, Str.split_char. intros Hd.
  destruct (Str.contains "x" r) eqn:Hx; [done|].
  destruct (split_char_from_absent "x" r EmptyString Hx) as [part Hp].
  by rewrite Hp in Hd.
Qed.

Lemma dead_resolution_dimensions (r : string) (width height : Z) :
  dimensions r = Some (width, height) →
  width = 0 ∨ height = 0 →
  dead_resolution r = true.
Proof.
  intros Hd Hz. unfold dead_resolution.
  pose proof (dimensions_contains_x r _ Hd) as Hx.
  destruct (Str.is_empty r) eqn:He.
  { destruct r; [done|discriminate]. }
  destruct (String.eqb r "N/A") eqn:Hna.
  { apply String.eqb_eq in Hna. subst r. discriminate. }
  cbn [negb andb]. destruct (String.eqb r "0x0"); [done|].
  rewrite Hx, Hd. destruct Hz as [-> | ->]; [done|]. by rewrite orb_true_r.
Qed.

(** C5.  A stream record whose resolution is exactly ["0x0"], or one of
    whose parsed dimensions is zero, or whose bitrate is zero or unknown,
    is classified dead and scores exactly 0, whatever its other fields and
    the configured weights. *)
Theorem dead_stream_scores_zero (cfg : config) (d : analyzed) :
  classified_dead d →
  is_stream_dead d = true ∧ calculate_stream_score cfg d = 0%Q.
Proof.
  intros Hdead.
  assert (Hd : is_stream_dead d = true); [|split; [done|]].
  2:{ unfold calculate_stream_score. by rewrite Hd. }
  unfold is_stream_dead.
  destruct Hdead as [Hr|[(r & w & h & Hr & Hdim & Hz)|[Hb|[Hb|[Hb|(q & Hq & Hz)]]]]].
  - by rewrite Hr.
  - rewrite Hr. cbn [default]. unfold id.
    by rewrite (dead_resolution_dimensions r w h).
  - rewrite Hb. by destruct (dead_resolution _).
  - rewrite Hb. by destruct (dead_resolution _).
  - rewrite Hb. by destruct (dead_resolution _).
  - destruct (dead_resolution _); [done|].
    destruct (bitrate_kbps d) as [v|]; [|done]. cbn [default] in *. unfold id in *.
    destruct v as [|b|z|q'|s|l]; cbn [number dead_bitrate] in *; try done.
    + injection Hq as <-. by destruct b.
    + injection Hq as <-. apply Z.eqb_eq.
      unfold Qeq in Hz. cbn in Hz. lia.
    + injection Hq as <-. by apply Qeq_bool_iff.
Qed.

(** The 1920x0 sample is dead by its height and scores 0. *)
Lemma dead_stream_scores_zero_witness :
  classified_dead zero_height
  ∧ calculate_stream_score default_scoring zero_height = 0%Q.
Proof.
  assert (H : classified_dead zero_height).
  { right. left. exists "1920x0"%string, 1920, 0.
    split_and!; [reflexivity|vm_compute; reflexivity|right; reflexivity]. }
  split; [exact H|].
  exact (proj2 (dead_stream_scores_zero default_scoring zero_height H)).
Defined.

End ScoreFacts.

(** ** Stable insertion sort *)

Module SortFacts.
Import EventOrder.

Section Insertion.
Context {A : Type} (le : A → A → bool).

Lemma insert_by_perm (x : A) (l : list A) : insert_by le x l ≡ₚ x :: l.
Proof.
  induction l as [|y l IH]; cbn [insert_by]; [done|].
  destruct (le x y); [done|]. rewrite IH. apply Permutation_swap.
Qed.

Lemma sort_by_perm (l : list A) : sort_by le l ≡ₚ l.
Proof.
  induction l as [|x l IH]; cbn [sort_by fold_right]; [done|].
  fold (sort_by le l). by rewrite insert_by_perm, IH.
Qed.

Lemma elem_of_sort_by (x : A) (l : list A) : x ∈ sort_by le l ↔ x ∈ l.
Proof. by rewrite sort_by_perm. Qed.

(** An element that precedes all of [r] is inserted within [l]. *)
Lemma insert_by_app_l (x : A) (l r : list A) :
  (∀ y, y ∈ r → le x y = true) →
  insert_by le x (l ++ r) = insert_by le x l ++ r.
Proof.
  intros Hr. induction l as [|a l IH]; cbn [app insert_by].
  - destruct r as [|b r]; [done|]. cbn [insert_by].
    by rewrite Hr by apply list_elem_of_here.
  - destruct (le x a); [done|]. by rewrite IH.
Qed.

(** An element that follows all of [l] is inserted within [r]. *)
Lemma insert_by_app_r (x : A) (l r : list A) :
  (∀ y, y ∈ l → le x y = false) →
  insert_by le x (l ++ r) = l ++ insert_by le x r.
Proof.
  intros Hl. induction l as [|a l IH]; cbn [app insert_by]; [done|].
  rewrite Hl by apply list_elem_of_here. rewrite IH; [done|].
  intros y Hy. by apply Hl, list_elem_of_further.
Qed.

(** Sorting a list whose [p]-elements all come strictly before the others
    sorts the two classes side by side. *)
Lemma sort_by_split (p : A → bool) (l : list A) :
  (∀ x y, x ∈ l → y ∈ l → p x = true → p y = false →
          le x y = true ∧ le y x = false) →
  sort_by le l
  = sort_by le (filter (fun x => p x = true) l)
    ++ sort_by le (filter (fun x => p x = false) l).
Proof.
  induction l as [|x l IH]; intros Hdom; [done|].
  cbn [sort_by fold_right]. fold (sort_by le l).
  rewrite IH.
  2:{ intros a b Ha Hb. apply Hdom; by apply list_elem_of_further. }
  rewrite !filter_cons. destruct (p x) eqn:Hx.
  - rewrite decide_True, decide_False by done.
    cbn [sort_by fold_right]. apply insert_by_app_l.
    intros y [Hy Hin]%elem_of_sort_by%list_elem_of_filter.
    apply (Hdom x y); [apply list_elem_of_here|by apply list_elem_of_further|done|done].
  - rewrite decide_False, decide_True by done.
    cbn [sort_by fold_right]. apply insert_by_app_r.
    intros y [Hy Hin]%elem_of_sort_by%list_elem_of_filter.
    apply (Hdom y x); [by apply list_elem_of_further|apply list_elem_of_here|done|done].
Qed.

(** Comparisons that agree on the list sort it alike. *)
Lemma insert_by_ext (le' : A → A → bool) (x : A) (l : list A) :
  (∀ y, y ∈ l → le x y = le' x y) → insert_by le x l = insert_by le' x l.
Proof.
  induction l as [|y l IH]; intros He; cbn [insert_by]; [done|].
  rewrite <- He by apply list_elem_of_here.
  destruct (le x y); [done|]. rewrite IH; [done|].
  intros z Hz. by apply He, list_elem_of_further.
Qed.

(** Stability: elements that are pairwise in order keep their places
    relative to one another. *)
Lemma insert_by_stable (P : A → Prop) `{∀ x, Decision (P x)} (x : A) (l : list A) :
  (∀ a b, P a → P b → le a b = true) →
  filter P (insert_by le x l) = filter P (x :: l).
Proof.
  intros HP. induction l as [|y l IH]; cbn [insert_by]; [done|].
  destruct (le x y) eqn:Hxy; [done|].
  rewrite filter_cons, IH, !filter_cons.
  destruct (decide (P y)) as [Hy|Hy]; [|done].
  destruct (decide (P x)) as [Hx|Hx]; [|done].
  by rewrite HP in Hxy.
Qed.

Lemma sort_by_stable (P : A → Prop) `{∀ x, Decision (P x)} (l : list A) :
  (∀ a b, P a → P b → le a b = true) →
  filter P (sort_by le l) = filter P l.
Proof.
  intros HP. induction l as [|x l IH]; [done|].
  cbn [sort_by fold_right]. fold (sort_by le l).
  rewrite insert_by_stable by done. by rewrite !filter_cons, IH.
Qed.

Hypothesis le_total : ∀ a b, le a b = false → le b a = true.
Hypothesis le_trans : ∀ a b c, le a b = true → le b c = true → le a c = true.

Lemma insert_by_sorted (x : A) (l : list A) :
  StronglySorted (fun a b => le a b = true) l →
  StronglySorted (fun a b => le a b = true) (insert_by le x l).
Proof.
  induction 1 as [|y l Hs IH Hall]; cbn [insert_by].
  - repeat constructor.
  - destruct (le x y) eqn:Hxy.
    + constructor; [by constructor|]. constructor; [done|].
      eapply Forall_impl; [exact Hall|]. intros z Hz. by eapply le_trans.
    + constructor; [done|].
      apply Forall_forall. intros z Hz.
      rewrite insert_by_perm in Hz. apply elem_of_cons in Hz as [->|Hz].
      * by apply le_total.
      * rewrite Forall_forall in Hall. by apply Hall.
Qed.

Lemma sort_by_sorted (l : list A) :
  StronglySorted (fun a b => le a b = true) (sort_by le l).
Proof.
  induction l as [|x l IH]; cbn [sort_by fold_right]; [constructor|].
  by apply insert_by_sorted.
Qed.

End Insertion.

Lemma sort_by_ext {A} (le le' : A → A → bool) (l : list A) :
  (∀ x y, x ∈ l → y ∈ l → le x y = le' x y) → sort_by le l = sort_by le' l.
Proof.
  induction l as [|x l IH]; intros He; [done|].
  cbn [sort_by fold_right]. fold (sort_by le l) (sort_by le' l).
  rewrite IH by (intros a b Ha Hb; apply He; by apply list_elem_of_further).
  apply insert_by_ext. intros y Hy%elem_of_sort_by.
  apply He; [apply list_elem_of_here|by apply list_elem_of_further].
Qed.

Lemma pair_le_total (a b : Z * Z) : pair_le a b = false → pair_le b a = true.
Proof.
  unfold pair_le. destruct a as [a1 a2], b as [b1 b2]. cbn [fst snd].
  rewrite orb_false_iff, andb_false_iff, orb_true_iff, andb_true_iff.
  rewrite !Z.ltb_ge, !Z.ltb_lt, !Z.eqb_eq, !Z.eqb_neq, !Z.leb_le, !Z.leb_gt. lia.
Qed.

Lemma pair_le_trans (a b c : Z * Z) :
  pair_le a b = true → pair_le b c = true → pair_le a c = true.
Proof.
  unfold pair_le. destruct a as [a1 a2], b as [b1 b2], c as [c1 c2]. cbn [fst snd].
  rewrite !orb_true_iff, !andb_true_iff.
  rewrite !Z.ltb_lt, !Z.eqb_eq, !Z.leb_le. lia.
Qed.

End SortFacts.

(** ** Event-time ordering *)

Module EventOrderFacts.
Import EventOrder SortFacts.

Lemma pair_le_refl (a : Z * Z) : pair_le a a = true.
Proof. unfold pair_le. by rewrite Z.eqb_refl, Z.leb_refl, orb_true_r. Qed.

Lemma key_le_total a b : key_le a b = false → key_le b a = true.
Proof. apply pair_le_total. Qed.
Lemma key_le_trans a b c : key_le a b = true → key_le b c = true → key_le a c = true.
Proof. apply pair_le_trans. Qed.
Lemma key_ge_total a b : key_ge a b = false → key_ge b a = true.
Proof. apply pair_le_total. Qed.
Lemma key_ge_trans a b c : key_ge a b = true → key_ge b c = true → key_ge a c = true.
Proof. intros H1 H2. exact (pair_le_trans _ _ _ H2 H1). Qed.
Lemma item_ge_total a b : item_ge a b = false → item_ge b a = true.
Proof. unfold item_ge. rewrite Z.leb_gt, Z.leb_le. lia. Qed.
Lemma item_ge_trans a b c : item_ge a b = true → item_ge b c = true → item_ge a c = true.
Proof. unfold item_ge. rewrite !Z.leb_le. lia. Qed.

Lemma untimed_not_upcoming now s : has_time s = false → is_upcoming now s = false.
Proof. unfold has_time, is_upcoming. by destruct (event_time s). Qed.

Lemma filter_none {A} (P : A → Prop) `{∀ x, Decision (P x)} (l : list A) :
  (∀ x, x ∈ l → ¬ P x) → filter P l = [].
Proof.
  induction l as [|x l IH]; intros Hno; [done|].
  rewrite filter_cons, decide_False by (apply Hno, list_elem_of_here).
  apply IH. intros y Hy. by apply Hno, list_elem_of_further.
Qed.

(** The non-upcoming streams, sorted downwards: the past events, then the
    streams without a time by falling item number. *)
Lemma past_block (now : Z) (l : list stream) :
  (∀ s t, s ∈ l → event_time s = Some t → datetime_min < t) →
  sort_by key_ge (filter (fun s => is_upcoming now s = false) l)
  = sort_by key_ge (filter (fun s => is_past_event now s = true) l)
    ++ sort_by item_ge (filter (fun s => has_time s = false) l).
Proof.
  intros Hmin.
  rewrite (sort_by_split key_ge has_time).
  - rewrite !list_filter_filter. f_equal.
    + f_equal. apply list_filter_iff. intros s. unfold is_past_event.
      rewrite andb_true_iff, negb_true_iff. tauto.
    + rewrite (list_filter_iff _ (fun s => has_time s = false)).
      * apply sort_by_ext. intros x y [Hx _]%list_elem_of_filter [Hy _]%list_elem_of_filter.
        unfold key_ge, item_ge, key, time_or_min, pair_le, has_time in *. cbn [fst snd].
        destruct (event_time x); [done|]. destruct (event_time y); [done|].
        cbn [default]. by rewrite Z.ltb_irrefl, Z.eqb_refl.
      * intros s. split; [tauto|]. intros Hs. split; [done|].
        by apply untimed_not_upcoming.
  - intros x y [_ Hx]%list_elem_of_filter _ Hpx Hpy.
    unfold key_ge, key, time_or_min, pair_le, has_time in *. cbn [fst snd].
    destruct (event_time x) as [t|] eqn:Hx'; [|done].
    destruct (event_time y); [done|]. cbn [default].
    specialize (Hmin x t Hx Hx'). unfold datetime_min in *.
    unfold Datatypes.id.
    rewrite (proj2 (Z.ltb_lt 0 t)), (proj2 (Z.ltb_ge t 0)), (proj2 (Z.eqb_neq t 0)) by lia.
    done.
Qed.

Lemma ordered_perm (now : Z) (l : list stream) : ordered now l ≡ₚ l.
Proof.
  unfold ordered. destruct (existsb has_time l); [|apply sort_by_perm].
  rewrite !sort_by_perm.
  rewrite (list_filter_iff (fun s => is_upcoming now s = false)
             (fun s => ¬ is_upcoming now s = true)).
  - apply filter_app_complement.
  - intros s. by destruct (is_upcoming now s).
Qed.

(** Streams with the same event time and item number keep their input
    order. *)
Lemma ordered_stable (now : Z) (l : list stream) (t : option Z) (i : Z) :
  filter (fun s => event_time s = t ∧ item_num s = i) (ordered now l)
  = filter (fun s => event_time s = t ∧ item_num s = i) l.
Proof.
  unfold ordered. destruct (existsb has_time l).
  2:{ apply sort_by_stable. intros a b [_ Ha] [_ Hb]. unfold item_le.
      rewrite Ha, Hb. apply Z.leb_refl. }
  rewrite filter_app, !sort_by_stable.
  2:{ intros a b [Ha1 Ha2] [Hb1 Hb2]. unfold key_ge, key, time_or_min.
      rewrite Ha1, Ha2, Hb1, Hb2. apply pair_le_refl. }
  2:{ intros a b [Ha1 Ha2] [Hb1 Hb2]. unfold key_le, key, time_or_min.
      rewrite Ha1, Ha2, Hb1, Hb2. apply pair_le_refl. }
  rewrite !list_filter_filter.
  pose (up := match t with Some t' => now - t' <? hours 2 | None => false end).
  assert (Hup : ∀ s, event_time s = t → is_upcoming now s = up).
  { intros s Hs. unfold is_upcoming, up. by rewrite Hs. }
  destruct up eqn:Hu.
  - rewrite (filter_none (fun s => (event_time s = t ∧ item_num s = i) ∧ is_upcoming now s = false)).
    2:{ intros s _ [[Hs _] Hn]. rewrite (Hup s Hs) in Hn. done. }
    rewrite app_nil_r. apply list_filter_iff. intros s. split; [tauto|].
    intros [Hs Hi]. by rewrite (Hup s Hs).
  - rewrite (filter_none (fun s => (event_time s = t ∧ item_num s = i) ∧ is_upcoming now s = true)).
    2:{ intros s _ [[Hs _] Hn]. rewrite (Hup s Hs) in Hn. done. }
    cbn [app]. apply list_filter_iff. intros s. split; [tauto|].
    intros [Hs Hi]. by rewrite (Hup s Hs).
Qed.

(** C8, amended.  Provided every event time is later than
    [datetime.min]: when some stream has an event time, the order is the
    upcoming streams (event time less than two hours before [now], or
    later) upwards by (event time, item number), then the past events
    downwards by (event time, item number), then the streams without an
    event time downwards by item number; when no stream has an event time
    the order is upwards by item number.  The result is a permutation of
    the input, and streams that agree on event time and item number keep
    their input order. *)
Theorem event_order_policy (now : Z) (streams_data : list stream) :
  (∀ s t, s ∈ streams_data → event_time s = Some t → datetime_min < t) →
  let upcoming := filter (fun s => is_upcoming now s = true) streams_data in
  let past := filter (fun s => is_past_event now s = true) streams_data in
  let untimed := filter (fun s => has_time s = false) streams_data in
  (existsb has_time streams_data = true →
   ordered now streams_data
   = sort_by key_le upcoming ++ sort_by key_ge past ++ sort_by item_ge untimed)
  ∧ (existsb has_time streams_data = false →
     ordered now streams_data = sort_by item_le streams_data)
  ∧ StronglySorted (fun a b => key_le a b = true) (sort_by key_le upcoming)
  ∧ StronglySorted (fun a b => key_ge a b = true) (sort_by key_ge past)
  ∧ StronglySorted (fun a b => item_ge a b = true) (sort_by item_ge untimed)
  ∧ ordered now streams_data ≡ₚ streams_data
  ∧ ∀ t i,
      filter (fun s => event_time s = t ∧ item_num s = i) (ordered now streams_data)
      = filter (fun s => event_time s = t ∧ item_num s = i) streams_data.
Proof.
  intros Hmin upcoming past untimed. split_and!.
  - intros Ht. unfold ordered. rewrite Ht. f_equal. by apply past_block.
  - intros Ht. unfold ordered. by rewrite Ht.
  - apply sort_by_sorted; [apply key_le_total|apply key_le_trans].
  - apply sort_by_sorted; [apply key_ge_total|apply key_ge_trans].
  - apply sort_by_sorted; [apply item_ge_total|apply item_ge_trans].
  - apply ordered_perm.
  - apply ordered_stable.
Qed.

(** An update call is issued only for a non-empty candidate with the
    input's id set. *)
Lemma written_same_ids (channel_id : Z) (stream_ids candidate : list Z)
    (accepted success : bool) (w : api) :
  snd (write_reordered channel_id stream_ids candidate accepted w) = Written success →
  candidate ≠ [] ∧ (list_to_set candidate : gset Z) = list_to_set stream_ids.
Proof.
  unfold write_reordered. repeat case_bool_decide; cbn [snd]; try done.
Qed.

(** The global-action reorder on the same sample keeps the streams without
    a time in input order. *)
Lemma reorder_streams_by_event_time_sample :
  reorder_streams_by_event_time (hours 1000) sample_streams = [3; 4; 1; 2].
Proof. vm_compute. reflexivity. Qed.

Lemma streams_data_ids (parse_name : string → option Z * Z) (streams : list fetched) :
  ∀ idx, map id (streams_data_from parse_name idx streams) = omap fid streams.
Proof.
  induction streams as [|s streams IH]; intros idx; [done|].
  cbn [streams_data_from omap list_omap]. destruct (fid s); cbn [map]; by rewrite IH.
Qed.

(** The candidate that [order_channel] computes is a permutation of the
    channel's stream ids. *)
Lemma candidate_perm (parse_name : string → option Z * Z) (now : Z) (streams : list fetched) :
  map id (ordered now (streams_data_from parse_name 0 streams)) ≡ₚ omap fid streams.
Proof. by rewrite ordered_perm, streams_data_ids. Qed.

(** The four sample streams seen at hour 1000: the live one, the past
    one, then the two without a time by falling item number. *)
Lemma event_order_policy_witness :
  (∀ s t, s ∈ sample_streams → event_time s = Some t → datetime_min < t)
  ∧ map id (ordered (hours 1000) sample_streams) = [3; 4; 2; 1].
Proof.
  assert (H : ∀ s t, s ∈ sample_streams → event_time s = Some t → datetime_min < t).
  { intros s t Hs Ht. unfold sample_streams in Hs.
    repeat (apply elem_of_cons in Hs as [->|Hs]); cbn in Ht; try discriminate.
    - injection Ht as <-. reflexivity.
    - injection Ht as <-. reflexivity.
    - by apply elem_of_nil in Hs. }
  split; [exact H|].
  rewrite (proj1 (event_order_policy (hours 1000) sample_streams H)) by reflexivity.
  vm_compute. reflexivity.
Defined.

(** C8 as first stated fails on the sample: the two streams without a
    time come out as 2, 1, not in their input order 1, 2. *)
Lemma untimed_streams_reordered :
  map id (ordered (hours 1000) sample_streams) = [3; 4; 2; 1]
  ∧ map id (claimed_order (hours 1000) sample_streams) = [3; 4; 1; 2]
  ∧ ordered (hours 1000) sample_streams ≠ claimed_order (hours 1000) sample_streams.
Proof.
  split_and!; [vm_compute; reflexivity|vm_compute; reflexivity|].
  intros Heq. apply (f_equal (map id)) in Heq. vm_compute in Heq. discriminate.
Qed.

(** C7, amended.  For a non-empty input list, a candidate that is empty
    or whose set of ids differs from the input's is refused: no update
    call is issued and the channel's stream sequence stays as it was.  A
    candidate equal to the input is left alone.  Every other candidate is
    sent to the server, also one that repeats an id of the input: the
    test compares the sets of ids, not the lists.  The candidate that the
    ordering itself computes is a permutation of the input. *)
Theorem reorder_safeguard (channel_id : Z) (stream_ids candidate : list Z)
    (accepted : bool) (w : api) :
  stream_ids ≠ [] →
  let out := write_reordered channel_id stream_ids candidate accepted w in
  (candidate = [] ∨ (list_to_set candidate : gset Z) ≠ list_to_set stream_ids →
   out = (w, Refused)
   ∧ update_calls (fst out) = update_calls w
   ∧ channel_streams (fst out) = channel_streams w)
  ∧ (candidate = stream_ids → out = (w, Unchanged))
  ∧ (candidate ≠ stream_ids → candidate ≠ [] →
     (list_to_set candidate : gset Z) = list_to_set stream_ids →
     out = (update_channel_streams channel_id candidate accepted w, Written accepted)
     ∧ update_calls (fst out) = update_calls w ++ [(channel_id, candidate)])
  ∧ ∀ parse_name now streams,
      omap fid streams = stream_ids →
      map id (ordered now (streams_data_from parse_name 0 streams)) ≡ₚ stream_ids.
Proof.
  intros Hne out. subst out. split_and!.
  - intros Hbad.
    assert (H : write_reordered channel_id stream_ids candidate accepted w = (w, Refused)).
    { unfold write_reordered. destruct Hbad as [->|Hset].
      - rewrite bool_decide_eq_true_2 by done. by rewrite bool_decide_eq_true_2.
      - rewrite bool_decide_eq_true_2 by (by intros ->).
        case_bool_decide; [done|]. by rewrite bool_decide_eq_true_2. }
    by rewrite H.
  - intros ->. unfold write_reordered.
    by rewrite bool_decide_eq_false_2 by (intros H; by apply H).
  - intros Hdiff Hcand Hset. unfold write_reordered.
    rewrite bool_decide_eq_true_2 by done.
    rewrite bool_decide_eq_false_2 by done.
    rewrite bool_decide_eq_false_2 by (intros H; by apply H).
    done.
  - intros parse_name now streams <-. apply candidate_perm.
Qed.

(** A candidate that lost stream 3 is refused. *)
Lemma reorder_safeguard_witness :
  [1; 2; 3] ≠ ([] : list Z)
  ∧ (list_to_set [1; 2] : gset Z) ≠ list_to_set [1; 2; 3]
  ∧ write_reordered 5 [1; 2; 3] [1; 2] true (mkApi ∅ []) = (mkApi ∅ [], Refused).
Proof.
  assert (H1 : [1; 2; 3] ≠ ([] : list Z)) by discriminate.
  assert (H2 : (list_to_set [1; 2] : gset Z) ≠ list_to_set [1; 2; 3]).
  { apply (bool_decide_unpack _). vm_compute. reflexivity. }
  split_and!; [exact H1|exact H2|].
  exact (proj1 (proj1 (reorder_safeguard 5 [1; 2; 3] [1; 2] true (mkApi ∅ []) H1)
                  (or_intror H2))).
Defined.

(** C7 as first stated fails on a candidate with a repeated id: for the
    input 1, 2 the candidate 1, 2, 2 is not a permutation of the input,
    yet it has the input's set of ids, so the update call is issued and
    the channel gets the list with the repeated id. *)
Lemma repeated_id_is_written :
  let out := write_reordered 5 [1; 2] [1; 2; 2] true (mkApi {[5 := [1; 2]]} []) in
  length [1; 2; 2] ≠ length [1; 2]
  ∧ (list_to_set [1; 2; 2] : gset Z) = list_to_set [1; 2]
  ∧ snd out = Written true
  ∧ update_calls (fst out) = [(5, [1; 2; 2])]
  ∧ channel_streams (fst out) !! 5 = Some [1; 2; 2].
Proof.
  cbv zeta. split_and!; [discriminate| |vm_compute; reflexivity..].
  apply (bool_decide_unpack _). vm_compute. reflexivity.
Qed.

End EventOrderFacts.

(** ** Configuration *)

Module ConfigFacts.
Import Config PyDictFacts.

(** [d.update(other)] lets [other] win, key by key. *)
Lemma get_update {V} (d other : list (string * V)) (k : string) :
  NoDup (PyDict.keys other) →
  PyDict.get k (PyDict.update d other)
  = match PyDict.get k other with
    | Some v => Some v
    | None => PyDict.get k d
    end.
Proof.
  unfold PyDict.update, PyDict.keys.
  revert d. induction other as [|[k0 v0] other IH]; intros d Hnd; [done|].
  apply NoDup_cons in Hnd as [Hnotin Hnd]. cbn [fold_left fst snd map] in *.
  rewrite IH by done. cbn [PyDict.get].
  destruct (decide (k = k0)) as [->|Hne].
  - apply get_None_keys in Hnotin. rewrite Hnotin. apply get_set_eq.
  - rewrite get_set_ne by done. done.
Qed.

Lemma keyed_set (k : string) (v : json) (d : list (string * json)) :
  PyDict.set (KStr k) v (keyed d) = keyed (PyDict.set k v d).
Proof.
  induction d as [|[k' v'] d IH]; [done|]. cbn [keyed map PyDict.set fst snd].
  destruct (decide (k = k')) as [->|Hne].
  - by rewrite decide_True.
  - rewrite decide_False by congruence. cbn [map fst snd]. f_equal. apply IH.
Qed.

Lemma keyed_update (loaded : list (string * json)) : ∀ d,
  PyDict.update (keyed d) (keyed loaded) = keyed (PyDict.update d loaded).
Proof.
  unfold PyDict.update. induction loaded as [|[k v] loaded IH]; intros d; [done|].
  cbn [keyed map fold_left fst snd]. rewrite keyed_set. apply IH.
Qed.

Lemma get_keyed (k : string) (d : list (string * json)) :
  PyDict.get (KStr k) (keyed d) = PyDict.get k d.
Proof.
  induction d as [|[k' v'] d IH]; [done|]. cbn [keyed map PyDict.get fst snd].
  destruct (decide (k = k')) as [->|Hne].
  - by rewrite decide_True.
  - by rewrite decide_False by congruence.
Qed.

(** A list of [key, value] pairs is taken by [dict.update] like the dict
    with these items. *)
Lemma update_from_as_pairs (fields : list (string * json)) : ∀ config,
  update_from_pairs config (as_pairs fields) = Some (PyDict.update config (keyed fields)).
Proof.
  unfold PyDict.update. induction fields as [|[k v] fields IH]; intros config; [done|].
  cbn [as_pairs map update_from_pairs pair_of elements key_of fst snd keyed fold_left].
  apply IH.
Qed.

(** One element that is not a pair makes the whole update raise. *)
Lemma update_from_pairs_raises (items : list json) (item : json) : ∀ config,
  item ∈ items → pair_of item = None → update_from_pairs config items = None.
Proof.
  induction items as [|x items IH]; intros config Hin Hbad.
  - by apply elem_of_nil in Hin.
  - cbn [update_from_pairs]. destruct (pair_of x) as [[k v]|] eqn:Hx; [|done].
    apply elem_of_cons in Hin as [->|Hin]; [congruence|]. by apply IH.
Qed.

(** C10, amended.  A config file that holds a JSON object is loaded by
    putting each of its top-level keys over the default as a whole, the
    defaults of the keys it lacks being kept.  A file that holds another
    JSON value is not merged in this way: for [null], a boolean, a number
    or a non-empty string [config.update(loaded)] raises and the
    exception leaves the constructor; an empty string or list leaves the
    defaults; a list of [key, value] pairs is taken like the object with
    these items, and a list raises when one of its elements does not
    yield exactly two values, the first of them hashable.
    A file with only [scoring.min_score] thus loses the default
    [scoring.weights] and [scoring.prefer_h265], whereas the same object
    applied by [update] keeps them. *)
Theorem load_config_merges_top_level (loaded : json) :
  match loaded with
  | JObj fields =>
      NoDup (PyDict.keys fields) →
      load_config_file (Parsed loaded) = Some (keyed (load_config (Some fields)))
      ∧ (∀ k v, PyDict.get k fields = Some v →
                PyDict.get k (load_config (Some fields)) = Some v)
      ∧ (∀ k, PyDict.get k fields = None →
              PyDict.get k (load_config (Some fields)) = PyDict.get k DEFAULT_CONFIG)
  | JNull | JBool _ | JNum _ => load_config_file (Parsed loaded) = None
  | JStr s =>
      load_config_file (Parsed loaded)
      = if Str.is_empty s then Some (keyed DEFAULT_CONFIG) else None
  | JArr items =>
      (items = [] → load_config_file (Parsed loaded) = Some (keyed DEFAULT_CONFIG))
      ∧ (∀ fields, items = as_pairs fields →
                   load_config_file (Parsed loaded)
                   = load_config_file (Parsed (JObj fields)))
      ∧ (∀ item, item ∈ items → pair_of item = None →
                 load_config_file (Parsed loaded) = None)
  end
  ∧ get_path ["scoring"; "min_score"]%string (JObj (load_config (Some scoring_only)))
    = Some (JNum (5 # 10))
  ∧ get_path ["scoring"; "weights"]%string (JObj (load_config (Some scoring_only))) = None
  ∧ get_path ["scoring"; "prefer_h265"]%string (JObj (load_config (Some scoring_only))) = None
  ∧ get_path ["scoring"; "min_score"]%string (JObj (update DEFAULT_CONFIG scoring_only))
    = Some (JNum (5 # 10))
  ∧ get_path ["scoring"; "weights"]%string (JObj (update DEFAULT_CONFIG scoring_only))
    = get_path ["scoring"; "weights"]%string (JObj DEFAULT_CONFIG)
  ∧ get_path ["scoring"; "prefer_h265"]%string (JObj (update DEFAULT_CONFIG scoring_only))
    = Some (JBool true).
Proof.
  split; [|split_and!; vm_compute; reflexivity].
  destruct loaded as [|b|q|s|items|fields]; try reflexivity.
  - destruct s as [|c s]; reflexivity.
  - split_and!.
    + by intros ->.
    + intros fields ->. cbn [load_config_file elements]. apply update_from_as_pairs.
    + intros item Hin Hbad. cbn [load_config_file elements].
      by apply (update_from_pairs_raises items item).
  - intros Hnd. split_and!.
    + cbn [load_config_file load_config]. by rewrite keyed_update.
    + intros k v Hk. cbn [load_config]. by rewrite get_update, Hk.
    + intros k Hk. cbn [load_config]. by rewrite get_update, Hk.
Qed.

(** The [scoring] section of the sample file replaces the default one. *)
Lemma load_config_merges_top_level_witness :
  NoDup (PyDict.keys scoring_only)
  ∧ load_config_file (Parsed (JObj scoring_only))
    = Some (keyed (load_config (Some scoring_only)))
  ∧ PyDict.get "scoring"%string (load_config (Some scoring_only))
    = Some (JObj [("min_score", JNum (5 # 10))]%string).
Proof.
  assert (H : NoDup (PyDict.keys scoring_only)).
  { apply NoDup_singleton. }
  destruct (proj1 (load_config_merges_top_level (JObj scoring_only)) H) as (Hload & Hget & _).
  split_and!; [exact H|exact Hload|].
  apply Hget. reflexivity.
Defined.

(** C10 as first stated fails on a file that holds a JSON value other
    than an object: for the number 5, for [null] and for the string
    ["ab"] no configuration is returned, the constructor raises. *)
Lemma scalar_config_file_raises :
  load_config_file (Parsed (num 5)) = None
  ∧ load_config_file (Parsed JNull) = None
  ∧ load_config_file (Parsed (JStr "ab")) = None
  ∧ load_config_file (Parsed (JArr [num 5])) = None.
Proof. split_and!; vm_compute; reflexivity. Qed.

End ConfigFacts.

(** ** The update tracker: further properties *)

Module TrackerOpsFacts.
Import Tracker TrackerOps PyDictFacts TrackerFacts.

Lemma flagged_ids_cons c (info : gmap string pyval) d :
  flagged_ids ((c, info) :: d)
  = if needs_check info then c :: flagged_ids d else flagged_ids d.
Proof.
  unfold flagged_ids. rewrite filter_cons. cbn [snd].
  destruct (needs_check info); [by rewrite decide_True|by rewrite decide_False].
Qed.

Lemma claim_loop_rest m ts items : ∀ acc,
  flagged_ids (fst (claim_loop m ts items acc))
  = drop (quota m (length acc) (length (flagged_ids items))) (flagged_ids items).
Proof.
  induction items as [|[c info] rest IH]; intros acc; cbn [claim_loop].
  - cbn. by rewrite drop_nil.
  - rewrite flagged_ids_cons. destruct (needs_check info) eqn:Hn.
    + destruct (limit_reached m (length (acc ++ [c]))) eqn:Hl.
      * cbn [fst]. rewrite flagged_ids_cons, needs_check_claim_entry.
        unfold limit_reached in Hl. destruct m as [m|]; [|done].
        rewrite length_app in Hl. cbn [length] in Hl.
        apply andb_true_iff in Hl as [H0 Hle].
        apply negb_true_iff in H0. unfold quota. rewrite H0.
        apply Z.leb_le in Hle.
        by replace (Z.to_nat (Z.max 1 (m - Z.of_nat (length acc)))) with 1%nat by lia.
      * specialize (IH (acc ++ [c])).
        destruct (claim_loop m ts rest (acc ++ [c])) as [rest' out]. cbn [fst] in *.
        rewrite flagged_ids_cons, needs_check_claim_entry, IH.
        unfold limit_reached in Hl. unfold quota. destruct m as [m|]; [|done].
        rewrite length_app in *. cbn [length] in *.
        destruct (m =? 0) eqn:H0; [done|]. cbn [negb andb] in Hl.
        apply Z.leb_gt in Hl.
        by replace (Z.to_nat (Z.max 1 (m - Z.of_nat (length acc))))
          with (S (Z.to_nat (Z.max 1 (m - Z.of_nat (length acc + 1))))) by lia.
    + specialize (IH acc).
      destruct (claim_loop m ts rest acc) as [rest' out]. cbn [fst] in *.
      by rewrite flagged_ids_cons, Hn.
Qed.

(** X1.  What a claim returns, followed by what is still flagged after it,
    is exactly what was flagged before it, in the same order; a claim
    without a bound ([None] or 0) leaves nothing flagged. *)
Theorem claim_splits_pending (max_channels : option Z) (timestamp : string) (u : updates) :
  snd (get_and_clear_channels_needing_check max_channels timestamp u)
  ++ get_channels_needing_check
       (fst (get_and_clear_channels_needing_check max_channels timestamp u))
  = get_channels_needing_check u
  ∧ get_channels_needing_check
      (fst (get_and_clear_channels_needing_check None timestamp u)) = []
  ∧ get_channels_needing_check
      (fst (get_and_clear_channels_needing_check (Some 0) timestamp u)) = [].
Proof.
  assert (H : ∀ m,
    let r := get_and_clear_channels_needing_check m timestamp u in
    snd r = take (quota m 0 (length (get_channels_needing_check u)))
              (get_channels_needing_check u)
    ∧ get_channels_needing_check (fst r)
      = drop (quota m 0 (length (get_channels_needing_check u)))
          (get_channels_needing_check u)).
  { intros m. unfold get_and_clear_channels_needing_check, get_channels_needing_check,
      channels_or_empty.
    destruct (channels u) as [d|] eqn:Hd; cbn [fst snd].
    2:{ rewrite Hd. unfold flagged_ids. cbn [filter list_filter map].
        by rewrite take_nil, drop_nil. }
    pose proof (claim_loop_out m timestamp d []) as Hout.
    pose proof (claim_loop_rest m timestamp d []) as Hrest.
    destruct (claim_loop m timestamp d []) as [d' out]. cbn [fst snd channels length] in *.
    by rewrite Hout, Hrest. }
  split_and!.
  - destruct (H max_channels) as [-> ->]. apply take_drop.
  - destruct (H None) as [_ ->]. apply drop_all.
  - destruct (H (Some 0)) as [_ ->]. apply drop_all.
Qed.

(** X2.  The stream ids recorded by [mark_channel_checked] are what
    [get_checked_stream_ids] returns for that channel, also after a later
    [mark_channel_updated]; the other channels' lists are untouched, and a
    call that passes no list keeps the recorded one.  The check clears the
    channel's [needs_check]; the later update sets it again. *)
Theorem checked_ids_round_trip (c : Z) (ts ts' : string) (sc : option Z) (sc' : pyval)
    (ids : list Z) (u : updates) :
  (∀ c', get_checked_stream_ids c' (mark_channel_checked c ts sc (Some ids) u)
         = if decide (c' = c) then PIds ids else get_checked_stream_ids c' u)
  ∧ get_checked_stream_ids c
      (mark_channel_updated c ts' sc' (mark_channel_checked c ts sc (Some ids) u))
    = PIds ids
  ∧ (∀ c', get_checked_stream_ids c' (mark_channel_checked c ts sc None u)
           = get_checked_stream_ids c' u)
  ∧ flagged c (mark_channel_checked c ts sc (Some ids) u) = false
  ∧ flagged c (mark_channel_checked c ts sc None u) = false
  ∧ flagged c (mark_channel_updated c ts' sc' (mark_channel_checked c ts sc (Some ids) u))
    = true.
Proof.
  split_and!.
  - intros c'. unfold get_checked_stream_ids, mark_channel_checked.
    cbn [channels_or_empty channels]. fold (channels_or_empty u).
    destruct (decide (c' = c)) as [->|Hne].
    + rewrite get_set_eq. unfold checked_ids_of.
      destruct (PyDict.get c (channels_or_empty u)) as [info|].
      * by rewrite lookup_insert_eq.
      * rewrite !lookup_insert_ne by done. by rewrite lookup_insert_eq.
    + by rewrite get_set_ne.
  - unfold get_checked_stream_ids. cbn [mark_channel_updated channels_or_empty channels].
    rewrite get_mark_in, decide_True by done. rewrite checked_ids_of_fresh_entry.
    unfold mark_channel_checked. cbn [channels_or_empty channels].
    fold (channels_or_empty u). rewrite get_set_eq. unfold checked_ids_of.
    destruct (PyDict.get c (channels_or_empty u)) as [info|].
    + by rewrite lookup_insert_eq.
    + rewrite !lookup_insert_ne by done. by rewrite lookup_insert_eq.
  - intros c'. unfold get_checked_stream_ids, mark_channel_checked.
    cbn [channels_or_empty channels]. fold (channels_or_empty u).
    destruct (decide (c' = c)) as [->|Hne].
    + rewrite get_set_eq. unfold checked_ids_of.
      destruct (PyDict.get c (channels_or_empty u)) as [info|].
      * destruct sc; by rewrite !lookup_insert_ne by done.
      * rewrite !lookup_insert_ne by done. by rewrite lookup_insert_eq.
    + by rewrite get_set_ne.
  - unfold flagged, dict_flag, mark_channel_checked.
    cbn [channels_or_empty channels]. fold (channels_or_empty u).
    rewrite get_set_eq. unfold needs_check.
    destruct (PyDict.get c (channels_or_empty u)) as [info|].
    + destruct sc; rewrite !lookup_insert_ne by done; by rewrite lookup_insert_eq.
    + by rewrite lookup_insert_eq.
  - unfold flagged, dict_flag, mark_channel_checked.
    cbn [channels_or_empty channels]. fold (channels_or_empty u).
    rewrite get_set_eq. unfold needs_check.
    destruct (PyDict.get c (channels_or_empty u)) as [info|].
    + destruct sc; rewrite !lookup_insert_ne by done; by rewrite lookup_insert_eq.
    + by rewrite lookup_insert_eq.
  - rewrite flagged_mark. by rewrite decide_True.
Qed.


Lemma should_force_check_get c u :
  should_force_check c u
  = match PyDict.get c (channels_or_empty u) with
    | Some info => match info !! "force_check"%string with
                   | Some v => truthy v
                   | None => false
                   end
    | None => false
    end.
Proof. done. Qed.

(** X3.  The force-check flag of a channel is set by
    [mark_channel_for_force_check] and unset by [clear_force_check]; neither
    changes any channel's [needs_check].  Claiming channels and recording a
    finished check leave the flag as it is, and clearing the flag of an
    untracked channel changes nothing. *)
Theorem force_check_lifecycle (c : Z) (u : updates) :
  wf u →
  should_force_check c (mark_channel_for_force_check c u) = true
  ∧ should_force_check c (clear_force_check c u) = false
  ∧ (∀ c', flagged c' (mark_channel_for_force_check c u) = flagged c' u)
  ∧ (∀ c', flagged c' (clear_force_check c u) = flagged c' u)
  ∧ (∀ max_channels ts,
       should_force_check c (fst (get_and_clear_channels_needing_check max_channels ts u))
       = should_force_check c u)
  ∧ (∀ c' ts sc ids,
       should_force_check c (mark_channel_checked c' ts sc ids u) = should_force_check c u)
  ∧ match PyDict.get c (channels_or_empty u) with
    | Some _ => True
    | None => clear_force_check c u = u
    end.
Proof.
  intros Hwf. split_and!.
  - rewrite should_force_check_get. unfold mark_channel_for_force_check.
    cbn [channels_or_empty channels]. rewrite get_set_eq. by rewrite lookup_insert_eq.
  - rewrite should_force_check_get. unfold clear_force_check.
    destruct (PyDict.get c (channels_or_empty u)) as [info|] eqn:Hc.
    + cbn [channels_or_empty channels]. rewrite get_set_eq. by rewrite lookup_insert_eq.
    + by rewrite Hc.
  - intros c'. unfold flagged, dict_flag, mark_channel_for_force_check.
    cbn [channels_or_empty channels]. fold (channels_or_empty u).
    destruct (decide (c = c')) as [->|Hne]; [|by rewrite get_set_ne].
    rewrite get_set_eq. unfold needs_check. rewrite lookup_insert_ne by done.
    by destruct (PyDict.get c' (channels_or_empty u)).
  - intros c'. unfold flagged, dict_flag, clear_force_check.
    destruct (PyDict.get c (channels_or_empty u)) as [info|] eqn:Hc; [|done].
    cbn [channels_or_empty channels]. fold (channels_or_empty u).
    destruct (decide (c = c')) as [->|Hne]; [|by rewrite get_set_ne].
    rewrite get_set_eq, Hc. unfold needs_check. by rewrite lookup_insert_ne.
  - intros m ts. rewrite !should_force_check_get.
    pose proof (get_and_clear_result m ts u Hwf) as Hres.
    destruct (get_and_clear_channels_needing_check m ts u) as [u' ids].
    destruct Hres as [_ Hget]. cbn [fst]. rewrite Hget.
    case_bool_decide; [|done].
    destruct (PyDict.get c (channels_or_empty u)) as [info|]; [|done].
    cbn [fmap option_fmap option_map]. unfold claim_entry.
    by rewrite !lookup_insert_ne.
  - intros c' ts sc ids. rewrite !should_force_check_get. unfold mark_channel_checked.
    cbn [channels_or_empty channels]. fold (channels_or_empty u).
    destruct (decide (c' = c)) as [->|Hne]; [|by rewrite get_set_ne].
    rewrite get_set_eq.
    destruct (PyDict.get c (channels_or_empty u)) as [info|].
    + destruct sc, ids; by rewrite !lookup_insert_ne.
    + by rewrite !lookup_insert_ne.
  - unfold clear_force_check. by destruct (PyDict.get c (channels_or_empty u)).
Qed.

Lemma force_check_lifecycle_witness :
  wf two_channels
  ∧ should_force_check 9
      (fst (get_and_clear_channels_needing_check None "2025-01-01T00:03:00" two_channels))
    = should_force_check 9 two_channels.
Proof.
  split; [exact wf_two_channels|].
  exact (proj1 (proj2 (proj2 (proj2 (proj2
           (force_check_lifecycle 9 two_channels wf_two_channels)))))
           None "2025-01-01T00:03:00"%string).
Defined.

Lemma keys_set_prefix {V} (k : Z) (v : V) (d : list (Z * V)) :
  PyDict.keys d `prefix_of` PyDict.keys (PyDict.set k v d).
Proof.
  rewrite keys_set. case_bool_decide; [done|]. by apply prefix_app_r.
Qed.

Lemma apply_keys (u : updates) (c : call) :
  wf u →
  wf (apply u c)
  ∧ PyDict.keys (channels_or_empty u) `prefix_of` PyDict.keys (channels_or_empty (apply u c)).
Proof.
  intros Hwf. destruct c as [o|c ts sc ids|c|c|ts]; cbn [apply].
  - destruct o as [c ts sc|cs ts scs|m ts]; cbn [step fst].
    + split; [by apply wf_mark|]. cbn [mark_channel_updated channels_or_empty channels].
      unfold mark_in. destruct (PyDict.get c _); apply keys_set_prefix.
    + split; [by apply wf_marks|].
      cbn [mark_channels_updated channels_or_empty channels]. fold (channels_or_empty u).
      generalize (channels_or_empty u). clear Hwf.
      induction cs as [|c cs IH]; intros d; cbn [fold_left]; [done|].
      etrans; [|apply IH]. unfold mark_in. destruct (PyDict.get c d); apply keys_set_prefix.
    + unfold get_and_clear_channels_needing_check in *. unfold wf, channels_or_empty in *.
      destruct (channels u) as [d|] eqn:Hd; cbn [fst].
      2:{ by rewrite Hd. }
      pose proof (claim_loop_state m ts d [] Hwf) as (picked & _ & _ & Hkeys & _).
      destruct (claim_loop m ts d []) as [d' out]. cbn [fst channels] in *.
      rewrite Hkeys. done.
  - unfold mark_channel_checked, wf. cbn [channels_or_empty channels].
    split; [by apply NoDup_keys_set|apply keys_set_prefix].
  - unfold mark_channel_for_force_check, wf. cbn [channels_or_empty channels].
    split; [by apply NoDup_keys_set|apply keys_set_prefix].
  - unfold clear_force_check. destruct (PyDict.get c (channels_or_empty u)); [|done].
    unfold wf. cbn [channels_or_empty channels].
    split; [by apply NoDup_keys_set|apply keys_set_prefix].
  - done.
Qed.

(** X4.  No method of the tracker removes or reorders a channel: along
    any sequence of calls the dictionary keeps its keys unique, and the
    keys it had stay where they were, new channels being appended. *)
Theorem tracker_keys_only_grow (calls : list call) (u : updates) :
  wf u →
  wf (fold_left apply calls u)
  ∧ PyDict.keys (channels_or_empty u)
    `prefix_of` PyDict.keys (channels_or_empty (fold_left apply calls u)).
Proof.
  revert u. induction calls as [|c calls IH]; intros u Hwf; cbn [fold_left]; [done|].
  destruct (apply_keys u c Hwf) as [Hwf1 Hp1].
  destruct (IH _ Hwf1) as [Hwf2 Hp2]. split; [done|]. by etrans.
Qed.

Lemma tracker_keys_only_grow_witness :
  wf two_channels
  ∧ PyDict.keys (channels_or_empty two_channels)
    `prefix_of` PyDict.keys (channels_or_empty
       (fold_left apply [ForceCheck 11; Checked 7 "2025-01-01T00:05:00" (Some 3) None]
          two_channels)).
Proof.
  split; [exact wf_two_channels|].
  exact (proj2 (tracker_keys_only_grow
                  [ForceCheck 11; Checked 7 "2025-01-01T00:05:00"%string (Some 3) None]
                  two_channels wf_two_channels)).
Defined.

End TrackerOpsFacts.

(** ** The work queue: further properties *)

Module WorkQueueOpsFacts.
Import WorkQueue WorkQueueOps.

Lemma consistent_init (max_size : Z) : consistent (init max_size).
Proof.
  split; unfold qsize; cbn; [apply NoDup_nil_2|done|set_solver|lia|done].
Qed.

Lemma add_channel_shape (channel_id priority : Z) (q : t) :
  (add_channel channel_id priority q = (q, false)
   ∧ ((channel_id ∈ queued q ∪ in_progress q ∪ completed q) ∨ full q = true))
  ∨ ((channel_id ∉ queued q) ∧ (channel_id ∉ in_progress q) ∧ (channel_id ∉ completed q)
     ∧ full q = false
     ∧ add_channel channel_id priority q
       = (mkQueue (max_size q) (queue q ++ [(priority, channel_id)])
            ({[channel_id]} ∪ queued q) (in_progress q) (completed q) (failed q)
            (mkStats (total_queued (st q) + 1) (total_completed (st q))
               (total_failed (st q)) (current_channel (st q))
               (Z.of_nat (length (queue q ++ [(priority, channel_id)])))),
          true)).
Proof.
  unfold add_channel.
  destruct (decide (channel_id ∈ queued q)) as [H1|H1].
  { left. rewrite (bool_decide_eq_false_2 (channel_id ∉ queued q)) by (by intros ?).
    split; [done|]. left. by apply elem_of_union_l, elem_of_union_l. }
  destruct (decide (channel_id ∈ in_progress q)) as [H2|H2].
  { left. rewrite (bool_decide_eq_false_2 (channel_id ∉ in_progress q)) by (by intros ?).
    rewrite andb_false_r. split; [done|]. left. by apply elem_of_union_l, elem_of_union_r. }
  destruct (decide (channel_id ∈ completed q)) as [H3|H3].
  { left. rewrite (bool_decide_eq_false_2 (channel_id ∉ completed q)) by (by intros ?).
    rewrite andb_false_r. split; [done|]. left. by apply elem_of_union_r. }
  rewrite !bool_decide_eq_true_2 by done. cbn [andb].
  destruct (full q) eqn:Hf.
  - left. split; [done|]. by right.
  - right. done.
Qed.

Lemma consistent_add (channel_id priority : Z) (q : t) :
  consistent q → consistent (fst (add_channel channel_id priority q)).
Proof.
  intros [Hnd Hq Hdisj Hb Hs].
  destruct (add_channel_shape channel_id priority q)
    as [[-> _]|(H1 & H2 & H3 & Hf & ->)]; [done|].
  cbn [fst]. split; cbn [queue queued in_progress max_size st queue_size].
  - rewrite map_app. cbn [map snd]. apply NoDup_app. split_and!; [done| |apply NoDup_singleton].
    intros x Hx ->%list_elem_of_singleton. apply H1. rewrite Hq.
    by apply elem_of_list_to_set.
  - rewrite map_app, list_to_set_app_L, <- Hq. cbn. set_solver.
  - set_solver.
  - unfold full, qsize in *. cbn [queue max_size]. rewrite length_app. cbn [length].
    intros Hpos. apply andb_false_iff in Hf as [Hf|Hf].
    { apply Z.ltb_ge in Hf. lia. }
    apply Z.leb_gt in Hf. lia.
  - done.
Qed.

Lemma consistent_adds (channel_ids : list Z) (priority : Z) : ∀ q,
  consistent q → consistent (fst (add_channels channel_ids priority q)).
Proof.
  induction channel_ids as [|c cs IH]; intros q Hc; cbn [add_channels]; [done|].
  pose proof (consistent_add c priority q Hc) as H1.
  destruct (add_channel c priority q) as [q1 ok]. cbn [fst] in H1.
  specialize (IH q1 H1). destruct (add_channels cs priority q1) as [q2 n]. done.
Qed.

Lemma consistent_next (q : t) : consistent q → consistent (fst (get_next_channel q)).
Proof.
  intros Hc. unfold get_next_channel.
  destruct (queue q) as [|[p c] rest] eqn:Hqueue; [done|].
  destruct Hc as [Hnd Hq Hdisj Hb Hs]. rewrite Hqueue in Hnd, Hq.
  cbn [map snd] in *. apply NoDup_cons in Hnd as [Hc Hnd].
  cbn [fst]. split; cbn [queue queued in_progress max_size st queue_size].
  - done.
  - rewrite Hq. cbn [list_to_set foldr].
    assert (c ∉ (list_to_set (map snd rest) : gset Z)) by by rewrite elem_of_list_to_set.
    set_solver.
  - set_solver.
  - unfold qsize in *. rewrite Hqueue in Hb. cbn [queue length] in *. lia.
  - done.
Qed.

Lemma consistent_apply (q : t) (c : call) : consistent q → consistent (apply q c).
Proof.
  intros Hc. destruct c; cbn [apply].
  - by apply consistent_add.
  - by apply consistent_adds.
  - by apply consistent_next.
  - destruct Hc as [Hnd Hq Hdisj Hb Hs]. split; cbn; try done. set_solver.
  - destruct Hc as [Hnd Hq Hdisj Hb Hs]. split; cbn; try done. set_solver.
  - unfold remove_from_completed. case_bool_decide; [|done].
    destruct Hc as [Hnd Hq Hdisj Hb Hs]. by split.
  - apply consistent_init.
Qed.

(** X5.  Whatever calls a new queue receives, it stays consistent: no
    channel is queued twice, the [queued] set is exactly the set of
    channels in the queue, no channel is both queued and in progress, a
    positive [max_size] is never exceeded, and the recorded [queue_size] is
    the real one. *)
Theorem queue_stays_consistent (max_size : Z) (calls : list call) :
  consistent (fold_left apply calls (init max_size)).
Proof.
  generalize (consistent_init max_size). generalize (init max_size).
  induction calls as [|c calls IH]; intros q Hq; cbn [fold_left]; [done|].
  by apply IH, consistent_apply.
Qed.


Lemma drain_queue (n : nat) : ∀ q,
  (length (queue q) ≤ n)%nat →
  snd (drain n q) = map snd (queue q)
  ∧ queue (fst (drain n q)) = []
  ∧ in_progress (fst (drain n q)) = list_to_set (map snd (queue q)) ∪ in_progress q
  ∧ completed (fst (drain n q)) = completed q.
Proof.
  induction n as [|n IH]; intros q Hlen.
  - destruct (queue q) eqn:Hq; [|cbn in Hlen; lia].
    cbn [drain fst snd]. rewrite Hq. cbn. split_and!; try done. set_solver.
  - cbn [drain]. unfold get_next_channel.
    destruct (queue q) as [|[p c] rest] eqn:Hq.
    + cbn [fst snd]. rewrite Hq. cbn. split_and!; try done. set_solver.
    + cbn [length] in Hlen.
      match goal with |- context [drain n ?q1] => specialize (IH q1) end.
      cbn [queue in_progress completed] in IH.
      destruct IH as (H1 & H2 & H3 & H4); [lia|].
      match goal with |- context [drain n ?q1] => destruct (drain n q1) as [q2 served] end.
      cbn [fst snd map] in *. rewrite H1, H2, H3, H4. split_and!; try done.
      cbn [list_to_set foldr]. set_solver.
Qed.

(** X6.  Emptying the queue serves the channels in the order they were
    accepted, whatever their priorities; afterwards the queue is empty,
    the next call gives [None], and the served channels are in progress. *)
Theorem drain_serves_in_arrival_order (q : t) :
  let '(q', served) := drain (length (queue q)) q in
  served = map snd (queue q)
  ∧ queue q' = []
  ∧ snd (get_next_channel q') = None
  ∧ in_progress q' = list_to_set served ∪ in_progress q.
Proof.
  pose proof (drain_queue (length (queue q)) q (le_n _)) as (H1 & H2 & H3 & _).
  destruct (drain (length (queue q)) q) as [q' served]. cbn [fst snd] in *.
  subst served. split_and!; try done. unfold get_next_channel. by rewrite H2.
Qed.

(** X7.  [add_channels] returns the number of entries it appended: the
    old queue is a prefix of the new one, which is longer by the count
    returned, as is the [total_queued] counter; the count is at most the
    number of ids given; and the channels appended are given ids. *)
Theorem add_channels_counts (channel_ids : list Z) (priority : Z) (q : t) :
  let '(q', added) := add_channels channel_ids priority q in
  ∃ new,
    queue q' = queue q ++ map (fun c => (priority, c)) new
    ∧ added = Z.of_nat (length new)
    ∧ new ⊆ channel_ids
    ∧ (length new ≤ length channel_ids)%nat
    ∧ total_queued (st q') = total_queued (st q) + added
    ∧ in_progress q' = in_progress q
    ∧ completed q' = completed q.
Proof.
  revert q. induction channel_ids as [|c cs IH]; intros q; cbn [add_channels].
  - exists []. cbn. rewrite app_nil_r. split_and!; try done. lia.
  - destruct (add_channel_shape c priority q) as [[Heq _]|(_ & _ & _ & _ & Heq)];
      rewrite Heq; clear Heq.
    + specialize (IH q). destruct (add_channels cs priority q) as [q2 n].
      destruct IH as (new & H1 & H2 & H3 & H4 & H5 & H6 & H7).
      exists new. split_and!; try done; [set_solver|cbn [length]; lia].
    + match goal with |- context [add_channels cs priority ?q1] => specialize (IH q1) end.
      match goal with |- context [add_channels cs priority ?q1] =>
        destruct (add_channels cs priority q1) as [q2 n] end.
      cbn [queue st total_queued in_progress completed] in IH.
      destruct IH as (new & H1 & H2 & H3 & H4 & H5 & H6 & H7).
      exists (c :: new). cbn [map length]. split_and!; try done.
      * by rewrite H1, <- app_assoc.
      * lia.
      * set_solver.
      * lia.
      * lia.
Qed.

(** X8.  A channel that has been handed out cannot be queued again while
    it is in progress, nor after [mark_completed] until
    [remove_from_completed] is called.  After [mark_failed] it can be
    queued again at once, unless it was in the completed set when it was
    handed out: [mark_failed] leaves that set as it is, and a channel may
    be marked completed while it waits in the queue. *)
Theorem requeue_after_check (q : t) (channel_id priority : Z) (rest : list (Z * Z))
    (priority' : Z) (error timestamp : string) :
  consistent q →
  queue q = (priority, channel_id) :: rest →
  let q1 := fst (get_next_channel q) in
  snd (add_channel channel_id priority' q1) = false
  ∧ snd (add_channel channel_id priority' (mark_completed channel_id q1)) = false
  ∧ snd (add_channel channel_id priority'
           (fst (remove_from_completed channel_id (mark_completed channel_id q1)))) = true
  ∧ snd (add_channel channel_id priority' (mark_failed channel_id error timestamp q1))
    = bool_decide (channel_id ∉ completed q).
Proof.
  intros [Hnd Hq Hdisj Hb Hs] Hqueue q1. subst q1.
  unfold get_next_channel. rewrite Hqueue. cbn [fst].
  rewrite Hqueue in Hnd, Hq. cbn [map snd] in *. apply NoDup_cons in Hnd as [Hc Hnd].
  assert (Hrest : channel_id ∉ (list_to_set (map snd rest) : gset Z))
    by by rewrite elem_of_list_to_set.
  assert (Hfull : (0 <? max_size q) && (max_size q <=? Z.of_nat (length rest)) = false).
  { unfold qsize in Hb. rewrite Hqueue in Hb. cbn [length] in Hb.
    destruct (0 <? max_size q) eqn:Hpos; [|done]. apply Z.ltb_lt in Hpos.
    cbn [andb]. apply Z.leb_gt. lia. }
  assert (Hip : channel_id ∉ in_progress q) by set_solver.
  split_and!.
  - unfold add_channel. cbn [queued in_progress completed].
    rewrite (bool_decide_eq_false_2 (channel_id ∉ {[channel_id]} ∪ in_progress q))
      by set_solver.
    by rewrite andb_false_r.
  - unfold add_channel, mark_completed. cbn [queued in_progress completed].
    rewrite (bool_decide_eq_false_2 (channel_id ∉ {[channel_id]} ∪ completed q))
      by set_solver.
    by rewrite andb_false_r.
  - unfold remove_from_completed, mark_completed. cbn [queued in_progress completed].
    rewrite bool_decide_eq_true_2 by set_solver. cbn [fst].
    unfold add_channel, full, qsize.
    cbn [queued in_progress completed max_size queue].
    rewrite !bool_decide_eq_true_2 by set_solver. cbn [andb]. by rewrite Hfull.
  - unfold add_channel, mark_failed, full, qsize.
    cbn [queued in_progress completed max_size queue].
    rewrite (bool_decide_eq_true_2 (channel_id ∉ queued q ∖ {[channel_id]})) by set_solver.
    rewrite (bool_decide_eq_true_2
               (channel_id ∉ ({[channel_id]} ∪ in_progress q) ∖ {[channel_id]}))
      by set_solver.
    cbn [andb]. case_bool_decide; [by rewrite Hfull|done].
Qed.

(** A failed channel is taken back at once; a channel that was marked
    completed while it waited in the queue is not. *)
Lemma requeue_after_check_witness :
  consistent (fst (add_channel 4 10 (init 1000)))
  ∧ snd (add_channel 4 10
           (mark_failed 4 "boom" "2025-01-01T00:00:00"
              (fst (get_next_channel (fst (add_channel 4 10 (init 1000))))))) = true
  ∧ consistent (mark_completed 4 (fst (add_channel 4 10 (init 1000))))
  ∧ snd (add_channel 4 10
           (mark_failed 4 "boom" "2025-01-01T00:00:00"
              (fst (get_next_channel
                      (mark_completed 4 (fst (add_channel 4 10 (init 1000)))))))) = false.
Proof.
  assert (Hc : consistent (fst (add_channel 4 10 (init 1000))))
    by apply (consistent_add 4 10 _ (consistent_init 1000)).
  assert (Hc' : consistent (mark_completed 4 (fst (add_channel 4 10 (init 1000)))))
    by apply (consistent_apply _ (Completed 4) Hc).
  split_and!; [exact Hc| |exact Hc'|].
  - rewrite (proj2 (proj2 (proj2 (requeue_after_check _ 4 10 [] 10 "boom"
               "2025-01-01T00:00:00" Hc eq_refl)))).
    vm_compute. reflexivity.
  - rewrite (proj2 (proj2 (proj2 (requeue_after_check _ 4 10 [] 10 "boom"
               "2025-01-01T00:00:00" Hc' eq_refl)))).
    vm_compute. reflexivity.
Defined.

End WorkQueueOpsFacts.

(** ** Queueing from the scheduler *)

Module SchedulerFacts.
Import Tracker WorkQueue WorkQueueOps Scheduler PyDictFacts TrackerFacts WorkQueueOpsFacts.

Lemma remove_all_shape (ids : list Z) : ∀ q,
  remove_all_from_completed ids q
  = mkQueue (max_size q) (queue q) (queued q) (in_progress q)
      (completed q ∖ list_to_set ids) (failed q) (st q).
Proof.
  unfold remove_all_from_completed.
  induction ids as [|c ids IH]; intros q; cbn [fold_left list_to_set foldr].
  - destruct q. cbn. f_equal. set_solver.
  - rewrite IH. unfold remove_from_completed. case_bool_decide; cbn; f_equal; set_solver.
Qed.

Lemma consistent_remove_all (ids : list Z) (q : t) :
  consistent q → consistent (remove_all_from_completed ids q).
Proof. intros [? ? ? ? ?]. rewrite remove_all_shape. by split. Qed.

Lemma add_channels_queued_mono (ids : list Z) (priority : Z) : ∀ q c,
  c ∈ queued q → c ∈ queued (fst (add_channels ids priority q)).
Proof.
  induction ids as [|c0 ids IH]; intros q c Hc; cbn [add_channels]; [done|].
  destruct (add_channel_shape c0 priority q) as [[Heq _]|(_ & _ & _ & _ & Heq)];
    rewrite Heq; clear Heq.
  - specialize (IH q c Hc). by destruct (add_channels ids priority q).
  - match goal with |- context [add_channels ids priority ?q1] =>
      specialize (IH q1 c); destruct (add_channels ids priority q1) end.
    apply IH. cbn. set_solver.
Qed.

Lemma add_channels_in_progress (ids : list Z) (priority : Z) : ∀ q,
  in_progress (fst (add_channels ids priority q)) = in_progress q.
Proof.
  induction ids as [|c0 ids IH]; intros q; cbn [add_channels]; [done|].
  destruct (add_channel_shape c0 priority q) as [[Heq _]|(_ & _ & _ & _ & Heq)];
    rewrite Heq; clear Heq.
  - specialize (IH q). by destruct (add_channels ids priority q).
  - match goal with |- context [add_channels ids priority ?q1] =>
      specialize (IH q1); destruct (add_channels ids priority q1) end.
    cbn [fst] in *. by rewrite IH.
Qed.

Lemma add_channels_queues (ids : list Z) (priority : Z) : ∀ q c,
  (0 < max_size q → qsize q + Z.of_nat (length ids) ≤ max_size q) →
  c ∈ ids → c ∉ in_progress q → c ∉ completed q →
  c ∈ queued (fst (add_channels ids priority q)).
Proof.
  induction ids as [|c0 ids IH]; intros q c Hroom Hc Hip Hco.
  { by apply elem_of_nil in Hc. }
  cbn [add_channels length] in *.
  destruct (add_channel_shape c0 priority q) as [[Heq Hwhy]|(H1 & H2 & H3 & Hf & Heq)];
    rewrite Heq; clear Heq.
  - assert (Hq : c ∈ ids ∨ c ∈ queued q).
    { apply elem_of_cons in Hc as [->|Hc]; [|by left].
      right. destruct Hwhy as [Hin|Hfull].
      - apply elem_of_union in Hin as [[?|?]%elem_of_union|?]; done.
      - exfalso. unfold full in Hfull. apply andb_true_iff in Hfull as [Hp Hle].
        apply Z.ltb_lt in Hp. apply Z.leb_le in Hle. specialize (Hroom Hp). lia. }
    destruct Hq as [Hq|Hq].
    + specialize (IH q c). destruct (add_channels ids priority q).
      apply IH; try done. intros Hp. specialize (Hroom Hp). lia.
    + pose proof (add_channels_queued_mono ids priority q c Hq).
      by destruct (add_channels ids priority q).
  - match goal with |- context [add_channels ids priority ?q1] => set (q1' := q1) end.
    apply elem_of_cons in Hc as [->|Hc].
    + pose proof (add_channels_queued_mono ids priority q1' c0) as Hm.
      destruct (add_channels ids priority q1'). apply Hm. cbn. set_solver.
    + specialize (IH q1' c). destruct (add_channels ids priority q1').
      apply IH; try done.
      unfold qsize. cbn [q1' max_size queue]. rewrite length_app. cbn [length].
      intros Hp. specialize (Hroom Hp). unfold qsize in Hroom. lia.
Qed.

(** X9.  In a mode that checks on update, a channel that is claimed from
    the tracker and is not being checked ends up in the queue, also when it
    was in the completed set, provided the queue has room for the claimed
    channels; its [needs_check] flag is cleared. *)
Theorem updated_channel_is_queued (pipeline_mode : string) (max_channels : Z)
    (timestamp : string) (u : updates) (q : t) (c : Z) :
  wf u →
  pipeline_mode ∉ no_check_on_update →
  c ∈ snd (get_and_clear_channels_needing_check (Some max_channels) timestamp u) →
  c ∉ in_progress q →
  (0 < max_size q →
   qsize q + Z.of_nat (length (snd (get_and_clear_channels_needing_check
                                      (Some max_channels) timestamp u)))
   ≤ max_size q) →
  let '(u', q') := queue_updated_channels pipeline_mode max_channels timestamp u q in
  c ∈ queued q' ∧ flagged c u' = false.
Proof.
  intros Hwf Hmode Hc Hip Hroom. unfold queue_updated_channels.
  rewrite bool_decide_eq_false_2 by done.
  pose proof (claim_balance (Some max_channels) timestamp u c Hwf) as Hb.
  destruct (get_and_clear_channels_needing_check (Some max_channels) timestamp u)
    as [u' ids]. cbn [snd] in *. destruct Hb as (_ & Hnd & Hbal).
  assert (Hfl : flagged c u' = false).
  { apply list_elem_of_In, (count_occ_In Z.eq_dec) in Hc.
    destruct (flagged c u'), (flagged c u); cbn in Hbal; try done; lia. }
  destruct ids as [|c0 ids]; [by apply elem_of_nil in Hc|].
  split; [|done].
  apply add_channels_queues; try done.
  - by rewrite remove_all_shape.
  - by rewrite remove_all_shape.
  - rewrite remove_all_shape. cbn [completed].
    apply not_elem_of_difference. right. by apply elem_of_list_to_set.
Qed.

(** X10.  A channel that is claimed from the tracker while it is being
    checked is not queued: its [needs_check] flag is cleared, it stays in
    progress, and it is not in the queue afterwards. *)
Theorem update_during_check_is_dropped (pipeline_mode : string) (max_channels : Z)
    (timestamp : string) (u : updates) (q : t) (c : Z) :
  wf u →
  consistent q →
  pipeline_mode ∉ no_check_on_update →
  c ∈ snd (get_and_clear_channels_needing_check (Some max_channels) timestamp u) →
  c ∈ in_progress q →
  let '(u', q') := queue_updated_channels pipeline_mode max_channels timestamp u q in
  flagged c u' = false ∧ c ∉ queued q' ∧ c ∉ map snd (queue q') ∧ c ∈ in_progress q'.
Proof.
  intros Hwf Hq Hmode Hc Hip. unfold queue_updated_channels.
  rewrite bool_decide_eq_false_2 by done.
  pose proof (claim_balance (Some max_channels) timestamp u c Hwf) as Hb.
  destruct (get_and_clear_channels_needing_check (Some max_channels) timestamp u)
    as [u' ids]. cbn [snd] in *. destruct Hb as (_ & Hnd & Hbal).
  assert (Hfl : flagged c u' = false).
  { apply list_elem_of_In, (count_occ_In Z.eq_dec) in Hc.
    destruct (flagged c u'), (flagged c u); cbn in Hbal; try done; lia. }
  destruct ids as [|c0 ids]; [by apply elem_of_nil in Hc|].
  set (q1 := remove_all_from_completed (c0 :: ids) q).
  assert (Hq1 : consistent q1) by by apply consistent_remove_all.
  pose proof (consistent_adds (c0 :: ids) 10 q1 Hq1) as Hq2.
  pose proof (add_channels_in_progress (c0 :: ids) 10 q1) as Hip2.
  destruct (add_channels (c0 :: ids) 10 q1) as [q2 n]. cbn [fst] in *.
  assert (Hin : c ∈ in_progress q2).
  { rewrite Hip2. unfold q1. by rewrite remove_all_shape. }
  destruct Hq2 as [_ Hset Hdisj _ _].
  assert (Hnq : c ∉ queued q2) by set_solver.
  split_and!; try done.
  rewrite Hset in Hnq. by rewrite elem_of_list_to_set in Hnq.
Qed.


Lemma updated_channel_is_queued_witness :
  wf two_channels
  ∧ 7 ∈ queued (snd (queue_updated_channels "pipeline_1_5" 50 "2025-01-01T00:10:00"
                       two_channels (init 1000))).
Proof.
  assert (Hmode : "pipeline_1_5"%string ∉ no_check_on_update).
  { apply (bool_decide_unpack _). vm_compute. reflexivity. }
  assert (Hids : snd (get_and_clear_channels_needing_check (Some 50)
                        "2025-01-01T00:10:00" two_channels) = [7]).
  { vm_compute. reflexivity. }
  split; [exact wf_two_channels|].
  pose proof (updated_channel_is_queued "pipeline_1_5" 50 "2025-01-01T00:10:00"
                two_channels (init 1000) 7 wf_two_channels Hmode) as H.
  rewrite Hids in H.
  destruct (queue_updated_channels "pipeline_1_5" 50 "2025-01-01T00:10:00"
              two_channels (init 1000)) as [u' q'].
  apply H.
  - apply list_elem_of_here.
  - apply not_elem_of_empty.
  - intros _. vm_compute. discriminate.
Defined.

Lemma update_during_check_is_dropped_witness :
  let q := fst (get_next_channel (fst (add_channel 7 10 (init 1000)))) in
  wf two_channels ∧ consistent q
  ∧ 7 ∉ queued (snd (queue_updated_channels "pipeline_1_5" 50 "2025-01-01T00:10:00"
                       two_channels q)).
Proof.
  intros q.
  assert (Hq : consistent q).
  { apply consistent_next, consistent_add, consistent_init. }
  assert (Hmode : "pipeline_1_5"%string ∉ no_check_on_update).
  { apply (bool_decide_unpack _). vm_compute. reflexivity. }
  assert (Hids : snd (get_and_clear_channels_needing_check (Some 50)
                        "2025-01-01T00:10:00" two_channels) = [7]).
  { vm_compute. reflexivity. }
  split; [exact wf_two_channels|]. split; [exact Hq|].
  pose proof (update_during_check_is_dropped "pipeline_1_5" 50 "2025-01-01T00:10:00"
                two_channels q 7 wf_two_channels Hq Hmode) as H.
  rewrite Hids in H.
  destruct (queue_updated_channels "pipeline_1_5" 50 "2025-01-01T00:10:00"
              two_channels q) as [u' q'].
  apply H.
  - apply list_elem_of_here.
  - assert (Hip : in_progress q = {[7]} ∪ ∅) by (vm_compute; reflexivity).
    rewrite Hip. apply elem_of_union_l, elem_of_singleton. reflexivity.
Defined.


Lemma add_channels_app (a b : list Z) (priority : Z) : ∀ q,
  fst (add_channels (a ++ b) priority q)
  = fst (add_channels b priority (fst (add_channels a priority q))).
Proof.
  induction a as [|c a IH]; intros q; cbn [app add_channels]; [done|].
  destruct (add_channel c priority q) as [q1 ok]. specialize (IH q1).
  destruct (add_channels (a ++ b) priority q1) as [q2 n].
  destruct (add_channels a priority q1) as [q3 m]. cbn [fst] in *. rewrite IH.
  by destruct (add_channels b priority q3).
Qed.

(** Adding the slices of width [s] that start at [k * s], [(k + 1) * s],
    ... adds the [n * s] ids from [k * s] on, one after the other. *)
Lemma add_batches (s : nat) (priority : Z) (ids : list Z) (n : nat) : ∀ k q,
  fold_left (fun q i => fst (add_channels (take s (drop i ids)) priority q))
    (map (fun j => (j * s)%nat) (seq k n)) q
  = fst (add_channels (take (n * s) (drop (k * s) ids)) priority q).
Proof.
  induction n as [|n IH]; intros k q.
  - cbn. done.
  - cbn [seq map fold_left]. rewrite IH, <- add_channels_app. f_equal. f_equal.
    replace (S k * s)%nat with (k * s + s)%nat by lia.
    rewrite <- drop_drop, take_take_drop. f_equal.
Qed.

Lemma range_covers (len s : nat) : (0 < s)%nat → (len ≤ (len + s - 1) / s * s)%nat.
Proof.
  intros Hs. pose proof (Nat.div_mod_eq (len + s - 1) s) as Hd.
  pose proof (Nat.mod_upper_bound (len + s - 1) s). lia.
Qed.

Lemma force_marks (ids : list Z) : ∀ u c,
  should_force_check c
    (fold_left (fun u channel_id => mark_channel_for_force_check channel_id u) ids u)
  = if bool_decide (c ∈ ids) then true else should_force_check c u.
Proof.
  induction ids as [|c0 ids IH]; intros u c; cbn [fold_left].
  - case_bool_decide as Hc; [by apply elem_of_nil in Hc|done].
  - rewrite IH. case_bool_decide as H1.
    + by rewrite bool_decide_eq_true_2 by (by apply list_elem_of_further).
    + unfold should_force_check at 1, mark_channel_for_force_check.
      cbn [channels_or_empty channels]. fold (channels_or_empty u).
      destruct (decide (c0 = c)) as [->|Hne].
      * rewrite get_set_eq, lookup_insert_eq.
        by rewrite bool_decide_eq_true_2 by apply list_elem_of_here.
      * rewrite get_set_ne by done.
        rewrite bool_decide_eq_false_2; [done|].
        intros [?|?]%elem_of_cons; done.
Qed.

(** X11.  With a positive [max_channels_per_run], the batches of the global
    check queue exactly what one [add_channels] call on the whole list, at
    priority 5, would queue, after every listed channel has left the
    completed set; a forced run marks every listed channel for a force
    check, and an unforced run leaves the tracker alone. *)
Theorem global_check_batches (channel_ids : list Z) (max_channels : Z)
    (u : updates) (q : t) :
  0 < max_channels →
  (∀ force_check,
     snd (queue_all_channels channel_ids force_check max_channels u q)
     = fst (add_channels channel_ids 5 (remove_all_from_completed channel_ids q)))
  ∧ (∀ c, should_force_check c (fst (queue_all_channels channel_ids true max_channels u q))
          = if bool_decide (c ∈ channel_ids) then true else should_force_check c u)
  ∧ fst (queue_all_channels channel_ids false max_channels u q) = u.
Proof.
  intros Hmax.
  assert (Hr : range_from_zero (length channel_ids) max_channels
               = Some (map (fun j => (j * Z.to_nat max_channels)%nat)
                         (seq 0 ((length channel_ids + Z.to_nat max_channels - 1)
                                 / Z.to_nat max_channels)))).
  { unfold range_from_zero.
    rewrite (proj2 (Z.eqb_neq max_channels 0)), (proj2 (Z.ltb_ge max_channels 0)) by lia.
    done. }
  unfold queue_all_channels. rewrite Hr. split_and!.
  - intros force. cbn [snd]. rewrite add_batches. cbn [Nat.mul drop].
    rewrite take_ge; [done|]. apply range_covers. lia.
  - intros c. cbn [fst]. apply force_marks.
  - done.
Qed.

Lemma global_check_batches_witness :
  0 < 2
  ∧ map snd (queue (snd (queue_all_channels [1; 2; 3; 4; 5] true 2 two_channels (init 1000))))
    = [1; 2; 3; 4; 5].
Proof.
  assert (H : 0 < 2) by reflexivity.
  split; [exact H|].
  rewrite (proj1 (global_check_batches [1; 2; 3; 4; 5] 2 two_channels (init 1000) H) true).
  vm_compute. reflexivity.
Defined.

(** X12.  With [max_channels_per_run] zero or negative the global check
    queues nothing: the listed channels leave the completed set and, in a
    forced run, are marked for a force check, but the queue keeps its
    entries. *)
Theorem global_check_without_batches (channel_ids : list Z) (force_check : bool)
    (max_channels : Z) (u : updates) (q : t) :
  max_channels ≤ 0 →
  snd (queue_all_channels channel_ids force_check max_channels u q)
  = remove_all_from_completed channel_ids q
  ∧ queue (snd (queue_all_channels channel_ids force_check max_channels u q)) = queue q
  ∧ ∀ c, c ∈ channel_ids →
         should_force_check c (fst (queue_all_channels channel_ids true max_channels u q))
         = true.
Proof.
  intros Hmax. unfold queue_all_channels, range_from_zero.
  split_and!.
  - destruct (max_channels =? 0) eqn:H0; [done|].
    apply Z.eqb_neq in H0. by rewrite (proj2 (Z.ltb_lt max_channels 0)) by lia.
  - destruct (max_channels =? 0) eqn:H0; cbn [snd].
    + by rewrite remove_all_shape.
    + apply Z.eqb_neq in H0. rewrite (proj2 (Z.ltb_lt max_channels 0)) by lia.
      cbn [snd fold_left]. by rewrite remove_all_shape.
  - intros c Hc.
    destruct (max_channels =? 0) eqn:H0; cbn [fst].
    + by rewrite force_marks, bool_decide_eq_true_2.
    + apply Z.eqb_neq in H0. rewrite (proj2 (Z.ltb_lt max_channels 0)) by lia.
      cbn [fst]. by rewrite force_marks, bool_decide_eq_true_2.
Qed.

Lemma global_check_without_batches_witness :
  0 ≤ 0
  ∧ queue (snd (queue_all_channels [1; 2; 3] true 0 two_channels (init 1000))) = [].
Proof.
  assert (H : 0 ≤ 0) by reflexivity.
  split; [exact H|].
  exact (proj1 (proj2 (global_check_without_batches [1; 2; 3] true 0 two_channels
                         (init 1000) H))).
Defined.

End SchedulerFacts.

(** ** Liveness and scoring: further properties *)

Module ScoreMoreFacts.
Import Score ScoreFacts.

Lemma dead_resolution_inv (r : string) :
  dead_resolution r = true →
  r = "0x0"%string
  ∨ ∃ width height, dimensions r = Some (width, height) ∧ (width = 0 ∨ height = 0).
Proof.
  unfold dead_resolution.
  destruct (negb (Str.is_empty r) && negb (String.eqb r "N/A")); [|done].
  destruct (String.eqb r "0x0") eqn:H0.
  { left. by apply String.eqb_eq. }
  destruct (Str.contains "x" r); [|done].
  destruct (dimensions r) as [[w h]|]; [|done].
  intros Hz. right. exists w, h. split; [done|].
  apply orb_true_iff in Hz as [Hz|Hz]; apply Z.eqb_eq in Hz; auto.
Qed.

(** X13.  [_is_stream_dead] answers [True] exactly for the records whose
    resolution is ["0x0"], or has a parsed dimension equal to 0, or whose
    bitrate is missing, [None], ["N/A"] or a number equal to 0. *)
Theorem is_stream_dead_iff (d : analyzed) : is_stream_dead d = true ↔ classified_dead d.
Proof.
  split.
  - unfold is_stream_dead, classified_dead.
    destruct (dead_resolution (default EmptyString (resolution d))) eqn:Hr.
    + intros _. destruct (resolution d) as [r|]; [|done]. cbn [default] in Hr.
      unfold Datatypes.id in Hr.
      apply dead_resolution_inv in Hr as [->|(w & h & Hd & Hz)]; [by left|].
      right. left. by exists r, w, h.
    + destruct (bitrate_kbps d) as [v|]; [|by intros _; right; right; left].
      cbn [default]. destruct v as [|b|z|q|s|l]; cbn [dead_bitrate].
      * intros _. right. right. right. by left.
      * intros Hb. do 5 right. exists 0%Q. destruct b; [done|]. by cbn.
      * intros Hz%Z.eqb_eq. subst z. do 5 right. by exists 0%Q.
      * intros Hq%Qeq_bool_iff. do 5 right. by exists q.
      * intros Hs%String.eqb_eq. subst s. do 4 right. by left.
      * done.
  - intros Hdead. unfold is_stream_dead.
    destruct Hdead as [Hr|[(r & w & h & Hr & Hdim & Hz)|[Hb|[Hb|[Hb|(q & Hq & Hz)]]]]].
    + by rewrite Hr.
    + rewrite Hr. cbn [default]. unfold Datatypes.id.
      by rewrite (dead_resolution_dimensions r w h).
    + rewrite Hb. by destruct (dead_resolution _).
    + rewrite Hb. by destruct (dead_resolution _).
    + rewrite Hb. by destruct (dead_resolution _).
    + destruct (dead_resolution _); [done|].
      destruct (bitrate_kbps d) as [v|]; [|done]. cbn [default] in *.
      unfold Datatypes.id in *.
      destruct v as [|b|z|q'|s|l]; cbn [number dead_bitrate] in *; try done.
      * injection Hq as <-. by destruct b.
      * injection Hq as <-. apply Z.eqb_eq. unfold Qeq in Hz. cbn in Hz. lia.
      * injection Hq as <-. by apply Qeq_bool_iff.
Qed.

Lemma resolution_score_bounds (r : string) : (0 <= resolution_score r <= 1)%Q.
Proof.
  unfold resolution_score. destruct (Str.contains "x" r); [|lra].
  destruct (dimensions r) as [[w h]|]; [|lra].
  repeat case_match; lra.
Qed.

Lemma codec_score_bounds (prefer : bool) (codec : string) :
  (0 <= codec_score prefer codec <= 1)%Q.
Proof. unfold codec_score. repeat case_match; lra. Qed.

Lemma dropped_penalty_nonneg (d : analyzed) : (0 <= dropped_penalty d)%Q.
Proof.
  unfold dropped_penalty. repeat case_match; try lra.
  apply Q.min_glb; lra.
Qed.

Lemma error_score_bounds (cfg : config) (d : analyzed) : (0 <= error_score cfg d <= 1)%Q.
Proof.
  unfold error_score. split; [apply Q.le_max_r|].
  apply Q.max_lub; [|lra].
  pose proof (dropped_penalty_nonneg d).
  repeat case_match; lra.
Qed.

Lemma capped_bounds (x : Q) : (0 < x)%Q → (0 <= Qmin x 1 <= 1)%Q.
Proof. intros Hx. split; [apply Q.min_glb; lra|apply Q.le_min_r]. Qed.

Lemma round_half_even_bounds (x : Q) (n : Z) :
  (0 <= x <= inject_Z n)%Q → 0 ≤ round_half_even x ≤ n.
Proof.
  intros [H0 Hn]. unfold round_half_even.
  pose proof (Qfloor_le x) as Hfl. pose proof (Qlt_floor x) as Hfu.
  assert (Hf0 : 0 ≤ Qfloor x).
  { change 0 with (Qfloor 0). by apply Qfloor_resp_le. }
  assert (Hfn : Qfloor x ≤ n).
  { rewrite <- (Qfloor_Z n). by apply Qfloor_resp_le. }
  destruct (Qcompare_spec (x - inject_Z (Qfloor x)) (1 # 2)) as [He|Hl|Hg].
  - destruct (Z.even (Qfloor x)); [lia|].
    destruct (decide (Qfloor x = n)) as [Heq|Hne]; [|lia].
    rewrite Heq in He. lra.
  - lia.
  - destruct (decide (Qfloor x = n)) as [Heq|Hne]; [|lia].
    rewrite Heq in Hg. lra.
Qed.

Lemma round2_bounds (x : Q) : (0 <= x <= 1)%Q → (0 <= round2 x <= 1)%Q.
Proof.
  intros Hx. unfold round2.
  destruct (round_half_even_bounds (x * 100) 100) as [H0 H1].
  { change (inject_Z 100) with 100%Q. lra. }
  rewrite Zle_Qle in H0, H1. pose proof H0 as H0'. pose proof H1 as H1'.
  change (inject_Z 0) with 0%Q in H0'. change (inject_Z 100) with 100%Q in H1'.
  split.
  - apply Qle_shift_div_l; lra.
  - apply Qle_shift_div_r; lra.
Qed.

(** X14.  When the five weights in force are non-negative and add up to
    at most 1, as the defaults do, the score of every record lies between
    0 and 1. *)
Theorem score_between_zero_and_one (cfg : config) (d : analyzed) :
  let w := scoring_weights cfg in
  let wb := default (30 # 100) (w_bitrate w) in
  let wr := default (25 # 100) (w_resolution w) in
  let wf := default (15 # 100) (w_fps w) in
  let wc := default (10 # 100) (w_codec w) in
  let we := default (20 # 100) (w_errors w) in
  (0 <= wb)%Q → (0 <= wr)%Q → (0 <= wf)%Q → (0 <= wc)%Q → (0 <= we)%Q →
  (wb + wr + wf + wc + we <= 1)%Q →
  (0 <= calculate_stream_score cfg d <= 1)%Q.
Proof.
  intros w wb wr wf wc we Hb Hr Hf Hc He Hsum.
  unfold calculate_stream_score. destruct (is_stream_dead d); [lra|].
  apply round2_bounds. fold w. fold wb wr wf wc we.
  pose proof (resolution_score_bounds (default "N/A"%string (resolution d))) as Br.
  pose proof (codec_score_bounds (prefer_h265 cfg)
                (Str.lower (default EmptyString (video_codec d)))) as Bc.
  pose proof (error_score_bounds cfg d) as Be.
  set (rs := resolution_score _) in *. set (cs := codec_score _ _) in *.
  set (es := error_score _ _) in *.
  assert (Hpos : ∀ v q, positive_number v = Some q → (0 < q)%Q).
  { intros v q. unfold positive_number. destruct (number _) as [q'|]; [|done].
    destruct (Qlt_le_dec 0 q'); [|done]. by intros [= <-]. }
  destruct (positive_number (bitrate_kbps d)) as [b|] eqn:Hbit;
    destruct (positive_number (fps d)) as [f|] eqn:Hfps.
  - pose proof (capped_bounds (b / 8000)) as Bb. pose proof (capped_bounds (f / 60)) as Bf.
    apply Hpos in Hbit, Hfps.
    specialize (Bb ltac:(apply Qlt_shift_div_l; lra)).
    specialize (Bf ltac:(apply Qlt_shift_div_l; lra)).
    set (mb := Qmin _ 1) in *. set (mf := Qmin _ 1) in *. nra.
  - pose proof (capped_bounds (b / 8000)) as Bb. apply Hpos in Hbit.
    specialize (Bb ltac:(apply Qlt_shift_div_l; lra)).
    set (mb := Qmin _ 1) in *. nra.
  - pose proof (capped_bounds (f / 60)) as Bf. apply Hpos in Hfps.
    specialize (Bf ltac:(apply Qlt_shift_div_l; lra)).
    set (mf := Qmin _ 1) in *. nra.
  - nra.
Qed.

Lemma score_between_zero_and_one_witness :
  (0 <= calculate_stream_score default_scoring Stats.trickle <= 1)%Q.
Proof.
  apply (score_between_zero_and_one default_scoring Stats.trickle);
    vm_compute; discriminate.
Defined.

End ScoreMoreFacts.

(** ** Bitrate detection: signs, degenerate durations and raising lines *)

Module BitrateOpsFacts.
Import Bitrate BitrateOps BitrateFacts.

Lemma rate_of_positive (total_bytes duration : Z) (v : Q) :
  rate_of total_bytes duration = Value v → (0 < v)%Q.
Proof.
  unfold rate_of. destruct (0 <? total_bytes) eqn:Hb; [|done].
  destruct (0 <? duration) eqn:Hd; [|done]. cbn [andb]. intros [= <-].
  apply Z.ltb_lt in Hb, Hd.
  assert (H8 : (0 < inject_Z (total_bytes * 8))%Q).
  { change 0%Q with (inject_Z 0). rewrite <- Zlt_Qlt. lia. }
  assert (Hdq : (0 < inject_Z duration)%Q).
  { change 0%Q with (inject_Z 0). by rewrite <- Zlt_Qlt. }
  apply Qlt_shift_div_l; [done|]. rewrite Qmult_0_l.
  apply Qlt_shift_div_l; [reflexivity|]. by rewrite Qmult_0_l.
Qed.

Lemma rate_of_nonpositive (total_bytes duration : Z) :
  duration ≤ 0 → rate_of total_bytes duration = Nothing.
Proof.
  intros Hd. unfold rate_of. destruct (0 <? duration) eqn:H; [apply Z.ltb_lt in H; lia|].
  by rewrite andb_false_r.
Qed.

Lemma method1_positive (duration : Z) (line : string) (v : Q) :
  method1 duration line = Value v → (0 < v)%Q.
Proof.
  unfold method1. repeat case_match; try done. apply rate_of_positive.
Qed.

Lemma method3_positive (duration : Z) (line : string) (v : Q) :
  method3 duration line = Some v → (0 < v)%Q.
Proof.
  unfold method3. repeat case_match; try done. intros [= <-].
  by eapply rate_of_positive.
Qed.

Lemma decimal_nonneg (s : string) : ∀ acc, 0 ≤ acc → 0 ≤ Str.decimal s acc.
Proof.
  induction s as [|c r IH]; intros acc Hacc; cbn [Str.decimal]; [done|].
  apply IH. unfold Str.digit_val. lia.
Qed.

Lemma float_of_nonneg (g : string) : (0 <= float_of g)%Q.
Proof.
  unfold float_of. destruct (Str.take_digits g) as [whole r].
  set (frac := match r with String "." f => f | _ => EmptyString end).
  apply Qle_shift_div_l.
  - change 0%Q with (inject_Z 0). rewrite <- Zlt_Qlt. apply Z.pow_pos_nonneg; lia.
  - rewrite Qmult_0_l. change 0%Q with (inject_Z 0). rewrite <- Zle_Qle.
    by apply decimal_nonneg.
Qed.

Lemma method2_nonneg (line : string) (v : Q) : method2 line = Some v → (0 <= v)%Q.
Proof.
  unfold method2. destruct (_ && _); [|done].
  destruct (progress_search line) as [g|]; [|done]. intros [= <-]. apply float_of_nonneg.
Qed.

Lemma scan_line_signs (duration : Z) (line : string) (st st' : scan) :
  signs st → scan_line duration line st = Some st' → signs st'.
Proof.
  intros [Hb Hp]. unfold scan_line.
  destruct (method1 duration line) as [| |v1] eqn:H1; [done| |]; intros [= <-]; split; cbn.
  - destruct (bitrate st) as [b|]; [intros v [= <-]; by apply Hb|].
    intros v. apply method3_positive.
  - destruct (method2 line) as [p|] eqn:H2; [intros v [= <-]; by eapply method2_nonneg|done].
  - intros v [= <-]. by eapply method1_positive.
  - destruct (method2 line) as [p|] eqn:H2; [intros v [= <-]; by eapply method2_nonneg|done].
Qed.

Lemma scan_lines_signs (duration : Z) (lines : list string) : ∀ st,
  signs st →
  match scan_lines duration lines st with
  | inl st' => signs st'
  | inr b => ∀ v, b = Some v → (0 < v)%Q
  end.
Proof.
  induction lines as [|line rest IH]; intros st Hst; cbn [scan_lines]; [done|].
  destruct (scan_line duration line st) as [st'|] eqn:Hl.
  - apply IH. by eapply scan_line_signs.
  - apply Hst.
Qed.

(** X15.  Whatever ffmpeg printed and however it ended, a bitrate that
    [get_stream_bitrate] returns is never negative; it is never returned
    with status [Timeout], and one returned with status [Error] is
    positive. *)
Theorem bitrate_never_negative (r : run_result) (duration : Z) (v : Q) (st : status) :
  get_stream_bitrate r duration = (Some v, st) →
  (0 <= v)%Q ∧ st ≠ Timeout ∧ (st = Error → (0 < v)%Q).
Proof.
  destruct r as [output| |]; cbn [get_stream_bitrate]; [|done|done].
  pose proof (scan_lines_signs duration (Str.splitlines output) (mkScan None None)) as H.
  destruct (scan_lines _ _ _) as [st'|b].
  - destruct H as [Hb Hp]; [by split|].
    intros [= Hv <-]. split_and!; [|done|done].
    destruct (bitrate st') as [b|]; [injection Hv as <-; apply Qlt_le_weak; by apply Hb|].
    by apply Hp.
  - intros [= -> <-]. split_and!; [|done|].
    + apply Qlt_le_weak. apply H; [by split|done].
    + intros _. apply H; [by split|done].
Qed.

Lemma bitrate_never_negative_witness :
  ∃ v, get_stream_bitrate (Completed progress_and_untagged) 30 = (Some v, OK)
       ∧ (0 <= v)%Q.
Proof.
  eexists. split; [vm_compute; reflexivity|].
  eapply (bitrate_never_negative (Completed progress_and_untagged) 30).
  vm_compute. reflexivity.
Defined.

Lemma last_value_none (vs : list (option Q)) :
  Forall (fun v => v = None) vs → last_value vs = None.
Proof.
  induction 1 as [|v vs -> _ IH]; [done|]. unfold last_value in *. cbn. by rewrite IH.
Qed.

Lemma first_value_none (vs : list (option Q)) :
  Forall (fun v => v = None) vs → first_value vs = None.
Proof.
  induction 1 as [|v vs -> _ IH]; [done|]. unfold first_value in *. cbn. by rewrite IH.
Qed.

Lemma method1_no_duration (duration : Z) (line : string) :
  duration ≤ 0 → value_of (method1 duration line) = None.
Proof.
  intros Hd. unfold method1. destruct (_ && _); [|done].
  destruct (last _) as [size_str|]; [|done].
  destruct (Str.py_int size_str) as [total_bytes|]; [|done].
  by rewrite rate_of_nonpositive.
Qed.

Lemma method3_no_duration (duration : Z) (line : string) :
  duration ≤ 0 → method3 duration line = None.
Proof.
  intros Hd. unfold method3. destruct (_ && _); [|done].
  destruct (bytes_search line) as [g|]; [|done].
  by rewrite rate_of_nonpositive.
Qed.

(** X16.  With a duration of zero or less no byte count is turned into a
    bitrate: when no line raises, the result is the last progress bitrate
    of the output, or [None] when there is none. *)
Theorem nonpositive_duration_progress_only (output : string) (duration : Z) :
  let lines := Str.splitlines output in
  duration ≤ 0 →
  forallb (fun line => negb (raises duration line)) lines = true →
  get_stream_bitrate (Completed output) duration = (last_value (map method2 lines), OK).
Proof.
  intros lines Hd Hok. unfold get_stream_bitrate. fold lines.
  rewrite scan_lines_ok.
  2:{ apply Forall_forall. intros line Hin. rewrite forallb_forall in Hok.
      apply list_elem_of_In in Hin. specialize (Hok line Hin). unfold raises in Hok.
      by destruct (method1 duration line). }
  cbn [bitrate progress_bitrate]. unfold final_bitrate, final_progress.
  rewrite last_value_none, first_value_none.
  - by destruct (last_value (map method2 lines)).
  - apply Forall_map, Forall_true. intros line. by apply method3_no_duration.
  - apply Forall_map, Forall_true. intros line. by apply method1_no_duration.
Qed.

Lemma nonpositive_duration_progress_only_witness :
  get_stream_bitrate (Completed progress_and_statistics) 0 = (Some 4000.0%Q, OK).
Proof.
  rewrite (nonpositive_duration_progress_only progress_and_statistics 0);
    [vm_compute; reflexivity|lia|vm_compute; reflexivity].
Defined.

Lemma scan_lines_raise (duration : Z) (bad : string) (post : list string) :
  ∀ (pre : list string) (st : scan),
  Forall (fun line => method1 duration line ≠ Raised) pre →
  method1 duration bad = Raised →
  scan_lines duration (pre ++ bad :: post) st
  = inr (final_bitrate duration pre (bitrate st)).
Proof.
  intros pre st Hpre Hbad.
  assert (Hsplit : ∀ l1 l2 st0, scan_lines duration (l1 ++ l2) st0
            = match scan_lines duration l1 st0 with
              | inl st1 => scan_lines duration l2 st1
              | inr b => inr b
              end).
  { induction l1 as [|l l1 IH]; intros l2 st0; cbn [scan_lines app]; [done|].
    destruct (scan_line duration l st0); [apply IH|done]. }
  rewrite Hsplit, scan_lines_ok by done. cbn [scan_lines].
  unfold scan_line. by rewrite Hbad.
Qed.

(** X17.  When a Statistics line has nothing before its ["bytes read"],
    taking the last token raises [IndexError] out of the loop: the status
    is [Error], the lines after it are not read, the progress fallback is
    not applied, and the bitrate is the one the lines before it gave from
    byte counts. *)
Theorem raising_line_ends_scan (output : string) (duration : Z)
    (pre post : list string) (bad : string) :
  Str.splitlines output = pre ++ bad :: post →
  forallb (fun line => negb (raises duration line)) pre = true →
  raises duration bad = true →
  get_stream_bitrate (Completed output) duration
  = (match last_value (map (fun l => value_of (method1 duration l)) pre) with
     | Some v => Some v
     | None => first_value (map (method3 duration) pre)
     end, Error).
Proof.
  intros Hlines Hpre Hbad. unfold get_stream_bitrate. rewrite Hlines.
  rewrite scan_lines_raise.
  - done.
  - apply Forall_forall. intros line Hin. rewrite forallb_forall in Hpre.
    apply list_elem_of_In in Hin. specialize (Hpre line Hin). unfold raises in Hpre.
    by destruct (method1 duration line).
  - unfold raises in Hbad. by destruct (method1 duration bad).
Qed.

Lemma raising_line_ends_scan_witness :
  ∃ v, get_stream_bitrate (Completed truncated_statistics) 30 = (Some v, Error)
       ∧ (v == 4800)%Q.
Proof.
  eexists. split.
  - rewrite (raising_line_ends_scan truncated_statistics 30
               ["[debug] 18000000 bytes read from input"%string]
               ["frame=  750 fps= 25 q=-1.0 size=   15000kB time=00:00:30.00 bitrate=4000.0kbits/s speed=1.0x"%string]
               "bytes read Statistics: 0 seeks"%string);
      vm_compute; reflexivity.
  - reflexivity.
Defined.

End BitrateOpsFacts.

(** ** Configuration: deep updates, dotted lookups and the user agent *)

Module ConfigOpsFacts.
Import Config ConfigOps PyDictFacts.

Lemma merged_obj (u b : list (string * json)) :
  merged (JObj u) (Some (JObj b)) = JObj (deep_update b u).
Proof.
  cbn [merged]. f_equal. revert b.
  induction u as [|[k v] u IH]; intros b; [done|]. cbn [deep_update]. apply IH.
Qed.

Lemma merged_other (v : json) (old : option json) :
  (∀ u b, v = JObj u → old = Some (JObj b) → False) → merged v old = v.
Proof.
  intros H. destruct v; try done. destruct old as [[]|]; try done. by destruct (H fields fields0).
Qed.

Lemma get_deep_update (updates : list (string * json)) : ∀ base k,
  NoDup (PyDict.keys updates) →
  PyDict.get k (deep_update base updates)
  = match PyDict.get k updates with
    | Some v => Some (merged v (PyDict.get k base))
    | None => PyDict.get k base
    end.
Proof.
  induction updates as [|[k0 v0] rest IH]; intros base k Hnd; [done|].
  unfold PyDict.keys in Hnd. cbn [map fst] in Hnd.
  apply NoDup_cons in Hnd as [Hnotin Hnd]. cbn [deep_update].
  rewrite IH by done. cbn [PyDict.get].
  destruct (decide (k = k0)) as [->|Hne].
  - apply get_None_keys in Hnotin. rewrite Hnotin. apply get_set_eq.
  - by rewrite get_set_ne.
Qed.

Lemma keys_deep_update (updates : list (string * json)) : ∀ base,
  PyDict.keys base `prefix_of` PyDict.keys (deep_update base updates).
Proof.
  induction updates as [|[k v] rest IH]; intros base; [done|]. cbn [deep_update].
  etrans; [|apply IH]. rewrite keys_set. case_bool_decide; [done|]. by apply prefix_app_r.
Qed.

(** X18.  [update] merges dictionaries key by key at every depth: a key
    absent from the updates keeps its value; where both the update and the
    configuration hold a dictionary the two are merged in the same way;
    anywhere else the update's value replaces the old one.  The keys the
    configuration had keep their order, new keys follow them. *)
Theorem update_merges_nested (config updates : list (string * json)) :
  NoDup (PyDict.keys updates) →
  (∀ k, PyDict.get k (update config updates)
        = match PyDict.get k updates, PyDict.get k config with
          | None, old => old
          | Some (JObj u), Some (JObj b) => Some (JObj (update b u))
          | Some v, _ => Some v
          end)
  ∧ PyDict.keys config `prefix_of` PyDict.keys (update config updates).
Proof.
  intros Hnd. split; [|apply keys_deep_update].
  intros k. unfold update. rewrite get_deep_update by done.
  destruct (PyDict.get k updates) as [v|]; [|done].
  destruct v as [| | | | |u]; try done.
  destruct (PyDict.get k config) as [[| | | | |b]|]; try done.
  by rewrite merged_obj.
Qed.

Lemma update_merges_nested_witness :
  PyDict.get "scoring"%string (update DEFAULT_CONFIG scoring_only)
  = Some (JObj (update
       [ ("weights",
           JObj [ ("bitrate", JNum (30 # 100));
                  ("resolution", JNum (25 # 100));
                  ("fps", JNum (15 # 100));
                  ("codec", JNum (10 # 100));
                  ("errors", JNum (20 # 100)) ]);
         ("min_score", JNum 0);
         ("prefer_h265", JBool true);
         ("penalize_interlaced", JBool true);
         ("penalize_dropped_frames", JBool true) ]%string
       [("min_score", JNum (5 # 10))]%string)).
Proof.
  assert (H : NoDup (PyDict.keys scoring_only)) by apply NoDup_singleton.
  rewrite (proj1 (update_merges_nested DEFAULT_CONFIG scoring_only H) "scoring"%string).
  reflexivity.
Defined.

Lemma deep_update_nil_nested (v : json) (k : string) (rest : list string) :
  deep_update [] (nested k rest v) = nested k rest v.
Proof. destruct rest; cbn; [by destruct v|done]. Qed.

Lemma get_path_nested (v : json) (rest : list string) : ∀ k config,
  (∀ u, v ≠ JObj u) →
  get_path (k :: rest) (JObj (deep_update config (nested k rest v))) = Some v.
Proof.
  induction rest as [|k' rest IH]; intros k config Hv; cbn [nested deep_update get_path].
  - rewrite get_set_eq. rewrite merged_other; [done|]. intros u b ->. by destruct (Hv u).
  - rewrite get_set_eq.
    destruct (PyDict.get k config) as [[| | | | |b]|] eqn:Hold;
      try (rewrite merged_other by (intros ? ? ? [=]);
           rewrite <- (deep_update_nil_nested v k' rest); by apply IH).
    rewrite merged_obj. by apply IH.
Qed.

Lemma append_nil_r (s : string) : s +:+ EmptyString = s.
Proof. induction s as [|a s IH]; [done|]. change (String a (s +:+ "") = String a s). by rewrite IH. Qed.

Lemma append_snoc (cur : string) (c : ascii) (s : string) :
  Str.snoc cur c +:+ s = cur +:+ String c s.
Proof.
  unfold Str.snoc. induction cur as [|a cur IH]; [done|].
  change (String a ((cur +:+ String c "") +:+ s) = String a (cur +:+ String c s)).
  by rewrite IH.
Qed.

Lemma split_char_from_app (sep : ascii) (s : string) : ∀ cur rest,
  Str.contains (String sep EmptyString) s = false →
  Str.split_char_from sep (s +:+ String sep rest) cur
  = (cur +:+ s) :: Str.split_char_from sep rest EmptyString.
Proof.
  induction s as [|c s IH]; intros cur rest Hno.
  - change ("" +:+ String sep rest) with (String sep rest). cbn [Str.split_char_from].
    by rewrite Ascii.eqb_refl, append_nil_r.
  - change (String c s +:+ String sep rest) with (String c (s +:+ String sep rest)).
    cbn [Str.split_char_from].
    cbn [Str.contains Str.starts_with] in Hno.
    apply orb_false_iff in Hno as [Hc Hs].
    rewrite andb_true_r in Hc. rewrite Ascii.eqb_sym in Hc. rewrite Hc.
    rewrite IH by done. by rewrite append_snoc.
Qed.

Lemma split_char_from_last (sep : ascii) (s : string) : ∀ cur,
  Str.contains (String sep EmptyString) s = false →
  Str.split_char_from sep s cur = [cur +:+ s].
Proof.
  induction s as [|c s IH]; intros cur Hno; cbn [Str.split_char_from].
  - by rewrite append_nil_r.
  - cbn [Str.contains Str.starts_with] in Hno.
    apply orb_false_iff in Hno as [Hc Hs].
    rewrite andb_true_r in Hc. rewrite Ascii.eqb_sym in Hc. rewrite Hc.
    rewrite IH by done. by rewrite append_snoc.
Qed.

Lemma split_concat (k : string) (rest : list string) :
  Forall (fun part => Str.contains "." part = false) (k :: rest) →
  Str.split_char "." (String.concat "." (k :: rest)) = k :: rest.
Proof.
  revert k. induction rest as [|k' rest IH]; intros k Hno.
  - apply Forall_cons in Hno as [Hk _]. cbn [String.concat]. unfold Str.split_char.
    by rewrite split_char_from_last.
  - apply Forall_cons in Hno as [Hk Hrest].
    change (String.concat "." (k :: k' :: rest))
      with (k +:+ String "." (String.concat "." (k' :: rest))).
    unfold Str.split_char. rewrite split_char_from_app by done.
    change ("" +:+ k) with k. f_equal. by apply IH.
Qed.

(** X19.  Round trip through the dotted notation: after [update] with the
    nested dictionary that spells a dotted key, [get] on that key returns
    the value set, whatever the configuration held before, provided the
    value is neither a dictionary nor [None] and no part of the key has a
    dot in it. *)
Theorem update_get_round_trip (config : list (string * json)) (k : string)
    (rest : list string) (value default : json) :
  Forall (fun part => Str.contains "." part = false) (k :: rest) →
  (∀ u, value ≠ JObj u) →
  value ≠ JNull →
  get (String.concat "." (k :: rest)) default (update config (nested k rest value)) = value.
Proof.
  intros Hparts Hobj Hnull. unfold get, update.
  rewrite split_concat by done. rewrite get_path_nested by done.
  by destruct value.
Qed.

Lemma update_get_round_trip_witness :
  get "queue.max_size" JNull (update DEFAULT_CONFIG (nested "queue" ["max_size"%string] (num 25)))
  = num 25
  ∧ get "queue.check_on_update" JNull
      (update DEFAULT_CONFIG (nested "queue" ["max_size"%string] (num 25)))
    = JBool true.
Proof.
  split; [|vm_compute; reflexivity].
  apply (update_get_round_trip DEFAULT_CONFIG "queue" ["max_size"%string] (num 25) JNull).
  - repeat constructor.
  - intros u. discriminate.
  - discriminate.
Defined.

Lemma keep_allowed_ok (s : string) : all_allowed (keep_allowed s) = true.
Proof.
  induction s as [|c s IH]; [done|]. cbn [keep_allowed].
  destruct (allowed c) eqn:Hc; [|done]. cbn [all_allowed]. by rewrite Hc.
Qed.

Lemma keep_allowed_id (s : string) : all_allowed s = true → keep_allowed s = s.
Proof.
  induction s as [|c s IH]; [done|]. cbn [all_allowed keep_allowed].
  intros [Hc Hs]%andb_true_iff. rewrite Hc. f_equal. by apply IH.
Qed.

Lemma take_allowed (s : string) : ∀ n, all_allowed s = true → all_allowed (take n s) = true.
Proof.
  induction s as [|c s IH]; intros [|n]; try done. cbn [all_allowed take].
  intros [Hc Hs]%andb_true_iff. rewrite Hc. by apply IH.
Qed.

Lemma take_length (s : string) : ∀ n, (String.length (take n s) ≤ n)%nat.
Proof.
  induction s as [|c s IH]; intros [|n]; cbn [take String.length]; try lia.
  specialize (IH n). lia.
Qed.

Lemma take_id (s : string) : ∀ n, (String.length s ≤ n)%nat → take n s = s.
Proof.
  induction s as [|c s IH]; intros [|n]; cbn [take String.length]; try done; try lia.
  intros Hn. f_equal. apply IH. lia.
Qed.

Lemma lstrip_allowed (s : string) : all_allowed s = true → all_allowed (Str.lstrip s) = true.
Proof.
  induction s as [|c s IH]; [done|]. cbn [Str.lstrip]. intros H.
  destruct (Str.is_space c); [|done]. cbn [all_allowed] in H.
  apply andb_true_iff in H as [_ H]. by apply IH.
Qed.

Lemma rstrip_allowed (s : string) : all_allowed s = true → all_allowed (Str.rstrip s) = true.
Proof.
  induction s as [|c s IH]; [done|]. cbn [Str.rstrip all_allowed].
  intros [Hc Hs]%andb_true_iff. destruct (_ && _); [done|].
  cbn [all_allowed]. rewrite Hc. by apply IH.
Qed.

Lemma lstrip_length (s : string) : (String.length (Str.lstrip s) ≤ String.length s)%nat.
Proof.
  induction s as [|c s IH]; [done|]. cbn [Str.lstrip].
  destruct (Str.is_space c); cbn [String.length]; lia.
Qed.

Lemma rstrip_length (s : string) : (String.length (Str.rstrip s) ≤ String.length s)%nat.
Proof.
  induction s as [|c s IH]; [done|]. cbn [Str.rstrip].
  destruct (_ && _); cbn [String.length]; lia.
Qed.

Lemma lstrip_no_lead (s : string) : no_lead (Str.lstrip s).
Proof.
  induction s as [|c s IH]; [done|]. cbn [Str.lstrip].
  by destruct (Str.is_space c) eqn:Hc.
Qed.

Lemma no_lead_lstrip (s : string) : no_lead s → Str.lstrip s = s.
Proof. destruct s as [|c s]; [done|]. cbn. by intros ->. Qed.

Lemma no_lead_rstrip (s : string) : no_lead s → no_lead (Str.rstrip s).
Proof.
  destruct s as [|c s]; [done|]. cbn [no_lead Str.rstrip]. intros Hc. by rewrite Hc.
Qed.

Lemma rstrip_rstrip (s : string) : Str.rstrip (Str.rstrip s) = Str.rstrip s.
Proof.
  induction s as [|c s IH]; [done|]. cbn [Str.rstrip].
  destruct (Str.is_space c && Str.is_empty (Str.rstrip s)) eqn:Hc; [done|].
  cbn [Str.rstrip]. by rewrite IH, Hc.
Qed.

Lemma strip_strip (s : string) : Str.strip (Str.strip s) = Str.strip s.
Proof.
  unfold Str.strip. rewrite (no_lead_lstrip (Str.rstrip _)).
  - apply rstrip_rstrip.
  - apply no_lead_rstrip, lstrip_no_lead.
Qed.

(** X20.  The user agent that [update_config] keeps is never empty, has at
    most 200 characters, all of them letters, digits, spaces, dots,
    slashes, underscores, dashes or parentheses, has no space at either
    end, and is left as it is when sanitised again. *)
Theorem sanitized_user_agent_safe (user_agent : string) :
  let sanitized := sanitize_user_agent user_agent in
  sanitized ≠ EmptyString
  ∧ (String.length sanitized ≤ 200)%nat
  ∧ all_allowed sanitized = true
  ∧ Str.strip sanitized = sanitized
  ∧ sanitize_user_agent sanitized = sanitized.
Proof.
  cbn zeta. unfold sanitize_user_agent.
  set (t := Str.strip (take 200 (keep_allowed user_agent))).
  assert (Hlen : (String.length t ≤ 200)%nat).
  { unfold t, Str.strip. pose proof (rstrip_length (Str.lstrip (take 200 (keep_allowed user_agent)))).
    pose proof (lstrip_length (take 200 (keep_allowed user_agent))).
    pose proof (take_length (keep_allowed user_agent) 200). lia. }
  assert (Hok : all_allowed t = true).
  { unfold t, Str.strip. apply rstrip_allowed, lstrip_allowed, take_allowed, keep_allowed_ok. }
  assert (Hst : Str.strip t = t) by apply strip_strip.
  destruct (Str.is_empty t) eqn:He.
  - split_and!; try done; vm_compute; lia.
  - split_and!; try done.
    + intros Ht. by rewrite Ht in He.
    + by rewrite keep_allowed_id, take_id, Hst, He.
Qed.

Lemma sanitize_updates_get (py_str : json → string) (updates analysis : list (string * json))
    (user_agent : json) :
  PyDict.get "stream_analysis"%string updates = Some (JObj analysis) →
  PyDict.get "user_agent"%string analysis = Some user_agent →
  sanitize_updates py_str updates
  = Some (PyDict.set "stream_analysis"%string
            (JObj (PyDict.set "user_agent"%string
                     (JStr (sanitize_user_agent (text py_str user_agent))) analysis))
            updates).
Proof. intros Ha Hu. unfold sanitize_updates. by rewrite Ha, Hu. Qed.

(** X21.  When the updates given to [update_config] carry
    [stream_analysis.user_agent], what is passed on to the configuration
    differs from them in that one value only, which is the sanitised text,
    and after [update] the configuration holds the sanitised text under
    [stream_analysis.user_agent]. *)
Theorem user_agent_stored_sanitized (py_str : json → string)
    (config updates analysis : list (string * json)) (user_agent : json) :
  NoDup (PyDict.keys updates) →
  NoDup (PyDict.keys analysis) →
  PyDict.get "stream_analysis"%string updates = Some (JObj analysis) →
  PyDict.get "user_agent"%string analysis = Some user_agent →
  ∃ updates' analysis',
    sanitize_updates py_str updates = Some updates'
    ∧ PyDict.keys updates' = PyDict.keys updates
    ∧ (∀ k, k ≠ "stream_analysis"%string → PyDict.get k updates' = PyDict.get k updates)
    ∧ PyDict.get "stream_analysis"%string updates' = Some (JObj analysis')
    ∧ PyDict.keys analysis' = PyDict.keys analysis
    ∧ (∀ k, k ≠ "user_agent"%string → PyDict.get k analysis' = PyDict.get k analysis)
    ∧ get_path ["stream_analysis"; "user_agent"]%string (JObj (update config updates'))
      = Some (JStr (sanitize_user_agent (text py_str user_agent))).
Proof.
  intros Hnd Hnda Ha Hu. eexists _, _. split; [by apply sanitize_updates_get|].
  assert (Hkeys : ∀ (d : list (string * json)) k v,
            is_Some (PyDict.get k d) → PyDict.keys (PyDict.set k v d) = PyDict.keys d).
  { intros d k v [x Hx]. rewrite keys_set. case_bool_decide as Hin; [done|].
    apply get_None_keys in Hin. by rewrite Hin in Hx. }
  split_and!.
  - by apply Hkeys.
  - intros k Hk. by apply get_set_ne.
  - apply get_set_eq.
  - by apply Hkeys.
  - intros k Hk. by apply get_set_ne.
  - unfold update. cbn [get_path]. rewrite get_deep_update.
    2:{ by rewrite Hkeys. }
    rewrite get_set_eq.
    set (a' := PyDict.set _ _ analysis).
    assert (Hget : PyDict.get "user_agent"%string a' = Some (JStr (sanitize_user_agent (text py_str user_agent))))
      by apply get_set_eq.
    destruct (PyDict.get "stream_analysis"%string config) as [[| | | | |b]|];
      try (rewrite merged_other by (intros ? ? ? [=]); by rewrite Hget).
    rewrite merged_obj.
    rewrite get_deep_update by (unfold a'; by rewrite Hkeys).
    by rewrite Hget.
Qed.

Lemma user_agent_stored_sanitized_witness :
  ∃ updates',
    sanitize_updates (fun _ => EmptyString) hostile_update = Some updates'
    ∧ get "stream_analysis.user_agent" JNull (update DEFAULT_CONFIG updates')
      = JStr "Mozilla/5.0 (X11 Linux)X-Injected yes"
    ∧ get "stream_analysis.timeout" JNull (update DEFAULT_CONFIG updates') = num 45
    ∧ get "stream_analysis.retries" JNull (update DEFAULT_CONFIG updates') = num 1.
Proof.
  destruct (user_agent_stored_sanitized (fun _ => EmptyString) DEFAULT_CONFIG hostile_update
              [ ("timeout", num 45);
                ("user_agent", JStr ("  Mozilla/5.0 (X11; Linux)" +:+ Bitrate.newline
                                     +:+ "X-Injected: 'yes'  ")) ]%string
              (JStr ("  Mozilla/5.0 (X11; Linux)" +:+ Bitrate.newline
                     +:+ "X-Injected: 'yes'  ")))
    as (updates' & analysis' & Hs & _).
  - apply NoDup_singleton.
  - vm_compute. repeat constructor; set_solver.
  - reflexivity.
  - reflexivity.
  - exists updates'. split; [exact Hs|].
    vm_compute in Hs. injection Hs as <-. vm_compute. done.
Defined.

End ConfigOpsFacts.

(** ** Overflow planning *)

Module OverflowFacts.
Import EventOrder Overflow PyDictFacts SortFacts.

Lemma overlaps_apart (d : Z) (a b : event) :
  end_time a = start_time a + hours d →
  end_time b = start_time b + hours d →
  overlaps a b = true ↔ Z.abs (start_time a - start_time b) < hours d.
Proof.
  intros Ha Hb. unfold overlaps. rewrite andb_true_iff, !Z.ltb_lt. lia.
Qed.

Lemma ranges_end (d : Z) (streams_data : list placed) :
  Forall (fun e => end_time e = start_time e + hours d) (events_with_ranges d streams_data).
Proof.
  unfold events_with_ranges.
  apply Forall_forall. intros e He. apply elem_of_sort_by in He.
  apply list_elem_of_omap in He as (g & _ & Hg).
  unfold range_of in Hg. destruct (snd g) as [|first ?]; [done|].
  destruct (event_time (data first)); [|done]. by injection Hg as <-.
Qed.

Section PlanFacts.

Variable channel_id : Z.
Variable overflow_channel_ids : list Z.
Variable d : Z.

Lemma sound_place (p : plan) (seen : list event) (e : event) :
  Forall (fun e => end_time e = start_time e + hours d) seen →
  end_time e = start_time e + hours d →
  sound d p seen → sound d (place channel_id overflow_channel_ids p e) (seen ++ [e]).
Proof.
  intros Hseen He [Hall Hapart Hconf].
  assert (Hkept : Forall (fun e => end_time e = start_time e + hours d) (kept_events p)).
  { apply Forall_forall. intros k Hk. rewrite Forall_forall in Hseen. apply Hseen.
    rewrite <- Hall. set_solver. }
  unfold place.
  destruct (find (fun kept => overlaps e kept) (kept_events p)) as [k|] eqn:Hfind.
  - apply find_some in Hfind as [Hk Hov]. apply list_elem_of_In in Hk.
    split; cbn [kept_events conflicts_found move_idx].
    + rewrite map_app, app_assoc, Hall. done.
    + done.
    + intros e' k' [Hin|Hin]%elem_of_app; [by apply Hconf|].
      apply list_elem_of_singleton in Hin as [= -> ->]. split; [done|].
      rewrite Forall_forall in Hkept. by apply (overlaps_apart d); [|apply Hkept|].
  - assert (Hnone : ∀ k, k ∈ kept_events p → hours d ≤ Z.abs (start_time e - start_time k)).
    { intros k Hk. rewrite Forall_forall in Hkept.
      pose proof (find_none _ _ Hfind k (proj1 (list_elem_of_In _ _) Hk)) as Hov.
      cbn beta in Hov.
      destruct (decide (Z.abs (start_time e - start_time k) < hours d)) as [Hlt|]; [|lia].
      apply (overlaps_apart d) in Hlt; [congruence|done|by apply Hkept]. }
    split; cbn [kept_events conflicts_found move_idx].
    + rewrite <- Hall. rewrite <- !app_assoc. apply Permutation_app_head, Permutation_app_comm.
    + intros i j a b Hij Ha Hb.
      apply lookup_app_Some in Ha as [Ha|[Hi Ha]]; apply lookup_app_Some in Hb as [Hb|[Hj Hb]].
      * by eapply Hapart.
      * apply list_lookup_singleton_Some in Hb as [_ <-].
        apply list_elem_of_lookup_2 in Ha. specialize (Hnone a Ha). lia.
      * apply list_lookup_singleton_Some in Ha as [_ <-].
        apply list_elem_of_lookup_2 in Hb. by apply Hnone.
      * apply list_lookup_singleton_Some in Ha as [Hi' _].
        apply list_lookup_singleton_Some in Hb as [Hj' _]. lia.
    + intros e' k' Hin. destruct (Hconf e' k' Hin) as [Hk' Hlt]. split; [set_solver|done].
Qed.

Lemma sound_fold (rest : list event) : ∀ p seen,
  Forall (fun e => end_time e = start_time e + hours d) seen →
  Forall (fun e => end_time e = start_time e + hours d) rest →
  sound d p seen →
  sound d (fold_left (place channel_id overflow_channel_ids) rest p) (seen ++ rest).
Proof.
  induction rest as [|e rest IH]; intros p seen Hseen Hrest Hp; cbn [fold_left].
  - by rewrite app_nil_r.
  - apply Forall_cons in Hrest as [He Hrest].
    rewrite (cons_middle e), app_assoc. apply IH; [|done|].
    + apply Forall_app. split; [done|]. by apply Forall_singleton.
    + by apply sound_place.
Qed.

Lemma sound_plan (events : list event) :
  Forall (fun e => end_time e = start_time e + hours d) events →
  sound d (conflict_plan channel_id overflow_channel_ids events) events.
Proof.
  intros Hev. destruct events as [|first rest]; cbn [conflict_plan].
  - split; cbn; try done. intros e k Hin. by apply elem_of_nil in Hin.
  - apply Forall_cons in Hev as [Hf Hrest].
    apply (sound_fold rest _ [first]); [by apply Forall_singleton|done|].
    split; cbn; try done.
    + intros [|i] [|j] a b Hij; cbn; try done.
    + intros e k Hin. by apply elem_of_nil in Hin.
Qed.

End PlanFacts.

(** X22.  The conflict search splits the timed events into those kept on
    the channel and those moved, losing none.  Any two kept events start
    at least [return_after_hours] apart, so no two of them overlap; every
    moved event starts less than [return_after_hours] away from the kept
    event it is recorded to conflict with. *)
Theorem overflow_plan_keeps_apart (channel_id : Z) (overflow_channel_ids : list Z)
    (return_after_hours : Z) (streams_data : list placed) :
  let events := events_with_ranges return_after_hours streams_data in
  let p := conflict_plan channel_id overflow_channel_ids events in
  kept_events p ++ map fst (conflicts_found p) ≡ₚ events
  ∧ (∀ i j a b, i ≠ j →
       kept_events p !! i = Some a → kept_events p !! j = Some b →
       overlaps a b = false
       ∧ hours return_after_hours ≤ Z.abs (start_time a - start_time b))
  ∧ (∀ e k, (e, k) ∈ conflicts_found p →
       k ∈ kept_events p ∧ overlaps e k = true
       ∧ Z.abs (start_time e - start_time k) < hours return_after_hours).
Proof.
  intros events p.
  pose proof (ranges_end return_after_hours streams_data) as Hend. fold events in Hend.
  destruct (sound_plan channel_id overflow_channel_ids return_after_hours events Hend)
    as [Hall Hapart Hconf].
  fold p in Hall, Hapart, Hconf.
  assert (Hkept : ∀ k, k ∈ kept_events p → end_time k = start_time k + hours return_after_hours).
  { intros k Hk. rewrite Forall_forall in Hend. apply Hend. rewrite <- Hall. set_solver. }
  split_and!; [done| |].
  - intros i j a b Hij Ha Hb. pose proof (Hapart i j a b Hij Ha Hb) as H. split; [|done].
    destruct (overlaps a b) eqn:Hov; [|done].
    apply (overlaps_apart return_after_hours) in Hov;
      [lia|apply Hkept; by eapply list_elem_of_lookup_2..].
  - intros e k Hin. destruct (Hconf e k Hin) as [Hk Hlt]. split_and!; [done| |done].
    apply (overlaps_apart return_after_hours); [|by apply Hkept|done].
    rewrite Forall_forall in Hend. apply Hend. rewrite <- Hall.
    apply elem_of_app. right. apply list_elem_of_fmap. by exists (e, k).
Qed.

Lemma get_append_to {A} (k c : Z) (x : A) (m : list (Z * list A)) :
  default [] (PyDict.get c (append_to k x m))
  = default [] (PyDict.get c m) ++ (if decide (k = c) then [x] else []).
Proof.
  unfold append_to. destruct (decide (k = c)) as [->|Hne].
  - by rewrite get_set_eq.
  - rewrite get_set_ne by done. by rewrite app_nil_r.
Qed.

Lemma get_ensure {A} (k c : Z) (m : list (Z * list A)) :
  default [] (PyDict.get c (ensure k m)) = default [] (PyDict.get c m).
Proof.
  unfold ensure. destruct (PyDict.get k m) as [l|] eqn:Hk; [done|].
  destruct (decide (k = c)) as [->|Hne].
  - by rewrite get_set_eq, Hk.
  - by rewrite get_set_ne.
Qed.

Lemma get_append_all {A} (f : placed → Z) (g : placed → A) (c : Z) (ss : list placed) :
  ∀ m : list (Z * list A),
  default [] (PyDict.get c (fold_left (fun acc s => append_to (f s) (g s) acc) ss m))
  = default [] (PyDict.get c m)
    ++ map g (filter (fun s => f s = c) ss).
Proof.
  induction ss as [|s ss IH]; intros m; cbn [fold_left].
  - by rewrite app_nil_r.
  - rewrite IH, get_append_to, <- app_assoc. f_equal.
    rewrite filter_cons. by destruct (decide (f s = c)).
Qed.

Lemma filter_const {A} (P : Prop) `{Decision P} (l : list A) :
  filter (fun _ => P) l = if decide P then l else [].
Proof.
  induction l as [|x l IH]; [by destruct (decide P)|].
  rewrite filter_cons, IH. by destruct (decide P).
Qed.

Section RoundRobin.

Variable channel_id : Z.
Variable overflow_channel_ids : list Z.

Lemma sent_to_snoc (c : Z) (conflicts : list (event * event)) (ek : event * event) :
  sent_to overflow_channel_ids c (conflicts ++ [ek])
  = sent_to overflow_channel_ids c conflicts
    ++ (if decide (overflow_target overflow_channel_ids (length conflicts) = c)
        then event_ids (fst ek) else []).
Proof.
  unfold sent_to. rewrite imap_app, concat_app. f_equal. cbn.
  rewrite Nat.add_0_r, app_nil_r. done.
Qed.

Lemma routed_place (p : plan) (e : event) :
  routed channel_id overflow_channel_ids p →
  routed channel_id overflow_channel_ids (place channel_id overflow_channel_ids p e).
Proof.
  intros [Hidx Hmoves Hremoves]. unfold place.
  destruct (find _ _) as [k|]; [|done].
  split; cbn [move_idx conflicts_found moves_by_channel streams_to_remove_by_channel].
  - rewrite length_app. cbn. lia.
  - intros c. rewrite sent_to_snoc, <- Hmoves, <- Hidx. cbn [fst].
    rewrite (get_append_all (fun _ => overflow_target overflow_channel_ids (move_idx p))
               (fun s => id (data s))).
    rewrite get_ensure. f_equal. unfold event_ids. rewrite filter_const.
    by destruct (decide (overflow_target overflow_channel_ids (move_idx p) = c)).
  - intros c. unfold removed_from. rewrite map_app, concat_app. cbn [map concat fst].
    rewrite app_nil_r. fold (removed_from channel_id c (conflicts_found p)). rewrite <- Hremoves.
    apply (get_append_all (fun s => default channel_id (current_channel s))
             (fun s => id (data s))).
Qed.

Lemma routed_plan (events : list event) :
  routed channel_id overflow_channel_ids
    (conflict_plan channel_id overflow_channel_ids events).
Proof.
  assert (H : ∀ rest p, routed channel_id overflow_channel_ids p →
                        routed channel_id overflow_channel_ids
                          (fold_left (place channel_id overflow_channel_ids) rest p)).
  { induction rest as [|e rest IH]; intros p Hp; [done|]. cbn [fold_left].
    by apply IH, routed_place. }
  destruct events as [|first rest]; cbn [conflict_plan]; [by split|].
  apply H. by split.
Qed.

Lemma moves_keys (rest : list event) : ∀ p,
  overflow_channel_ids ≠ [] →
  (∀ c, c ∈ PyDict.keys (moves_by_channel p) → c ∈ overflow_channel_ids) →
  ∀ c, c ∈ PyDict.keys (moves_by_channel
                          (fold_left (place channel_id overflow_channel_ids) rest p)) →
       c ∈ overflow_channel_ids.
Proof.
  intros p Hne. revert p.
  assert (Htarget : ∀ i, overflow_target overflow_channel_ids i ∈ overflow_channel_ids).
  { intros i. unfold overflow_target. apply list_elem_of_In, nth_In.
    apply Nat.mod_upper_bound. destruct overflow_channel_ids; [done|]. cbn. lia. }
  induction rest as [|e rest IH]; intros p Hp; [done|]. cbn [fold_left].
  apply IH. unfold place. destruct (find _ _) as [k|]; [|done].
  cbn [moves_by_channel].
  assert (Hfold : ∀ ss (m : list (Z * list Z)),
    (∀ c, c ∈ PyDict.keys m → c ∈ overflow_channel_ids) →
    ∀ c, c ∈ PyDict.keys
           (fold_left (fun moves s =>
                         append_to (overflow_target overflow_channel_ids (move_idx p))
                           (id (data s)) moves) ss m) →
         c ∈ overflow_channel_ids).
  { induction ss as [|s ss IHs]; intros m Hm; [done|]. cbn [fold_left].
    apply IHs. intros c'. unfold append_to. rewrite keys_set.
    case_bool_decide; [apply Hm|].
    intros [?|Hc'%list_elem_of_singleton]%elem_of_app; [auto|by subst c']. }
  apply Hfold. intros c'. unfold ensure.
  destruct (PyDict.get _ _); [apply Hp|]. rewrite keys_set.
  case_bool_decide; [apply Hp|].
  intros [?|Hc'%list_elem_of_singleton]%elem_of_app; [auto|by subst c'].
Qed.

End RoundRobin.

(** X23.  The moved events go to the overflow channels in turn: the
    [i]-th conflict found, counted from zero, sends all the streams of
    its event to [overflow_channel_ids[i % len(overflow_channel_ids)]],
    and [moves_by_channel] holds for each channel the stream ids sent to
    it, in that order, under no other key than an overflow channel.
    [streams_to_remove_by_channel] lists each moved stream under the
    channel it is in now. *)
Theorem overflow_round_robin (channel_id : Z) (overflow_channel_ids : list Z)
    (return_after_hours : Z) (streams_data : list placed) (p : plan) :
  plan_overflow channel_id overflow_channel_ids return_after_hours streams_data = Some p →
  (∀ c, default [] (PyDict.get c (moves_by_channel p))
        = concat (imap (fun i ek =>
                          if decide (nth (i mod length overflow_channel_ids)
                                       overflow_channel_ids 0 = c)
                          then event_ids (fst ek) else [])
                    (conflicts_found p)))
  ∧ (∀ c, c ∈ PyDict.keys (moves_by_channel p) → c ∈ overflow_channel_ids)
  ∧ (∀ c, default [] (PyDict.get c (streams_to_remove_by_channel p))
          = concat (map (fun ek =>
                           map (fun s => id (data s))
                             (filter (fun s => default channel_id (current_channel s) = c)
                                (ev_streams (fst ek))))
                      (conflicts_found p))).
Proof.
  unfold plan_overflow. destruct overflow_channel_ids as [|c0 ids] eqn:Hids; [done|].
  rewrite <- Hids. intros [= <-].
  destruct (routed_plan channel_id overflow_channel_ids
              (events_with_ranges return_after_hours streams_data)) as [_ Hmoves Hremoves].
  split_and!; [done| |done].
  destruct (events_with_ranges return_after_hours streams_data) as [|first rest];
    cbn [conflict_plan moves_by_channel].
  - intros c Hc. by apply elem_of_nil in Hc.
  - apply moves_keys; [by rewrite Hids|]. intros c Hc. by apply elem_of_nil in Hc.
Qed.

Lemma overflow_round_robin_witness :
  ∃ p, plan_overflow 7 [50; 51] 6 three_events = Some p
       ∧ map ev_item_num (kept_events p) = [1; 3]
       ∧ default [] (PyDict.get 50 (moves_by_channel p)) = [21; 22]
       ∧ default [] (PyDict.get 7 (streams_to_remove_by_channel p)) = [21; 22].
Proof.
  exists (conflict_plan 7 [50; 51] (events_with_ranges 6 three_events)).
  split; [reflexivity|].
  destruct (overflow_round_robin 7 [50; 51] 6 three_events _ eq_refl) as (Hmoves & _ & Hremoves).
  split; [vm_compute; reflexivity|].
  rewrite (Hmoves 50), (Hremoves 7). vm_compute. done.
Defined.

(** X24.  With [return_after_hours] at zero or below no event has a
    duration: nothing overlaps, every timed event is kept and nothing is
    moved. *)
Theorem no_overflow_without_duration (channel_id : Z) (overflow_channel_ids : list Z)
    (return_after_hours : Z) (streams_data : list placed) :
  return_after_hours ≤ 0 →
  let events := events_with_ranges return_after_hours streams_data in
  let p := conflict_plan channel_id overflow_channel_ids events in
  kept_events p = events ∧ conflicts_found p = [] ∧ moves_by_channel p = []
  ∧ streams_to_remove_by_channel p = [].
Proof.
  intros Hd events p.
  pose proof (ranges_end return_after_hours streams_data) as Hend. fold events in Hend.
  assert (Hh : hours return_after_hours ≤ 0) by (unfold hours; lia).
  assert (Hno : ∀ a b, a ∈ events → b ∈ events → overlaps a b = false).
  { intros a b Ha Hb. rewrite Forall_forall in Hend.
    destruct (overlaps a b) eqn:Hov; [|done].
    apply (overlaps_apart return_after_hours) in Hov; [lia|by apply Hend..]. }
  assert (Hfold : ∀ rest kept,
    (∀ a, a ∈ rest → a ∈ events) → (∀ b, b ∈ kept → b ∈ events) →
    fold_left (place channel_id overflow_channel_ids) rest (mkPlan kept [] [] 0 [])
    = mkPlan (kept ++ rest) [] [] 0 []).
  { induction rest as [|e rest IH]; intros kept Hr Hk; cbn [fold_left].
    - by rewrite app_nil_r.
    - unfold place at 2. cbn [kept_events].
      destruct (find (fun k => overlaps e k) kept) as [k|] eqn:Hfind.
      + apply find_some in Hfind as [Hin Hov]. apply list_elem_of_In in Hin.
        rewrite Hno in Hov; [done|set_solver|by apply Hk].
      + cbn [moves_by_channel streams_to_remove_by_channel move_idx conflicts_found].
        rewrite IH; [by rewrite <- app_assoc|set_solver|].
        intros b [Hb|Hb%list_elem_of_singleton]%elem_of_app; [by apply Hk|].
        subst b. apply Hr. set_solver. }
  subst p. destruct events as [|first rest] eqn:Hev; cbn [conflict_plan]; [done|].
  rewrite Hfold; [done|set_solver|set_solver].
Qed.

Lemma no_overflow_without_duration_witness :
  map ev_item_num (kept_events (conflict_plan 7 [50; 51] (events_with_ranges 0 three_events)))
  = [1; 2; 3].
Proof.
  destruct (no_overflow_without_duration 7 [50; 51] 0 three_events) as [-> _]; [lia|].
  vm_compute. reflexivity.
Defined.

End OverflowFacts.

(** ** Moving streams and bringing them back *)

Module MovesFacts.
Import EventOrder Overflow Moves.

Lemma keep_first_spec (l : list Z) : ∀ seen : gset Z,
  NoDup (keep_first seen l)
  ∧ (∀ x, x ∈ keep_first seen l ↔ x ∈ l ∧ x ∉ seen).
Proof.
  induction l as [|x l IH]; intros seen; cbn [keep_first].
  - split; [apply NoDup_nil_2|]. intros x. split; [by intros ?%elem_of_nil|].
    by intros [?%elem_of_nil _].
  - destruct (decide (x ∈ seen)) as [Hin|Hnot].
    + destruct (IH seen) as [Hnd Hel]. split; [done|]. intros y. rewrite Hel, elem_of_cons.
      split; [tauto|]. intros [[->|Hy] Hs]; [done|tauto].
    + destruct (IH ({[x]} ∪ seen)) as [Hnd Hel]. split.
      * apply NoDup_cons. split; [|done]. rewrite Hel.
        rewrite not_elem_of_union, not_elem_of_singleton. tauto.
      * intros y. rewrite !elem_of_cons, Hel.
        rewrite not_elem_of_union, not_elem_of_singleton.
        destruct (decide (y = x)) as [->|Hyx]; tauto.
Qed.

Lemma keep_first_id (l : list Z) : ∀ seen : gset Z,
  NoDup l → (∀ x, x ∈ l → x ∉ seen) → keep_first seen l = l.
Proof.
  induction l as [|x l IH]; intros seen Hnd Hseen; [done|]. cbn [keep_first].
  apply NoDup_cons in Hnd as [Hx Hnd].
  rewrite decide_False by (apply Hseen; set_solver). f_equal.
  apply IH; [done|]. intros y Hy. specialize (Hseen y). set_solver.
Qed.

Lemma keep_first_app (a b : list Z) : ∀ seen : gset Z,
  keep_first seen (a ++ b) = keep_first seen a ++ keep_first (list_to_set a ∪ seen) b.
Proof.
  induction a as [|x a IH]; intros seen; cbn [keep_first app list_to_set].
  - f_equal. set_solver.
  - destruct (decide (x ∈ seen)) as [Hin|Hnot].
    + rewrite IH. f_equal. f_equal. set_solver.
    + rewrite IH. cbn [app]. f_equal. f_equal. f_equal. set_solver.
Qed.

Lemma size_le_length (l : list Z) : (size (list_to_set l : gset Z) ≤ length l)%nat.
Proof.
  induction l as [|x l IH]; cbn [list_to_set length].
  - by rewrite size_empty.
  - rewrite size_union_alt, size_singleton.
    pose proof (subseteq_size (list_to_set l ∖ {[x]}) (list_to_set l : gset Z)) as H.
    specialize (H ltac:(set_solver)). lia.
Qed.

Lemma NoDup_length_size (l : list Z) :
  length l = size (list_to_set l : gset Z) ↔ NoDup l.
Proof.
  split; [|intros H; by rewrite size_list_to_set].
  induction l as [|x l IH]; [intros _; apply NoDup_nil_2|].
  cbn [list_to_set length]. intros Hlen.
  destruct (decide (x ∈ l)) as [Hin|Hnot].
  - assert (Heq : ({[x]} ∪ list_to_set l : gset Z) = list_to_set l) by set_solver.
    rewrite Heq in Hlen. pose proof (size_le_length l). lia.
  - apply NoDup_cons. split; [done|]. apply IH.
    rewrite size_union in Hlen by set_solver. rewrite size_singleton in Hlen. lia.
Qed.

Lemma merged_ids_spec (current_ids stream_ids : list Z) :
  NoDup (merged_ids current_ids stream_ids)
  ∧ (∀ x, x ∈ merged_ids current_ids stream_ids ↔ x ∈ current_ids ∨ x ∈ stream_ids)
  ∧ (NoDup current_ids → current_ids `prefix_of` merged_ids current_ids stream_ids)
  ∧ (NoDup (current_ids ++ stream_ids) →
     merged_ids current_ids stream_ids = current_ids ++ stream_ids).
Proof.
  unfold merged_ids. cbn zeta. case_bool_decide as Hlen.
  - destruct (keep_first_spec (current_ids ++ stream_ids) ∅) as [Hnd Hel].
    split_and!; [done| | |].
    + intros x. rewrite Hel, elem_of_app. set_solver.
    + intros Hc. rewrite keep_first_app, (keep_first_id current_ids) by set_solver.
      by apply prefix_app_r.
    + intros Hall. apply NoDup_length_size in Hall. done.
  - assert (Hnd : NoDup (current_ids ++ stream_ids)).
    { apply NoDup_length_size. destruct (decide (length (current_ids ++ stream_ids)
        = size (list_to_set (current_ids ++ stream_ids) : gset Z))); [done|]. by destruct Hlen. }
    split_and!; [done| | |done].
    + intros x. by rewrite elem_of_app.
    + intros _. by apply prefix_app_r.
Qed.

(** X25.  When the server accepts it, [move_streams_to_channel] leaves
    the target channel with a list without duplicates that holds exactly
    the streams it had and the streams moved; if the channel had no
    duplicates, its streams keep their places and the new ones follow.
    No other channel changes, and a refused update changes none. *)
Theorem move_keeps_channel_duplicate_free (accepts : Z → list Z → bool)
    (stream_ids : list Z) (target_channel_id : Z) (w : api) :
  let current_ids := default [] (channel_streams w !! target_channel_id) in
  let r := move_streams_to_channel accepts stream_ids target_channel_id w in
  (snd r = true →
   ∃ new_ids,
     channel_streams (fst r) !! target_channel_id = Some new_ids
     ∧ NoDup new_ids
     ∧ (∀ x, x ∈ new_ids ↔ x ∈ current_ids ∨ x ∈ stream_ids)
     ∧ (NoDup current_ids → current_ids `prefix_of` new_ids))
  ∧ (snd r = false → channel_streams (fst r) = channel_streams w)
  ∧ (∀ c, c ≠ target_channel_id → channel_streams (fst r) !! c = channel_streams w !! c).
Proof.
  intros current_ids r. subst r. unfold move_streams_to_channel, fetch_stream_ids.
  cbn zeta. fold current_ids. fold (merged_ids current_ids stream_ids).
  destruct (merged_ids_spec current_ids stream_ids) as (Hnd & Hel & Hpre & _).
  cbn [fst snd update_channel_streams channel_streams].
  split_and!.
  - intros ->. exists (merged_ids current_ids stream_ids).
    by rewrite lookup_insert_eq.
  - by intros ->.
  - intros c Hc. destruct (accepts _ _); [by rewrite lookup_insert_ne|done].
Qed.

Lemma move_keeps_channel_duplicate_free_witness :
  channel_streams
    (fst (move_streams_to_channel (fun _ _ => true) [21; 90; 22] 50 two_channels_api)) !! 50
  = Some [90; 21; 22].
Proof.
  destruct (move_keeps_channel_duplicate_free (fun _ _ => true) [21; 90; 22] 50
              two_channels_api) as (Hacc & _ & _).
  destruct (Hacc eq_refl) as (new_ids & Hnew & _). rewrite Hnew. f_equal.
  vm_compute in Hnew. by injection Hnew as <-.
Defined.

Lemma filter_not_in_app (b xs : list Z) :
  (∀ x, x ∈ xs → x ∉ b) → filter (fun sid => sid ∉ xs) (b ++ xs) = b.
Proof.
  intros Hdisj. rewrite filter_app.
  assert (H1 : filter (fun sid => sid ∉ xs) b = b).
  { clear -Hdisj. induction b as [|y b IH]; [done|]. rewrite filter_cons.
    rewrite decide_True by (intros Hy; apply (Hdisj y Hy); set_solver).
    f_equal. apply IH. intros x Hx. specialize (Hdisj x Hx). set_solver. }
  assert (H2 : ∀ l : list Z, (∀ x, x ∈ l → x ∈ xs) → filter (fun sid => sid ∉ xs) l = []).
  { induction l as [|y l IH]; intros Hl; [done|]. rewrite filter_cons.
    rewrite decide_False by (intros Hy; apply Hy, Hl; set_solver).
    apply IH. intros x Hx. apply Hl. set_solver. }
  by rewrite H1, H2, app_nil_r.
Qed.

Lemma filter_in_self (xs : list Z) : filter (fun sid => sid ∈ xs) xs = xs.
Proof.
  assert (H : ∀ l : list Z, (∀ x, x ∈ l → x ∈ xs) → filter (fun sid => sid ∈ xs) l = l).
  { induction l as [|y l IH]; intros Hl; [done|]. rewrite filter_cons.
    rewrite decide_True by (apply Hl; set_solver). f_equal. apply IH.
    intros x Hx. apply Hl. set_solver. }
  by apply H.
Qed.

(** The entries that are not yet due stay in the tracking list, and the
    server is not called for them. *)
Lemma return_keeps_early (accepts : Z → list Z → bool) (later : Z) (tracked : list moved) :
  Forall (fun entry => later < return_at entry) tracked →
  ∀ remaining w,
    fold_left
      (fun st entry =>
         if return_at entry <=? later then
           let '(w, success) :=
             move_streams_to_channel accepts (stream_ids entry) (from_channel entry)
               (snd st) in
           if success
           then (fst st,
                 fst (remove_streams_from_channel accepts (stream_ids entry)
                        (to_channel entry) w))
           else (fst st ++ [entry], w)
         else (fst st ++ [entry], snd st))
      tracked (remaining, w)
    = (remaining ++ tracked, w).
Proof.
  induction 1 as [|entry tracked Hearly Hall IH]; intros remaining w; cbn [fold_left].
  - by rewrite app_nil_r.
  - cbn [fst snd]. rewrite (proj2 (Z.leb_gt (return_at entry) later)) by lia.
    rewrite IH. by rewrite <- app_assoc.
Qed.

(** X26.  Round trip of an overflow move.  The main channel and the
    overflow channel are two channels whose stream lists repeat no id,
    the server accepts every update, and the entries already in the
    tracking list are not due before [later].  When the plan moves
    streams of the main channel, no id twice and none of them in the
    overflow channel yet, to this one overflow channel,
    [handle_overflow_conflicts] puts them at the end of the overflow
    channel, takes them off the main channel and adds an entry for them to
    the tracking list.  Run at [later] before [return_at],
    [return_moved_streams] changes nothing; from [return_at] on it puts
    the overflow channel back as it was and gives the main channel all its
    streams back, the returned ones last, the tracking list is as it was
    before the move, and no other channel changes. *)
Theorem overflow_round_trip (main overflow now return_after_hours later : Z)
    (streams_data : list placed) (overflow_channel_ids : list Z)
    (main_ids overflow_ids moved_ids : list Z) (p : plan) (tracked : list moved)
    (w : api) :
  plan_overflow main overflow_channel_ids return_after_hours streams_data = Some p →
  moves_by_channel p = [(overflow, moved_ids)] →
  streams_to_remove_by_channel p = [(main, moved_ids)] →
  main ≠ overflow →
  channel_streams w !! main = Some main_ids →
  channel_streams w !! overflow = Some overflow_ids →
  NoDup main_ids → NoDup overflow_ids → NoDup moved_ids →
  moved_ids ≠ [] →
  (∀ x, x ∈ moved_ids → x ∈ main_ids ∧ x ∉ overflow_ids) →
  Forall (fun entry => later < return_at entry) tracked →
  let accepts := fun (_ : Z) (_ : list Z) => true in
  let out := handle_overflow_conflicts accepts streams_data main overflow_channel_ids
               return_after_hours now (tracked, w) in
  let back := return_moved_streams accepts later out in
  fst out = tracked ++ [mkMoved moved_ids main overflow now (now + hours return_after_hours)]
  ∧ channel_streams (snd out) !! main
    = Some (filter (fun sid => sid ∉ moved_ids) main_ids)
  ∧ channel_streams (snd out) !! overflow = Some (overflow_ids ++ moved_ids)
  ∧ (later < now + hours return_after_hours → back = out)
  ∧ (now + hours return_after_hours ≤ later →
     fst back = tracked
     ∧ channel_streams (snd back) !! overflow = Some overflow_ids
     ∧ (∃ returned, channel_streams (snd back) !! main = Some returned
                    ∧ returned = filter (fun sid => sid ∉ moved_ids) main_ids ++ moved_ids
                    ∧ returned ≡ₚ main_ids)
     ∧ ∀ c, c ≠ main → c ≠ overflow →
            channel_streams (snd back) !! c = channel_streams w !! c).
Proof.
  intros Hplan Hmoves Hremoves Hne Hmain Hover Hnd_main Hnd_over Hnd_moved Hnonempty Hmoved
    Htracked accepts out back. subst accepts.
  assert (Hrun : out = move_overflow (fun _ _ => true) main now return_after_hours p
                         (tracked, w)).
  { subst out. unfold handle_overflow_conflicts. by rewrite Hplan, Hmoves. }
  set (rest := filter (fun sid => sid ∉ moved_ids) main_ids).
  assert (Hdisj : ∀ x, x ∈ moved_ids → x ∉ overflow_ids) by (intros x Hx; by apply Hmoved).
  assert (Hnd1 : NoDup (overflow_ids ++ moved_ids)).
  { apply NoDup_app. split_and!; [done| |done]. intros x Hx Hx'. by apply (Hdisj x). }
  assert (Hnd2 : NoDup (rest ++ moved_ids)).
  { apply NoDup_app. split_and!; [by apply NoDup_filter| |done].
    intros x Hx. unfold rest in Hx. apply list_elem_of_filter in Hx. tauto. }
  assert (Hperm : rest ++ moved_ids ≡ₚ main_ids).
  { apply NoDup_Permutation; [done|done|]. intros x. unfold rest.
    rewrite elem_of_app, list_elem_of_filter. split.
    - intros [[_ ?]|Hx]; [done|]. by apply Hmoved.
    - intros Hx. destruct (decide (x ∈ moved_ids)); auto. }
  assert (Hmain_nonempty : main_ids ≠ []).
  { destruct moved_ids as [|x xs]; [done|]. intros ->.
    destruct (Hmoved x) as [Hx _]; [set_solver|]. by apply elem_of_nil in Hx. }
  (* the move out *)
  assert (Hout : out = (tracked ++ [mkMoved moved_ids main overflow now
                                      (now + hours return_after_hours)],
                        mkApi (<[main := rest]> (<[overflow := overflow_ids ++ moved_ids]>
                                                   (channel_streams w)))
                              (update_calls w ++ [(overflow, overflow_ids ++ moved_ids)]
                               ++ [(main, rest)]))).
  { rewrite Hrun. unfold move_overflow. rewrite Hmoves. cbn [fold_left fst snd].
    unfold move_streams_to_channel, fetch_stream_ids. rewrite Hover. cbn [default].
    unfold Datatypes.id. fold (merged_ids overflow_ids moved_ids).
    rewrite (proj2 (proj2 (proj2 (merged_ids_spec overflow_ids moved_ids)))) by done.
    cbn [app]. f_equal.
    rewrite Hremoves. unfold remove_moved. cbn [fold_left fst snd].
    rewrite filter_in_self. destruct moved_ids as [|x xs] eqn:Hm; [done|]. rewrite <- Hm.
    unfold remove_streams_from_channel, fetch_stream_ids, update_channel_streams.
    cbn [channel_streams update_calls fst]. rewrite lookup_insert_ne by done.
    rewrite Hmain. destruct main_ids as [|y ys] eqn:Hmi; [done|]. rewrite <- Hmi.
    cbn [fst]. rewrite Hm, Hmi. unfold rest. by rewrite <- app_assoc. }
  clear Hrun. rewrite Hout. cbn [fst snd channel_streams].
  split_and!.
  - done.
  - by rewrite lookup_insert_eq.
  - rewrite lookup_insert_ne by done. by rewrite lookup_insert_eq.
  - intros Hearly. subst back. rewrite Hout. unfold return_moved_streams.
    cbn [fst snd]. rewrite fold_left_app, return_keeps_early by done.
    cbn [fold_left fst snd return_at app].
    destruct (now + hours return_after_hours <=? later) eqn:Hle; [apply Z.leb_le in Hle; lia|].
    done.
  - intros Hdue. subst back. rewrite Hout. unfold return_moved_streams.
    cbn [fst snd]. rewrite fold_left_app, return_keeps_early by done.
    cbn [fold_left fst snd return_at stream_ids from_channel to_channel app].
    destruct (now + hours return_after_hours <=? later) eqn:Hle;
      [|apply Z.leb_gt in Hle; lia].
    unfold move_streams_to_channel, fetch_stream_ids. cbn [channel_streams].
    rewrite lookup_insert_eq. cbn [default]. unfold Datatypes.id.
    fold (merged_ids rest moved_ids).
    rewrite (proj2 (proj2 (proj2 (merged_ids_spec rest moved_ids)))) by done.
    cbn [fst snd].
    unfold remove_streams_from_channel, fetch_stream_ids, update_channel_streams.
    cbn [channel_streams update_calls].
    rewrite lookup_insert_ne by done. rewrite lookup_insert_ne by done.
    rewrite lookup_insert_eq.
    destruct (overflow_ids ++ moved_ids) as [|y ys] eqn:Hom.
    { apply app_eq_nil in Hom as [_ ->]. done. }
    rewrite <- Hom. rewrite filter_not_in_app by done.
    cbn [fst snd channel_streams].
    split_and!.
    + done.
    + by rewrite lookup_insert_eq.
    + exists (rest ++ moved_ids). split_and!; [|done|done].
      rewrite lookup_insert_ne by done. by rewrite lookup_insert_eq.
    + intros c Hc1 Hc2. by rewrite !lookup_insert_ne by done.
Qed.

Lemma overflow_round_trip_witness :
  let out := handle_overflow_conflicts (fun _ _ => true) three_events 7 [50; 51] 6
               (hours 999) ([], two_channels_api) in
  let back := return_moved_streams (fun _ _ => true) (hours 1005) out in
  channel_streams (snd out) !! 7 = Some [11; 12; 31]
  ∧ channel_streams (snd out) !! 50 = Some [90; 21; 22]
  ∧ fst back = []
  ∧ channel_streams (snd back) !! 50 = Some [90].
Proof.
  intros out back.
  destruct (overflow_round_trip 7 50 (hours 999) 6 (hours 1005) three_events [50; 51]
              [11; 21; 12; 31; 22] [90] [21; 22]
              (conflict_plan 7 [50; 51] (events_with_ranges 6 three_events)) []
              two_channels_api)
    as (_ & Hmain & Hover & _ & Hback).
  - reflexivity.
  - vm_compute. reflexivity.
  - vm_compute. reflexivity.
  - done.
  - reflexivity.
  - reflexivity.
  - repeat constructor; set_solver.
  - repeat constructor; set_solver.
  - repeat constructor; set_solver.
  - done.
  - intros x Hx. split; set_solver.
  - constructor.
  - destruct Hback as (Htr & Hov & _); [vm_compute; discriminate|].
    split_and!; [|exact Hover|exact Htr|exact Hov].
    fold out in Hmain. rewrite Hmain. reflexivity.
Defined.


End MovesFacts.

(** ** Event-time ordering: a second pass *)

Module SecondPassFacts.
Import EventOrder SortFacts EventOrderFacts.















End SecondPassFacts.

(** ** Stream analysis: the retry loop *)

Module AnalysisFacts.
Import Bitrate Analysis.

Section Retry.

Variable the_stream_url : string.
Variable the_stream_id : Z.
Variable the_stream_name : string.
Variable ffmpeg_duration : Z.

Lemma attempts_spec (env : nat → observed) (more : nat) : ∀ attempt,
  let r := attempts the_stream_url the_stream_id the_stream_name ffmpeg_duration
             env attempt more in
  (attempt < snd r ≤ attempt + more + 1)%nat
  ∧ fst r = attempt_result the_stream_url the_stream_id the_stream_name ffmpeg_duration
              (env (snd r - 1)%nat)
  ∧ (∀ i, (attempt ≤ i < snd r - 1)%nat →
          status (attempt_result the_stream_url the_stream_id the_stream_name
                    ffmpeg_duration (env i)) ≠ OK)
  ∧ (status (fst r) = OK ∨ snd r = (attempt + more + 1)%nat).
Proof.
  induction more as [|more IH]; intros attempt; cbn [attempts].
  - destruct (status _) eqn:Hst; cbn [fst snd];
      (refine (conj _ (conj _ (conj _ _)));
       [lia|(replace (S attempt - 1)%nat with attempt by lia); reflexivity
       |intros i Hi; lia|right; lia]).
  - destruct (status (attempt_result _ _ _ _ (env attempt))) eqn:Hst.
    + cbn [fst snd]. refine (conj _ (conj _ (conj _ _)));
        [lia|(replace (S attempt - 1)%nat with attempt by lia); reflexivity
        |intros i Hi; lia|by left].
    + destruct (IH (S attempt)) as (Hn & Hr & Hno & Hlast). cbn zeta in *.
      refine (conj _ (conj _ (conj _ _)));
        [lia|done| |destruct Hlast; [by left|right; lia]].
      intros i Hi. destruct (decide (i = attempt)) as [->|Hne]; [by rewrite Hst|].
      apply Hno. lia.
    + destruct (IH (S attempt)) as (Hn & Hr & Hno & Hlast). cbn zeta in *.
      refine (conj _ (conj _ (conj _ _)));
        [lia|done| |destruct Hlast; [by left|right; lia]].
      intros i Hi. destruct (decide (i = attempt)) as [->|Hne]; [by rewrite Hst|].
      apply Hno. lia.
Qed.

(** X28.  With [retries] at zero or above, [analyze_stream] makes between
    one and [retries + 1] attempts and returns the result of the last one
    made: that is the first attempt whose status is [OK], and attempt
    number [retries] when none is.  No attempt follows one that is [OK]. *)
Theorem analyze_stream_returns_first_ok (retries : Z) (env : nat → observed) :
  0 ≤ retries →
  ∃ r n,
    analyze_stream the_stream_url the_stream_id the_stream_name ffmpeg_duration retries env
    = Some (r, n)
    ∧ 1 ≤ Z.of_nat n ≤ retries + 1
    ∧ r = attempt_result the_stream_url the_stream_id the_stream_name ffmpeg_duration
            (env (n - 1)%nat)
    ∧ (∀ i, (i < n - 1)%nat →
            status (attempt_result the_stream_url the_stream_id the_stream_name
                      ffmpeg_duration (env i)) ≠ OK)
    ∧ (status r = OK ∨ Z.of_nat n = retries + 1).
Proof.
  intros Hr. unfold analyze_stream.
  destruct (retries + 1 <=? 0) eqn:Hle; [apply Z.leb_le in Hle; lia|].
  destruct (attempts_spec env (Z.to_nat retries) 0%nat) as (Hn & Hres & Hno & Hlast).
  cbn zeta in *.
  destruct (attempts _ _ _ _ env 0 (Z.to_nat retries)) as [r n]. cbn [fst snd] in *.
  exists r, n. refine (conj _ (conj _ (conj _ (conj _ _)))); [done|lia|done| |].
  - intros i Hi. apply Hno. lia.
  - destruct Hlast; [by left|right; lia].
Qed.

End Retry.

(** With [retries] below zero the loop of [analyze_stream] has no
    iteration, and [return result] raises. *)
Lemma analyze_stream_without_attempts (url name : string) (sid duration retries : Z)
    (env : nat → observed) :
  retries < 0 → analyze_stream url sid name duration retries env = None.
Proof.
  intros Hr. unfold analyze_stream.
  destruct (retries + 1 <=? 0) eqn:Hle; [done|apply Z.leb_gt in Hle; lia].
Qed.

Lemma analyze_stream_returns_first_ok_witness :
  ∃ r, analyze_stream "http://example/stream" 5 "Five" 30 1 timeout_then_ok = Some (r, 2%nat)
       ∧ status r = OK
       ∧ resolution r = "1920x1080"%string
       ∧ video_codec r = "h264"%string
       ∧ audio_codec r = "aac"%string
       ∧ (fps r == 2997 # 100)%Q.
Proof.
  destruct (analyze_stream_returns_first_ok "http://example/stream" 5 "Five" 30 1
              timeout_then_ok) as (r & n & Hrun & _ & Hr & _); [lia|].
  assert (Hn : n = 2%nat).
  { vm_compute in Hrun. by injection Hrun as _ <-. }
  subst n. exists r. split; [exact Hrun|]. rewrite Hr.
  split_and!; vm_compute; reflexivity.
Defined.

End AnalysisFacts.

(** ** Stream statistics: liveness read back from the cache *)

Module StatsFacts.
Import Score Stats.

Lemma truncate_ge_1 (q : Q) : (1 <= q)%Q → 1 ≤ truncate q.
Proof.
  intros Hq. unfold truncate.
  destruct (Qle_bool 0 q) eqn:H0.
  - change 1 with (Qfloor 1). by apply Qfloor_resp_le.
  - assert (Qle_bool 0 q = true); [|congruence]. apply Qle_bool_iff. lra.
Qed.

Lemma truncate_small (q : Q) : (0 <= q)%Q → (q < 1)%Q → truncate q = 0.
Proof.
  intros H0 H1. unfold truncate.
  rewrite (proj2 (Qle_bool_iff 0 q)) by done.
  pose proof (Qfloor_le q) as Hfl. pose proof (Qlt_floor q) as Hfu.
  assert (Hlo : 0 ≤ Qfloor q).
  { change 0 with (Qfloor 0). by apply Qfloor_resp_le. }
  assert (Hhi : Qfloor q < 1).
  { rewrite Zlt_Qlt. change (inject_Z 1) with 1%Q. lra. }
  lia.
Qed.

Lemma py_int_of_number (v : pyval) (q : Q) :
  number v = Some q → ∃ z, py_int_of v = Some z ∧ z = truncate q.
Proof.
  destruct v as [|b|z|q'|s|l]; try done; cbn [number py_int_of]; intros [= <-].
  - exists (if b then 1 else 0). split; [done|]. by destruct b.
  - exists z. split; [done|]. unfold truncate.
    destruct (Qle_bool 0 (inject_Z z)); [by rewrite Qfloor_Z|by rewrite Qceiling_Z].
  - by eexists.
Qed.

Lemma number_kept_truthy (v : pyval) (q : Q) :
  number v = Some q → ¬ (q == 0)%Q → kept v && truthy v = true.
Proof.
  destruct v as [|b|z|q'|s|l]; try done; cbn [number kept truthy andb]; intros [= <-] Hq.
  - destruct b; [done|]. by destruct Hq.
  - apply negb_true_iff, Z.eqb_neq. intros ->. by destruct Hq.
  - apply negb_true_iff. destruct (Qeq_bool q' 0) eqn:H; [|done].
    apply Qeq_bool_iff in H. by destruct Hq.
Qed.

(** X29.  The bitrate is stored as its integer part, and a resolution of
    ["N/A"] is not stored.  So for a stream analysed with a measured
    bitrate of at least 1 kbps and a resolution other than ["N/A"], the
    data rebuilt from the statistics sent classify it as the analysis
    did, whatever was stored before.  A stream measured above 0 but below
    1 kbps is read back with bitrate 0 and so as dead; and a stream whose
    resolution is ["N/A"], with none stored before, is read back as
    ["0x0"], dead as well. *)
Theorem liveness_read_back (d : analyzed) (audio_codec : option string)
    (existing : stream_stats) (v : pyval) (q : Q) :
  bitrate_kbps d = Some v → number v = Some q → (0 < q)%Q →
  ∃ stats,
    updated_stats d audio_codec existing = Some (Some stats)
    ∧ bitrate_kbps (cached_analyzed stats) = Some (PInt (truncate q))
    ∧ (∀ r, resolution d = Some r → r ≠ "N/A"%string →
            resolution (cached_analyzed stats) = Some r)
    ∧ (∀ r, resolution d = Some r → r ≠ "N/A"%string → (1 <= q)%Q →
            is_stream_dead (cached_analyzed stats) = is_stream_dead d)
    ∧ ((q < 1)%Q → is_stream_dead (cached_analyzed stats) = true)
    ∧ (resolution d = Some "N/A"%string → s_resolution existing = None →
       is_stream_dead (cached_analyzed stats) = true).
Proof.
  intros Hv Hnum Hpos.
  destruct (py_int_of_number v q Hnum) as (z & Hint & Hz).
  assert (Hkeep : kept v && truthy v = true).
  { apply (number_kept_truthy v q Hnum). lra. }
  set (payload := mkStats (kept_text (resolution d))
                    (match fps d with
                     | Some v => if kept v then Some v else None
                     | None => None
                     end)
                    (kept_text (video_codec d)) (kept_text audio_codec)
                    (Some (PInt z))).
  assert (Hpayload : stream_stats_payload d audio_codec = Some payload).
  { unfold stream_stats_payload, bitrate_entry. by rewrite Hv, Hkeep, Hint. }
  exists (merge existing payload). split.
  { unfold updated_stats. rewrite Hpayload. unfold is_empty, payload. cbn.
    by destruct (kept_text (resolution d)), (match fps d with Some _ => _ | None => _ end),
         (kept_text (video_codec d)), (kept_text audio_codec). }
  unfold payload.
  cbn. subst z. split_and!.
  - done.
  - intros r Hr Hna. rewrite Hr. cbn.
    by rewrite (proj2 (String.eqb_neq r "N/A")).
  - intros r Hr Hna Hq. unfold is_stream_dead. cbn. rewrite Hr, Hv. cbn.
    rewrite (proj2 (String.eqb_neq r "N/A")) by done. cbn.
    destruct (dead_resolution r); [done|].
    pose proof (truncate_ge_1 q Hq) as Ht.
    rewrite (proj2 (Z.eqb_neq (truncate q) 0)) by lia.
    destruct v as [|b|z|q'|s|l]; try done; cbn [number] in Hnum; injection Hnum as <-;
      cbn [dead_bitrate].
    + destruct b; [done|]. exfalso. revert Hq. cbv. intros H. by apply H.
    + symmetry. apply Z.eqb_neq. intros ->. revert Hq. cbv. intros H. by apply H.
    + destruct (Qeq_bool q' 0) eqn:H; [|done]. apply Qeq_bool_iff in H. lra.
  - intros Hq. unfold is_stream_dead. cbn.
    rewrite (truncate_small q) by lra. cbn. by destruct (dead_resolution _).
  - intros Hr Hex. unfold is_stream_dead. cbn. rewrite Hr, Hex. done.
Qed.

Lemma liveness_read_back_witness :
  is_stream_dead trickle = false
  ∧ ∃ stats,
      updated_stats trickle (Some "aac"%string) (mkStats None None None None None)
      = Some (Some stats)
      ∧ is_stream_dead (cached_analyzed stats) = true.
Proof.
  split; [vm_compute; reflexivity|].
  destruct (liveness_read_back trickle (Some "aac"%string) (mkStats None None None None None)
              (PFloat (4 # 10)) (4 # 10) eq_refl eq_refl ltac:(reflexivity))
    as (stats & Hup & _ & _ & _ & Hsmall & _).
  exists stats. split; [exact Hup|]. apply Hsmall. reflexivity.
Defined.

End StatsFacts.

(** ** Ordering every channel by event time: no stream is lost *)

Module ReorderFacts.
Import EventOrder Reorder SortFacts.

Lemma sorted_filter {A} (R : A → A → Prop) (P : A → Prop) `{∀ x, Decision (P x)}
    (l : list A) :
  StronglySorted R l → StronglySorted R (filter P l).
Proof.
  induction 1 as [|x l Hs IH Hall]; [constructor|].
  rewrite filter_cons. destruct (decide (P x)); [|done].
  constructor; [done|]. apply Forall_forall. intros y [_ Hy]%list_elem_of_filter.
  rewrite Forall_forall in Hall. by apply Hall.
Qed.

Lemma sorted_map {A B} (R : A → A → Prop) (R' : B → B → Prop) (f : A → B) (l : list A) :
  (∀ x y, x ∈ l → y ∈ l → R x y → R' (f x) (f y)) →
  StronglySorted R l → StronglySorted R' (map f l).
Proof.
  intros Himp Hs. induction Hs as [|x l Hs IH Hall]; [constructor|].
  cbn [map]. constructor.
  - apply IH. intros a b Ha Hb. apply Himp; by apply list_elem_of_further.
  - apply Forall_forall. intros y (a & -> & Ha)%list_elem_of_fmap.
    rewrite Forall_forall in Hall.
    apply Himp; [apply list_elem_of_here|by apply list_elem_of_further|by apply Hall].
Qed.

Lemma index_le_total a b : index_le a b = false → index_le b a = true.
Proof. apply pair_le_total. Qed.

Lemma index_le_trans a b c :
  index_le a b = true → index_le b c = true → index_le a c = true.
Proof. apply pair_le_trans. Qed.

Section FetchFacts.

Variable parse_event_time : string → option Z.
Variable fetch_stream_name : Z → option string.

Lemma streams_with_times_ids (stream_ids : list Z) : ∀ idx,
  map id (streams_with_times parse_event_time fetch_stream_name idx stream_ids) = stream_ids.
Proof.
  induction stream_ids as [|x l IH]; intros idx; [done|]. cbn [streams_with_times map id].
  by rewrite IH.
Qed.

Lemma streams_with_times_time (stream_ids : list Z) : ∀ idx s,
  s ∈ streams_with_times parse_event_time fetch_stream_name idx stream_ids →
  event_time s = time_of parse_event_time fetch_stream_name (id s).
Proof.
  induction stream_ids as [|x l IH]; intros idx s Hs; cbn [streams_with_times] in Hs.
  - by apply elem_of_nil in Hs.
  - apply elem_of_cons in Hs as [->|Hs]; [done|]. by eapply IH.
Qed.

Lemma untimed_ids (stream_ids : list Z) : ∀ idx,
  map id (filter (fun s => has_time s = false)
            (streams_with_times parse_event_time fetch_stream_name idx stream_ids))
  = filter (fun x => time_of parse_event_time fetch_stream_name x = None) stream_ids.
Proof.
  induction stream_ids as [|x l IH]; intros idx; [done|]. cbn [streams_with_times].
  rewrite !filter_cons. unfold has_time at 1. cbn [event_time]. fold (time_of parse_event_time fetch_stream_name x).
  destruct (time_of parse_event_time fetch_stream_name x) eqn:Hx.
  - rewrite decide_False by done. rewrite decide_False by done. apply IH.
  - rewrite decide_True by done. rewrite decide_True by done. cbn [map id]. by rewrite IH.
Qed.

(** X30.  [reorder_streams_by_event_time] returns a permutation of the
    ids it is given, so the update that [apply_event_time_ordering] sends
    for a channel never loses or adds a stream.  The list is made of three
    blocks: the streams that start no earlier than two hours before [now],
    then the earlier ones, both by rising start time, then the streams
    without a time in the order they had. *)
Theorem reorder_by_event_time_permutes (now : Z) (stream_ids : list Z) :
  let time := time_of parse_event_time fetch_stream_name in
  let rising := fun a b => ∃ ta tb, time a = Some ta ∧ time b = Some tb ∧ ta ≤ tb in
  let out := reorder_stream_ids parse_event_time fetch_stream_name now stream_ids in
  out ≡ₚ stream_ids
  ∧ (∃ live past,
       out = live ++ past ++ filter (fun x => time x = None) stream_ids
       ∧ Forall (fun x => ∃ t, time x = Some t ∧ now - hours 2 ≤ t) live
       ∧ Forall (fun x => ∃ t, time x = Some t ∧ t < now - hours 2) past
       ∧ StronglySorted rising live
       ∧ StronglySorted rising past)
  ∧ ∀ channel_id streams accepted w,
      omap fid streams = stream_ids →
      let w' := order_channel_by_time parse_event_time fetch_stream_name now channel_id
                  streams accepted w in
      w' = w
      ∨ (update_calls w' = update_calls w ++ [(channel_id, out)]
         ∧ channel_streams w'
           = if accepted then <[channel_id := out]> (channel_streams w)
             else channel_streams w).
Proof.
  intros time rising out.
  set (S := streams_with_times parse_event_time fetch_stream_name 0 stream_ids).
  set (T := sort_by index_le (filter (fun s => has_time s = true) S)).
  assert (Hout : out = map id (filter (fun s => is_live now s = true) T
                               ++ filter (fun s => is_live now s = false) T
                               ++ filter (fun s => has_time s = false) S)).
  { subst out. unfold reorder_stream_ids. by destruct stream_ids. }
  assert (Htime : ∀ s, s ∈ T → event_time s = time (id s) ∧ has_time s = true).
  { intros s Hs. unfold T in Hs. apply elem_of_sort_by in Hs.
    apply list_elem_of_filter in Hs as [Hs Hin]. split; [|done].
    by eapply streams_with_times_time. }
  assert (Hsorted : StronglySorted (fun a b => index_le a b = true) T).
  { apply sort_by_sorted; [apply index_le_total|apply index_le_trans]. }
  assert (Hrising : ∀ P `{∀ x, Decision (P x)},
            StronglySorted rising (map id (filter P T))).
  { intros P HP. eapply (sorted_map (fun a b => index_le a b = true)).
    2:{ by apply sorted_filter. }
    intros a b [_ Ha]%list_elem_of_filter [_ Hb]%list_elem_of_filter Hle.
    destruct (Htime a Ha) as [Hta Hha]. destruct (Htime b Hb) as [Htb Hhb].
    unfold has_time in Hha, Hhb. unfold index_le, time_or_min, pair_le in Hle.
    cbn [fst snd] in Hle.
    destruct (event_time a) as [ta|]; [|done]. destruct (event_time b) as [tb|]; [|done].
    exists ta, tb. split_and!; [done|done|]. cbn [default] in Hle. unfold Datatypes.id in Hle.
    apply orb_true_iff in Hle as [Hlt|Heq].
    - apply Z.ltb_lt in Hlt. lia.
    - apply andb_true_iff in Heq as [Heq _]. apply Z.eqb_eq in Heq. lia. }
  split_and!.
  - rewrite Hout. rewrite <- (streams_with_times_ids stream_ids 0). fold S.
    apply fmap_Permutation. rewrite app_assoc.
    rewrite (list_filter_iff (fun s => is_live now s = false)
               (fun s => ¬ is_live now s = true)) by (intros s; by destruct (is_live now s)).
    rewrite filter_app_complement. unfold T. rewrite sort_by_perm.
    rewrite (list_filter_iff (fun s => has_time s = false)
               (fun s => ¬ has_time s = true)) by (intros s; by destruct (has_time s)).
    apply filter_app_complement.
  - exists (map id (filter (fun s => is_live now s = true) T)),
           (map id (filter (fun s => is_live now s = false) T)).
    split_and!.
    + rewrite Hout, !map_app. do 2 f_equal. apply untimed_ids.
    + apply Forall_forall. intros x (s & -> & Hs)%list_elem_of_fmap.
      apply list_elem_of_filter in Hs as [Hlive Hs]. destruct (Htime s Hs) as [Hts _].
      unfold is_live in Hlive. rewrite Hts in Hlive.
      destruct (time (id s)) as [t|]; [|done]. exists t. split; [done|].
      by apply Z.leb_le.
    + apply Forall_forall. intros x (s & -> & Hs)%list_elem_of_fmap.
      apply list_elem_of_filter in Hs as [Hlive Hs]. destruct (Htime s Hs) as [Hts Hhas].
      unfold is_live in Hlive. unfold has_time in Hhas. rewrite Hts in Hlive, Hhas.
      destruct (time (id s)) as [t|]; [|done]. exists t. split; [done|].
      apply Z.leb_gt in Hlive. lia.
    + apply Hrising.
    + apply Hrising.
  - intros channel_id streams accepted w Hids w'. subst w'.
    unfold order_channel_by_time. rewrite Hids. fold out.
    destruct (_ <? _)%nat; [by left|]. destruct (existsb _ _); [|by left].
    case_bool_decide; [|by left]. right. done.
Qed.

End FetchFacts.

Lemma reorder_sample_order :
  reorder_stream_ids sample_time sample_name (hours 1000) [1; 2; 3; 4; 5] = [4; 2; 1; 3; 5].
Proof. vm_compute. reflexivity. Qed.

End ReorderFacts.
